(** * dy-sql: query assembly and row folding

    A shallow embedding of [dysql/query_utils.py] (placeholder scanning,
    template handlers, parameter naming, [get_query_data]) together with a
    store-passing rendition of the same code for frame properties (shown
    to compute what the first rendition computes), and a model of the
    record-combining mapper exercised by
    [dysql/test/test_pydantic_mappers.py]. *)

From Stdlib Require Import String Ascii List ZArith Lia Bool Arith FinFun.
From Stdlib Require Import DecimalString DecimalNat Decimal DecimalFacts.
Import ListNotations.
Open Scope list_scope.
Open Scope string_scope.
Set Warnings "-register-all".

(* ===================================================================== *)
(** * Python built-ins the module relies on *)
(* ===================================================================== *)

Module Py.

(** ** Exceptions and results *)

Inductive exn : Type :=
| ListTemplateException (msg : string)
| QueryDataError (msg : string)
| TypeError
| ValueError
| AttributeError
| KeyError (key : string).

Inductive result (A : Type) : Type :=
| Ok (a : A)
| Raise (e : exn).
Arguments Ok {A} a.
Arguments Raise {A} e.

Definition bind {A B : Type} (m : result A) (k : A -> result B) : result B :=
  match m with
  | Ok a => k a
  | Raise e => Raise e
  end.

(** ** Values: the scalars, lists and tuples that template parameters hold *)

Inductive pyval : Type :=
| PNone
| PBool (b : bool)
| PInt (z : Z)
| PStr (s : string)
| PList (items : list pyval)
| PTuple (items : list pyval).

(** [bool(v)] *)
Definition truthy (v : pyval) : bool :=
  match v with
  | PNone => false
  | PBool b => b
  | PInt z => negb (Z.eqb z 0)
  | PStr s => negb (String.eqb s "")
  | PList items | PTuple items =>
      match items with [] => false | _ :: _ => true end
  end.

(** [isinstance(v, str)], [isinstance(v, tuple)], [isinstance(v, (list, tuple))] *)
Definition isinstance_str (v : pyval) : bool :=
  match v with PStr _ => true | _ => false end.

Definition isinstance_tuple (v : pyval) : bool :=
  match v with PTuple _ => true | _ => false end.

Definition isinstance_list_or_tuple (v : pyval) : bool :=
  match v with PList _ | PTuple _ => true | _ => false end.

Definition chars (s : string) : list pyval :=
  map (fun c => PStr (String c "")) (list_ascii_of_string s).

(** [iter(v)]: [None], booleans and integers are not iterable. *)
Definition iter (v : pyval) : result (list pyval) :=
  match v with
  | PList items | PTuple items => Ok items
  | PStr s => Ok (chars s)
  | PNone | PBool _ | PInt _ => Raise TypeError
  end.

(** [len(v)] *)
Definition len (v : pyval) : result nat :=
  match v with
  | PList items | PTuple items => Ok (List.length items)
  | PStr s => Ok (String.length s)
  | PNone | PBool _ | PInt _ => Raise TypeError
  end.

(** ** str methods *)

(** [str(n)] for a non-negative index *)
Definition str (n : nat) : string := NilEmpty.string_of_uint (Nat.to_uint n).

(** [s.startswith(p)] *)
Definition startswith (s p : string) : bool := prefix p s.

(** [sep.join(l)] *)
Definition join (sep : string) (l : list string) : string := String.concat sep l.

(** [s.replace(old, new)]: every non-overlapping occurrence, scanning from
    the left. [skip] counts the characters of an occurrence that has just
    been replaced and are still to be passed over. *)
Fixpoint replace_go (old new : string) (skip : nat) (s : string) : string :=
  match s with
  | EmptyString => EmptyString
  | String c s' =>
      match skip with
      | S k => replace_go old new k s'
      | O =>
          if prefix old s
          then new ++ replace_go old new (String.length old - 1) s'
          else String c (replace_go old new 0 s')
      end
  end.

Fixpoint intersperse (new s : string) : string :=
  match s with
  | EmptyString => new
  | String c s' => new ++ String c (intersperse new s')
  end.

Definition replace (s old new : string) : string :=
  match old with
  | EmptyString => intersperse new s
  | String _ _ => replace_go old new 0 s
  end.

(** [s.split(sep)] for a non-empty separator: [cur] holds the piece being
    read, reversed. *)
Fixpoint rev_string (acc s : string) : string :=
  match s with
  | EmptyString => acc
  | String c s' => rev_string (String c acc) s'
  end.

Fixpoint split_go (sep : string) (skip : nat) (cur : string) (s : string) : list string :=
  match s with
  | EmptyString => [rev_string "" cur]
  | String c s' =>
      match skip with
      | S k => split_go sep k cur s'
      | O =>
          if prefix sep s
          then rev_string "" cur :: split_go sep (String.length sep - 1) "" s'
          else split_go sep 0 (String c cur) s'
      end
  end.

Definition split (s sep : string) : result (list string) :=
  match sep with
  | EmptyString => Raise ValueError
  | String _ _ => Ok (split_go sep 0 "" s)
  end.

(** [c.isspace()] on the ASCII range, and [s.strip()] *)
Definition isspace (c : ascii) : bool :=
  let n := nat_of_ascii c in
  (((9 <=? n) && (n <=? 13)) || ((28 <=? n) && (n <=? 32)))%nat.

Fixpoint lstrip (s : string) : string :=
  match s with
  | EmptyString => EmptyString
  | String c s' => if isspace c then lstrip s' else s
  end.

Fixpoint rstrip (s : string) : string :=
  match s with
  | EmptyString => EmptyString
  | String c s' =>
      match rstrip s' with
      | EmptyString => if isspace c then EmptyString else String c EmptyString
      | String _ _ as r => String c r
      end
  end.

Definition strip (s : string) : string := rstrip (lstrip s).

(** [repr] of a list of plain identifiers-with-dots (no quotes or
    backslashes inside), as ['{}'.format(list)] prints it. *)
Definition repr_str (s : string) : string := "'" ++ s ++ "'".

Definition repr_list (l : list string) : string :=
  "[" ++ join ", " (map repr_str l) ++ "]".

(** ** dict: insertion-ordered, one entry per key *)

Definition dict (V : Type) : Type := list (string * V).

Fixpoint dict_get {V : Type} (d : dict V) (k : string) : option V :=
  match d with
  | [] => None
  | (k', v) :: d' => if String.eqb k' k then Some v else dict_get d' k
  end.

(** [d[k] = v]: an existing key keeps its position. *)
Fixpoint dict_set {V : Type} (d : dict V) (k : string) (v : V) : dict V :=
  match d with
  | [] => [(k, v)]
  | (k', v') :: d' =>
      if String.eqb k' k then (k', v) :: d' else (k', v') :: dict_set d' k v
  end.

(** [d.update(other)] for a mapping [other] *)
Definition dict_update {V : Type} (d other : dict V) : dict V :=
  fold_left (fun acc kv => dict_set acc (fst kv) (snd kv)) other d.

Definition dict_keys {V : Type} (d : dict V) : list string := map fst d.

End Py.

Import Py.

Notation "x <- m ;; k" := (Py.bind m (fun x => k))
  (at level 100, m at next level, right associativity, only parsing).
Notation "' p <- m ;; k" := (Py.bind m (fun p => k))
  (at level 100, p pattern, m at next level, right associativity, only parsing).

(* ===================================================================== *)
(** * The fragment of [re] that LIST_TEMPLATE_REGEX uses *)
(* ===================================================================== *)

Module Re.

Inductive regex : Type :=
| Lit (s : string)                 (* literal text *)
| Plus (cls : ascii -> bool)       (* [cls]+, greedy *)
| Seq (r1 r2 : regex)              (* r1 r2 *)
| Alt (r1 r2 : regex)              (* r1|r2, left alternative first *)
| Opt (r : regex)                  (* r?, greedy *)
| Group (n : nat) (r : regex).     (* capture group number n *)

Definition captures : Type := list (nat * string).

Fixpoint group (caps : captures) (n : nat) : string :=
  match caps with
  | [] => ""      (* a group that took no part reads as '' in findall *)
  | (m, s) :: caps' => if Nat.eqb m n then s else group caps' n
  end.

Fixpoint drop (n : nat) (s : string) : string :=
  match n, s with
  | O, _ => s
  | S _, EmptyString => EmptyString
  | S k, String _ s' => drop k s'
  end.

Fixpoint take (n : nat) (s : string) : string :=
  match n, s with
  | O, _ => EmptyString
  | S _, EmptyString => EmptyString
  | S k, String c s' => String c (take k s')
  end.

(** Remaining texts after one or more class characters, longest run first. *)
Fixpoint plus_ways (cls : ascii -> bool) (s : string) : list string :=
  match s with
  | EmptyString => []
  | String c s' => if cls c then (plus_ways cls s' ++ [s'])%list else []
  end.

(** Every way [r] matches a prefix of [s], in the order a backtracking
    matcher tries them; each way gives the captures and the text left. *)
Fixpoint run (r : regex) (caps : captures) (s : string) : list (captures * string) :=
  match r with
  | Lit l => if prefix l s then [(caps, drop (String.length l) s)] else []
  | Plus cls => map (fun rest => (caps, rest)) (plus_ways cls s)
  | Seq r1 r2 => flat_map (fun cr => run r2 (fst cr) (snd cr)) (run r1 caps s)
  | Alt r1 r2 => (run r1 caps s ++ run r2 caps s)%list
  | Opt r1 => (run r1 caps s ++ [(caps, s)])%list
  | Group n r1 =>
      map (fun cr =>
             ((n, take (String.length s - String.length (snd cr)) s) :: fst cr,
              snd cr))
          (run r1 caps s)
  end.

(** The match at the start of [s], if any: the first way that succeeds. *)
Definition match_here (r : regex) (s : string) : option (captures * string) :=
  hd_error (run r [] s).

(** [re.findall(r, s)] for a pattern with [ngroups] > 1 groups and no empty
    match: the tuples of groups 1..ngroups of the successive matches. *)
Fixpoint findall_go (r : regex) (ngroups : nat) (skip : nat) (s : string)
  : list (list string) :=
  match s with
  | EmptyString => []
  | String _ s' =>
      match skip with
      | S k => findall_go r ngroups k s'
      | O =>
          match match_here r s with
          | Some (caps, rest) =>
              map (fun i => group caps (S i)) (seq 0 ngroups)
              :: findall_go r ngroups (String.length s - String.length rest - 1) s'
          | None => findall_go r ngroups 0 s'
          end
      end
  end.

Definition findall (r : regex) (ngroups : nat) (s : string) : list (list string) :=
  findall_go r ngroups 0 s.

End Re.

(* ===================================================================== *)
(** * dysql/query_utils.py *)
(* ===================================================================== *)

Definition space_class (c : ascii) : bool := Ascii.eqb c " ".

(** [[A-Za-z_]] *)
Definition ident_class (c : ascii) : bool :=
  let n := nat_of_ascii c in
  (((65 <=? n) && (n <=? 90)) || ((97 <=? n) && (n <=? 122)) || (n =? 95))%nat.

Declare Scope regex_scope.
Delimit Scope regex_scope with regex.
Notation "r1 +> r2" := (Re.Seq r1 r2) (at level 60, right associativity) : regex_scope.

(** r'(( +)?{(in|not_in|values)__([A-Za-z_]+\.)?([A-Za-z_]+)}( +)?)' *)
Definition LIST_TEMPLATE_REGEX : Re.regex :=
  Re.Group 1
    (Re.Opt (Re.Group 2 (Re.Plus space_class))
     +> Re.Lit "{"
     +> Re.Group 3 (Re.Alt (Re.Lit "in") (Re.Alt (Re.Lit "not_in") (Re.Lit "values")))
     +> Re.Lit "__"
     +> Re.Opt (Re.Group 4 (Re.Plus ident_class +> Re.Lit "."))
     +> Re.Group 5 (Re.Plus ident_class)
     +> Re.Lit "}"
     +> Re.Opt (Re.Group 6 (Re.Plus space_class)))%regex.

Definition LIST_TEMPLATE_GROUPS : nat := 6.

(** [groups[i]] of a findall tuple *)
Definition item (groups : list string) (i : nat) : string := nth i groups "".

Definition handler_result : Type := (string * option (dict pyval))%type.

Module Templates.

(** The two locals [param_values] and [parameterized_keys] after the loop
    over [enumerate(values)]. *)
Fixpoint inner_loop (key : string) (items : list pyval) (index : nat)
    (param_values : dict pyval) (parameterized_keys : list string)
  : dict pyval * list string :=
  match items with
  | [] => (param_values, parameterized_keys)
  | value :: items' =>
      let parameterized_key := replace key "." "_" ++ "_" ++ str index in
      inner_loop key items' (S index)
        (dict_set param_values parameterized_key value)
        (parameterized_keys ++ [parameterized_key])%list
  end.

Definition inner_locals (key : string) (values : pyval) : dict pyval * list string :=
  match values with
  | PList items | PTuple items => inner_loop key items 0 [] []
  | _ => (dict_set [] key values, [key])
  end.

Definition _parameterize_inner_list (key : string) (values : pyval)
  : string * dict pyval :=
  let '(param_values, parameterized_keys) := inner_locals key values in
  ("( :" ++ join ", :" parameterized_keys ++ " )", param_values).

(** The loop of [_parameterize_list]; [values] is the whole argument, which
    the early [return] hands to [_parameterize_inner_list]. *)
Fixpoint list_loop (key : string) (values : pyval) (items : list pyval) (index : nat)
    (param_values : dict pyval) (param_inner_keys : list string)
  : string * dict pyval :=
  match items with
  | [] => (join ", " param_inner_keys, param_values)
  | value :: items' =>
      if isinstance_tuple value || startswith key "values" then
        let '(param_string, inner_param_values) :=
          _parameterize_inner_list (key ++ "_" ++ str index) value in
        list_loop key values items' (S index)
          (dict_update param_values inner_param_values)
          (param_inner_keys ++ [param_string])%list
      else _parameterize_inner_list key values
  end.

Definition _parameterize_list (key : string) (values : pyval)
  : result (string * dict pyval) :=
  let values := if isinstance_str values then PTuple [values] else values in
  items <- iter values ;;
  Ok (list_loop key values items 0 [] []).

(** [if legacy_key: key_name = legacy_key] *)
Definition key_name_of (name : string) (legacy_key : option string) : string :=
  match legacy_key with
  | Some k => if String.eqb k "" then name else k
  | None => name
  end.

Definition in_column (name : string) (values : pyval) (legacy_key : option string)
  : result handler_result :=
  if negb (truthy values) then Ok ("1 <> 1", None)
  else
    let key_name := key_name_of name legacy_key in
    '(keys, values) <- _parameterize_list key_name values ;;
    Ok (name ++ " IN " ++ keys, Some values).

Definition not_in_column (name : string) (values : pyval) (legacy_key : option string)
  : result handler_result :=
  if negb (truthy values) then Ok ("1 = 1", None)
  else
    let key_name := key_name_of name legacy_key in
    '(keys, values) <- _parameterize_list key_name values ;;
    Ok (name ++ " NOT IN " ++ keys, Some values).

Definition values (name : string) (values : pyval) (legacy_key : option string)
  : result handler_result :=
  if negb (truthy values)
  then Raise (ListTemplateException ("Must have values for " ++ name ++ " template"))
  else
    let key_name := key_name_of name legacy_key in
    '(keys, values) <- _parameterize_list key_name values ;;
    Ok ("VALUES " ++ keys, Some values).

Definition handler : Type := string -> pyval -> option string -> result handler_result.

Definition get_template (name : string) : option handler :=
  if String.eqb name "in" then Some in_column
  else if String.eqb name "not_in" then Some not_in_column
  else if String.eqb name "values" then Some values
  else None.

End Templates.

(** The module-level classes and functions. *)
Module QueryUtils.

Record QueryData : Type := mkQueryData {
  query : string;
  query_params : option (dict pyval + list (dict pyval));
  template_params : option (dict pyval)
}.

(** [template_params.get(key) is None] *)
Definition get_is_none (template_params : dict pyval) (key : string) : bool :=
  match dict_get template_params key with
  | None | Some PNone => true
  | Some _ => false
  end.

(** Lines 205-208: the [missing_keys] list of one iteration. *)
Definition missing_keys_of (template_params : option (dict pyval)) (key : string)
  : result (list string) :=
  match template_params with
  | None => Ok [key]
  | Some tp =>
      if get_is_none tp key then Ok [key]
      else if String.eqb key "values" then
        match dict_get tp key with
        | Some v => n <- len v ;; Ok (if (n =? 0)%nat then [key] else [])
        | None => Raise TypeError
        end
      else Ok []
  end.

(** ['{keyword}__{table}{column}'.format(keyword=groups[2],
      table=groups[3] if groups[3] else '', column=groups[4])] *)
Definition key_of_groups (groups : list string) : string :=
  item groups 2 ++ "__"
  ++ (if String.eqb (item groups 3) "" then "" else item groups 3)
  ++ item groups 4.

Fixpoint validate_loop (matches : list (list string))
    (template_params : option (dict pyval))
    (query : string) (validated_keys : list string)
  : result (string * list string) :=
  match matches with
  | [] => Ok (query, validated_keys)
  | groups :: matches' =>
      let key := key_of_groups groups in
      let validated_keys := (validated_keys ++ [key])%list in
      missing_keys <- missing_keys_of template_params key ;;
      if (0 <? List.length missing_keys)%nat then
        Raise (ListTemplateException ("Missing template keys " ++ repr_list missing_keys))
      else
        let query := replace query (item groups 0) (strip (item groups 0)) in
        validate_loop matches' template_params query validated_keys
  end.

Definition __validate_keys_clean_query (query : string)
    (template_params : option (dict pyval))
  : result (string * list string) :=
  validate_loop (Re.findall LIST_TEMPLATE_REGEX LIST_TEMPLATE_GROUPS query)
    template_params query [].

(** What a caller may hand to [get_query_data]. *)
Inductive argument : Type :=
| AQueryData (data : QueryData)
| AOther (v : pyval).

Definition __validate_query_and_params (data : argument) : result QueryData :=
  match data with
  | AQueryData d => Ok d
  | AOther _ =>
      Raise (QueryDataError
        "SQL annotated methods must return an instance of QueryData for query information")
  end.

(** [data.template_params[key]] *)
Definition subscript (template_params : option (dict pyval)) (key : string)
  : result pyval :=
  match template_params with
  | None => Raise TypeError
  | Some tp =>
      match dict_get tp key with
      | Some v => Ok v
      | None => Raise (KeyError key)
      end
  end.

(** Lines 238-240: the handler call made for one validated key. *)
Definition template_call (template_params : option (dict pyval)) (key : string)
  : result handler_result :=
  parts <- split key "__" ;;
  match parts with
  | [list_template_key; column_name] =>
      let template_to_use := Templates.get_template list_template_key in
      v <- subscript template_params key ;;
      match template_to_use with
      | Some f => f column_name v (Some key)
      | None => Raise TypeError
      end
  | _ => Raise ValueError
  end.

(** [if param_dict:] *)
Definition truthy_dict (d : option (dict pyval)) : bool :=
  match d with
  | Some (_ :: _) => true
  | _ => false
  end.

Fixpoint assemble_loop (template_params : option (dict pyval))
    (validated_keys : list string) (query : string) (params : dict pyval)
  : result (string * dict pyval) :=
  match validated_keys with
  | [] => Ok (query, params)
  | key :: keys' =>
      '(template_query, param_dict) <- template_call template_params key ;;
      let params :=
        match param_dict with
        | Some d => if truthy_dict param_dict then dict_update params d else params
        | None => params
        end in
      let query_key := "{" ++ key ++ "}" in
      let query := replace query query_key (" " ++ template_query ++ " ") in
      assemble_loop template_params keys' query params
  end.

(** [params.update(seq)] for a list of mappings: each element is read as a
    key/value pair, which for a mapping means its first two keys. *)
Fixpoint update_from_seq (params : dict pyval) (l : list (dict pyval))
  : result (dict pyval) :=
  match l with
  | [] => Ok params
  | e :: l' =>
      match dict_keys e with
      | [k; v] => update_from_seq (dict_set params k (PStr v)) l'
      | _ => Raise ValueError
      end
  end.

(** [if data.query_params: params.update(data.query_params)] *)
Definition merge_query_params (params : dict pyval)
    (query_params : option (dict pyval + list (dict pyval)))
  : result (dict pyval) :=
  match query_params with
  | None => Ok params
  | Some (inl []) | Some (inr []) => Ok params
  | Some (inl d) => Ok (dict_update params d)
  | Some (inr l) => update_from_seq params l
  end.

Definition get_query_data (data : argument) : result (string * dict pyval) :=
  data <- __validate_query_and_params data ;;
  let params : dict pyval := [] in
  '(query, validated_keys) <-
    __validate_keys_clean_query data.(query) data.(template_params) ;;
  params <- merge_query_params params data.(query_params) ;;
  assemble_loop data.(template_params) validated_keys query params.

End QueryUtils.

Import QueryUtils.

(* ===================================================================== *)
(** * The same code over a store of mutable objects *)
(* ===================================================================== *)

(** Lists, dicts and [QueryData] instances are objects in a store and are
    reached through references, so that two names may share one object and
    an update is seen through both; strings, numbers and tuples are values.
    Every Python list or dict the code creates is allocated, every
    [append], item assignment and [update] is a write. The string
    operations and the scanner are those of the first rendition. *)

Module Store.

Definition loc : Type := nat.

Inductive value : Type :=
| VNone
| VBool (b : bool)
| VInt (z : Z)
| VStr (s : string)
| VTuple (items : list value)
| VRef (l : loc).

Inductive object : Type :=
| OList (items : list value)
| ODict (entries : dict value)
| OQueryData (query query_params template_params : value).

Definition store : Type := list object.

(** A computation: from a store to a result, or an exception, and the store
    it leaves. *)
Definition M (A : Type) : Type := store -> result A * store.

Definition ret {A : Type} (a : A) : M A := fun h => (Ok a, h).

Definition raise {A : Type} (e : exn) : M A := fun h => (Raise e, h).

Definition bind {A B : Type} (m : M A) (k : A -> M B) : M B :=
  fun h =>
    match m h with
    | (Ok a, h') => k a h'
    | (Raise e, h') => (Raise e, h')
    end.

Notation "'let*' x ':=' m 'in' k" := (bind m (fun x => k))
  (at level 10, x pattern, m at level 100, k at level 200, only parsing).

(** A new object, at the end of the store. *)
Definition alloc (o : object) : M loc :=
  fun h => (Ok (List.length h), (h ++ [o])%list).

(** The object at a location; a location outside the store does not arise
    from a reference the program holds. *)
Definition load (l : loc) : M object :=
  fun h =>
    match nth_error h l with
    | Some o => (Ok o, h)
    | None => (Raise TypeError, h)
    end.

Fixpoint set_nth (l : nat) (o : object) (h : store) : store :=
  match h, l with
  | [], _ => []
  | _ :: t, O => o :: t
  | x :: t, S k => x :: set_nth k o t
  end.

Definition store_at (l : loc) (o : object) : M unit :=
  fun h => (Ok tt, set_nth l o h).

Fixpoint for_each {A : Type} (xs : list A) (body : A -> M unit) : M unit :=
  match xs with
  | [] => ret tt
  | x :: xs' => let* _ := body x in for_each xs' body
  end.

Definition enumerate {A : Type} (xs : list A) : list (nat * A) :=
  combine (seq 0 (List.length xs)) xs.

(** ** Operations of lists and dicts *)

(** [l.append(x)] *)
Definition list_append (l : loc) (x : value) : M unit :=
  let* o := load l in
  match o with
  | OList items => store_at l (OList (items ++ [x])%list)
  | _ => raise AttributeError
  end.

(** [d[k] = x] *)
Definition dict_setitem (l : loc) (k : string) (x : value) : M unit :=
  let* o := load l in
  match o with
  | ODict d => store_at l (ODict (dict_set d k x))
  | _ => raise TypeError
  end.

(** The strings of a list of strings. *)
Fixpoint strings_of (items : list value) : M (list string) :=
  match items with
  | [] => ret []
  | VStr s :: items' => let* ss := strings_of items' in ret (s :: ss)
  | _ :: _ => raise TypeError
  end.

Definition load_strings (l : loc) : M (list string) :=
  let* o := load l in
  match o with
  | OList items => strings_of items
  | _ => raise TypeError
  end.

(** [d.update(other)]: from a mapping, entry by entry; from a list, each
    element read as a pair, which for a mapping means its first two keys. *)
Definition update_pair (l : loc) (element : value) : M unit :=
  match element with
  | VRef le =>
      let* o := load le in
      match o with
      | ODict e =>
          match dict_keys e with
          | [k; v] => dict_setitem l k (VStr v)
          | _ => raise ValueError
          end
      | _ => raise TypeError
      end
  | _ => raise TypeError
  end.

Definition dict_update_from (l : loc) (other : value) : M unit :=
  match other with
  | VRef lo =>
      let* o := load lo in
      match o with
      | ODict d => for_each d (fun kv => dict_setitem l (fst kv) (snd kv))
      | OList items => for_each items (update_pair l)
      | OQueryData _ _ _ => raise TypeError
      end
  | _ => raise TypeError
  end.

(** [bool(v)] *)
Definition truthy (v : value) : M bool :=
  match v with
  | VNone => ret false
  | VBool b => ret b
  | VInt z => ret (negb (Z.eqb z 0))
  | VStr s => ret (negb (String.eqb s ""))
  | VTuple items => ret (match items with [] => false | _ :: _ => true end)
  | VRef l =>
      let* o := load l in
      match o with
      | OList items => ret (match items with [] => false | _ :: _ => true end)
      | ODict d => ret (match d with [] => false | _ :: _ => true end)
      | OQueryData _ _ _ => ret true
      end
  end.

Definition isinstance_str (v : value) : bool :=
  match v with VStr _ => true | _ => false end.

Definition isinstance_tuple (v : value) : bool :=
  match v with VTuple _ => true | _ => false end.

Definition isinstance_list_or_tuple (v : value) : M bool :=
  match v with
  | VTuple _ => ret true
  | VRef l =>
      let* o := load l in
      match o with
      | OList _ => ret true
      | _ => ret false
      end
  | _ => ret false
  end.

(** The elements an iteration over [v] goes through. *)
Definition iter (v : value) : M (list value) :=
  match v with
  | VTuple items => ret items
  | VStr s => ret (map (fun c => VStr (String c "")) (list_ascii_of_string s))
  | VRef l =>
      let* o := load l in
      match o with
      | OList items => ret items
      | ODict d => ret (map VStr (dict_keys d))
      | OQueryData _ _ _ => raise TypeError
      end
  | VNone | VBool _ | VInt _ => raise TypeError
  end.

Definition len (v : value) : M nat :=
  match v with
  | VTuple items => ret (List.length items)
  | VStr s => ret (String.length s)
  | VRef l =>
      let* o := load l in
      match o with
      | OList items => ret (List.length items)
      | ODict d => ret (List.length d)
      | OQueryData _ _ _ => raise TypeError
      end
  | VNone | VBool _ | VInt _ => raise TypeError
  end.

(** [template_params.get(key)] *)
Definition dict_get_method (d : value) (key : string) : M value :=
  match d with
  | VRef l =>
      let* o := load l in
      match o with
      | ODict entries =>
          ret (match dict_get entries key with Some v => v | None => VNone end)
      | _ => raise AttributeError
      end
  | _ => raise AttributeError
  end.

(** [template_params[key]] *)
Definition subscript (d : value) (key : string) : M value :=
  match d with
  | VRef l =>
      let* o := load l in
      match o with
      | ODict entries =>
          match dict_get entries key with
          | Some v => ret v
          | None => raise (KeyError key)
          end
      | _ => raise TypeError
      end
  | _ => raise TypeError
  end.

(** ** class Templates *)

Definition _parameterize_inner_list (key : string) (values : value)
  : M (string * value) :=
  let* param_values := alloc (ODict []) in
  let* parameterized_keys := alloc (OList []) in
  let* is_seq := isinstance_list_or_tuple values in
  let* _ :=
    (if negb is_seq then
       let* _ := dict_setitem param_values key values in
       list_append parameterized_keys (VStr key)
     else
       let* items := iter values in
       for_each (enumerate items)
         (fun iv =>
            let parameterized_key := replace key "." "_" ++ "_" ++ str (fst iv) in
            let* _ := dict_setitem param_values parameterized_key (snd iv) in
            list_append parameterized_keys (VStr parameterized_key))) in
  let* keys := load_strings parameterized_keys in
  ret ("( :" ++ join ", :" keys ++ " )", VRef param_values).

Fixpoint list_loop (key : string) (values : value)
    (param_values param_inner_keys : loc) (items : list (nat * value))
  : M (string * value) :=
  match items with
  | [] =>
      let* keys := load_strings param_inner_keys in
      ret (join ", " keys, VRef param_values)
  | (index, value) :: items' =>
      if isinstance_tuple value || startswith key "values" then
        let* r := _parameterize_inner_list (key ++ "_" ++ str index) value in
        let* _ := dict_update_from param_values (snd r) in
        let* _ := list_append param_inner_keys (VStr (fst r)) in
        list_loop key values param_values param_inner_keys items'
      else _parameterize_inner_list key values
  end.

Definition _parameterize_list (key : string) (values : value) : M (string * value) :=
  let* param_values := alloc (ODict []) in
  let* param_inner_keys := alloc (OList []) in
  let values := if isinstance_str values then VTuple [values] else values in
  let* items := iter values in
  list_loop key values param_values param_inner_keys (enumerate items).

Definition in_column (name : string) (values : value) (legacy_key : option string)
  : M (string * value) :=
  let* t := truthy values in
  if negb t then ret ("1 <> 1", VNone)
  else
    let key_name := Templates.key_name_of name legacy_key in
    let* r := _parameterize_list key_name values in
    ret (name ++ " IN " ++ fst r, snd r).

Definition not_in_column (name : string) (values : value) (legacy_key : option string)
  : M (string * value) :=
  let* t := truthy values in
  if negb t then ret ("1 = 1", VNone)
  else
    let key_name := Templates.key_name_of name legacy_key in
    let* r := _parameterize_list key_name values in
    ret (name ++ " NOT IN " ++ fst r, snd r).

Definition values (name : string) (values : value) (legacy_key : option string)
  : M (string * value) :=
  let* t := truthy values in
  if negb t
  then raise (ListTemplateException ("Must have values for " ++ name ++ " template"))
  else
    let key_name := Templates.key_name_of name legacy_key in
    let* r := _parameterize_list key_name values in
    ret ("VALUES " ++ fst r, snd r).

Definition handler : Type := string -> value -> option string -> M (string * value).

Definition get_template (name : string) : option handler :=
  if String.eqb name "in" then Some in_column
  else if String.eqb name "not_in" then Some not_in_column
  else if String.eqb name "values" then Some values
  else None.

(** ** The module-level functions *)

(** Lines 205-208 on the fresh list [missing_keys]. *)
Definition check_key (template_params : value) (key : string) (missing_keys : loc)
  : M unit :=
  match template_params with
  | VNone => list_append missing_keys (VStr key)
  | _ =>
      let* v := dict_get_method template_params key in
      match v with
      | VNone => list_append missing_keys (VStr key)
      | _ =>
          if String.eqb key "values" then
            let* v' := dict_get_method template_params key in
            let* n := len v' in
            if (n =? 0)%nat then list_append missing_keys (VStr key) else ret tt
          else ret tt
      end
  end.

Fixpoint validate_loop (matches : list (list string)) (template_params : value)
    (query : string) (validated_keys : loc) : M string :=
  match matches with
  | [] => ret query
  | groups :: matches' =>
      let key := key_of_groups groups in
      let* _ := list_append validated_keys (VStr key) in
      let* missing_keys := alloc (OList []) in
      let* _ := check_key template_params key missing_keys in
      let* missing := load_strings missing_keys in
      if (0 <? List.length missing)%nat then
        raise (ListTemplateException ("Missing template keys " ++ repr_list missing))
      else
        let query := replace query (item groups 0) (strip (item groups 0)) in
        validate_loop matches' template_params query validated_keys
  end.

Definition __validate_keys_clean_query (query : value) (template_params : value)
  : M (string * loc) :=
  let* validated_keys := alloc (OList []) in
  match query with
  | VStr q =>
      let* q' := validate_loop (Re.findall LIST_TEMPLATE_REGEX LIST_TEMPLATE_GROUPS q)
                               template_params q validated_keys in
      ret (q', validated_keys)
  | _ => raise TypeError
  end.

(** [isinstance(data, QueryData)] *)
Definition __validate_query_and_params (data : value) : M unit :=
  let not_query_data :=
    raise (QueryDataError
      "SQL annotated methods must return an instance of QueryData for query information") in
  match data with
  | VRef l =>
      let* o := load l in
      match o with
      | OQueryData _ _ _ => ret tt
      | _ => not_query_data
      end
  | _ => not_query_data
  end.

(** [data.query], [data.query_params], [data.template_params] *)
Definition getattr (data : value) (select : value -> value -> value -> value) : M value :=
  match data with
  | VRef l =>
      let* o := load l in
      match o with
      | OQueryData q qp tp => ret (select q qp tp)
      | _ => raise AttributeError
      end
  | _ => raise AttributeError
  end.

Definition data_query (data : value) : M value :=
  getattr data (fun q _ _ => q).

Definition data_query_params (data : value) : M value :=
  getattr data (fun _ qp _ => qp).

Definition data_template_params (data : value) : M value :=
  getattr data (fun _ _ tp => tp).

Definition template_call (data : value) (key : string) : M (string * value) :=
  match split key "__" with
  | Ok [list_template_key; column_name] =>
      let template_to_use := get_template list_template_key in
      let* template_params := data_template_params data in
      let* v := subscript template_params key in
      match template_to_use with
      | Some f => f column_name v (Some key)
      | None => raise TypeError
      end
  | Ok _ => raise ValueError
  | Raise e => raise e
  end.

Fixpoint assemble_loop (data : value) (params : loc)
    (validated_keys : list string) (query : string) : M string :=
  match validated_keys with
  | [] => ret query
  | key :: keys' =>
      let* r := template_call data key in
      let* t := truthy (snd r) in
      let* _ := (if t then dict_update_from params (snd r) else ret tt) in
      let query_key := "{" ++ key ++ "}" in
      let query := replace query query_key (" " ++ fst r ++ " ") in
      assemble_loop data params keys' query
  end.

Definition get_query_data (data : value) : M (string * value) :=
  let* _ := __validate_query_and_params data in
  let* params := alloc (ODict []) in
  let* q := data_query data in
  let* template_params := data_template_params data in
  let* qk := __validate_keys_clean_query q template_params in
  let* query_params := data_query_params data in
  let* t := truthy query_params in
  let* _ := (if t then dict_update_from params query_params else ret tt) in
  let* validated_keys := load_strings (snd qk) in
  let* query := assemble_loop data params validated_keys (fst qk) in
  ret (query, VRef params).

(** [m] leaves the first [n] objects of the store as they are, and removes
    none. *)
Definition preserves {A : Type} (n : nat) (m : M A) : Prop :=
  forall h, n <= List.length h ->
    firstn n (snd (m h)) = firstn n h /\ List.length h <= List.length (snd (m h)).

(** The store of the worked example: the list [[1, 2]], the mapping
    [{in__x: <that list>}] and the QueryData that holds it. *)
Definition example_store : store :=
  [ OList [VInt 1; VInt 2];
    ODict [("in__x", VRef 0)];
    OQueryData (VStr "SELECT * FROM t WHERE x {in__x}") VNone (VRef 1) ].

End Store.

(* ===================================================================== *)
(** * Reading the store rendition back as the first one *)
(* ===================================================================== *)

(** A store [h] and a value of the store rendition stand for a value of the
    first rendition when following the references of the former through
    [h] gives the latter.  The relations below say so for values, for
    mappings, for the three attributes of a QueryData and for what a
    handler returns. *)

Module Refinement.
Import Store.
#[local] Open Scope list_scope.

(** [v], read in the store [h], is the value [p]. *)
Inductive rep (h : store) : value -> pyval -> Prop :=
| rep_none : rep h VNone PNone
| rep_bool b : rep h (VBool b) (PBool b)
| rep_int z : rep h (VInt z) (PInt z)
| rep_str s : rep h (VStr s) (PStr s)
| rep_tuple vs ps :
    Forall2 (rep h) vs ps -> rep h (VTuple vs) (PTuple ps)
| rep_list l vs ps :
    nth_error h l = Some (OList vs) -> Forall2 (rep h) vs ps ->
    rep h (VRef l) (PList ps).

Definition rep_entry (h : store) (e1 : string * value) (e2 : string * pyval) : Prop :=
  fst e1 = fst e2 /\ rep h (snd e1) (snd e2).

Definition rep_dict (h : store) (e : dict value) (d : dict pyval) : Prop :=
  Forall2 (rep_entry h) e d.

Definition rep_dict_ref (h : store) (v : value) (d : dict pyval) : Prop :=
  exists l e, v = VRef l /\ nth_error h l = Some (ODict e) /\ rep_dict h e d.

Definition rep_template_params (h : store) (v : value) (tp : option (dict pyval)) : Prop :=
  match tp with
  | None => v = VNone
  | Some d => rep_dict_ref h v d
  end.

Definition rep_query_params (h : store) (v : value)
    (qp : option (dict pyval + list (dict pyval))) : Prop :=
  match qp with
  | None => v = VNone
  | Some (inl d) => rep_dict_ref h v d
  | Some (inr ds) =>
      exists l vs, v = VRef l /\ nth_error h l = Some (OList vs)
                   /\ Forall2 (rep_dict_ref h) vs ds
  end.

Definition rep_argument (h : store) (data : value) (arg : argument) : Prop :=
  match arg with
  | AQueryData d =>
      exists l qp tp,
        data = VRef l
        /\ nth_error h l = Some (OQueryData (VStr d.(query)) qp tp)
        /\ rep_query_params h qp d.(query_params)
        /\ rep_template_params h tp d.(template_params)
  | AOther p => rep h data p
  end.

(** What a handler returns, read in the store [st]. *)
Definition rep_result (h st : store) (r : string * value) (pr : handler_result) : Prop :=
  fst r = fst pr
  /\ match snd pr with
     | None => snd r = VNone
     | Some d => exists l e, snd r = VRef l /\ nth_error st l = Some (ODict e)
                             /\ rep_dict h e d
     end.

(** The handlers of the two renditions, by name. *)
Definition paired (f : Store.handler) (pf : Templates.handler) : Prop :=
  (f = Store.in_column /\ pf = Templates.in_column)
  \/ (f = Store.not_in_column /\ pf = Templates.not_in_column)
  \/ (f = Store.values /\ pf = Templates.values).

(** [s] is [h] followed by further objects. *)
Definition extends (h s : store) : Prop := exists t, s = h ++ t.

End Refinement.

(* ===================================================================== *)
(** * The row-folding mapper *)
(* ===================================================================== *)

(** The mapper classes ([RecordCombiningMapper], [SingleRowMapper],
    [DbMapResultModel]) are used by [dysql/test/test_pydantic_mappers.py]
    but defined elsewhere; the definitions below follow section 4.4 of the
    specification and the behaviour the tests record. *)

Module Mapper.

(** Modelled from the spec: the values a result row holds in a column. *)
Inductive scalar : Type :=
| SNone
| SBool (b : bool)
| SInt (z : Z)
| SStr (s : string).

Definition scalar_eq_dec (a b : scalar) : {a = b} + {a <> b}.
Proof.
  decide equality; [apply bool_dec | apply Z.eq_dec | apply string_dec].
Defined.

(** Modelled from the spec: a raw row, column name to scalar. *)
Definition raw_row : Type := dict scalar.

(** Modelled from the spec: the values of the identity fields of a row. *)
Definition identity : Type := list (option scalar).

Definition identity_eq_dec (a b : identity) : {a = b} + {a <> b}.
Proof.
  apply list_eq_dec. intros x y.
  decide equality. apply scalar_eq_dec.
Defined.

(** Modelled from the spec: the element types the test models declare for
    their CSV-list fields ([List[str]], [List[int]]). *)
Inductive element_type : Type := EStr | EInt.

(** Modelled from the spec: the directives of a typed-record model, as the
    private attributes [_list_fields], [_set_fields], [_csv_list_fields],
    [_dict_key_fields] and [_dict_value_mappings] of the test models give
    them. *)
Record schema : Type := mkSchema {
  identity_fields : list string;
  scalar_fields : list string;
  list_fields : list string;
  set_fields : list string;
  csv_list_fields : list (string * element_type);
  (* directive name, key-source column, value-source column *)
  dict_fields : list (string * (string * string))
}.

(** Modelled from the spec: a record being accumulated; sets and dicts are
    kept as duplicate-free lists in insertion order. *)
Record folded : Type := mkFolded {
  scalars : dict scalar;
  lists : dict (list scalar);
  sets : dict (list scalar);
  dicts : dict (list (scalar * scalar))
}.

Fixpoint mapM {A B : Type} (f : A -> option B) (l : list A) : option (list B) :=
  match l with
  | [] => Some []
  | a :: l' =>
      match f a with
      | Some b =>
          match mapM f l' with
          | Some bs => Some (b :: bs)
          | None => None
          end
      | None => None
      end
  end.

Fixpoint foldM {A B : Type} (f : A -> B -> option A) (l : list B) (a : A) : option A :=
  match l with
  | [] => Some a
  | b :: l' =>
      match f a b with
      | Some a' => foldM f l' a'
      | None => None
      end
  end.

(** Modelled from the spec: the value a row holds for a column, if it holds
    one that is not null. *)
Definition column (row : raw_row) (c : string) : option scalar :=
  match dict_get row c with
  | Some SNone | None => None
  | Some v => Some v
  end.

(** Modelled from the spec: the identity of a row. *)
Definition row_identity (sch : schema) (row : raw_row) : identity :=
  map (dict_get row) sch.(identity_fields).

(** Modelled from the spec: the partition of the rows by identity, the
    class [RecordCombiningMapper] being absent; groups are kept in the order
    in which their identities are first seen, rows in row order. *)
Fixpoint add_to_group (id : identity) (row : raw_row)
    (groups : list (identity * list raw_row)) : list (identity * list raw_row) :=
  match groups with
  | [] => [(id, [row])]
  | (id', rows) :: groups' =>
      if identity_eq_dec id' id then (id', (rows ++ [row])%list) :: groups'
      else (id', rows) :: add_to_group id row groups'
  end.

(** Modelled from the spec: the rows grouped by identity. *)
Definition partition_rows (sch : schema) (rows : list raw_row)
  : list (identity * list raw_row) :=
  fold_left (fun groups row => add_to_group (row_identity sch row) row groups) rows [].

Section Folding.

(** The typed-record collaborator: coercion of a CSV token to the declared
    element type, and of the raw value of a scalar field. *)
Variable coerce_element : element_type -> string -> option scalar.
Variable coerce_scalar : string -> scalar -> option scalar.

(** Modelled from the spec: append [xs] to the list held under [field]. *)
Definition extend (field : string) (xs : list scalar) (ls : dict (list scalar))
  : dict (list scalar) :=
  dict_set ls field
           (match dict_get ls field with
            | Some old => (old ++ xs)%list
            | None => xs
            end).

(** Modelled from the spec: what one row contributes to a CSV-list field,
    the tokens of the source column split on [','], each coerced. *)
Definition csv_elements (ty : element_type) (row : raw_row) (field : string)
  : option (list scalar) :=
  match column row field with
  | None => Some []
  | Some (SStr s) => mapM (coerce_element ty) (split_go "," 0 "" s)
  | Some _ => None
  end.

(** Modelled from the spec: what one row contributes to a list field, its
    raw value. *)
Definition list_elements (row : raw_row) (field : string) : list scalar :=
  match column row field with
  | Some v => [v]
  | None => []
  end.

(** Modelled from the spec: insertion into a set field. *)
Definition set_insert (x : scalar) (s : list scalar) : list scalar :=
  if in_dec scalar_eq_dec x s then s else (s ++ [x])%list.

(** Modelled from the spec: assignment in a dict field, the last value for
    a key wins. *)
Fixpoint assoc_set (d : list (scalar * scalar)) (k v : scalar) : list (scalar * scalar) :=
  match d with
  | [] => [(k, v)]
  | (k', v') :: d' =>
      if scalar_eq_dec k' k then (k', v) :: d' else (k', v') :: assoc_set d' k v
  end.

(** Modelled from the spec: a CSV-list directive applied to one row. *)
Definition fold_csv (row : raw_row) (ls : dict (list scalar))
    (directive : string * element_type) : option (dict (list scalar)) :=
  match csv_elements (snd directive) row (fst directive) with
  | Some xs => Some (extend (fst directive) xs ls)
  | None => None
  end.

(** Modelled from the spec: a list directive applied to one row. *)
Definition fold_list (row : raw_row) (ls : dict (list scalar)) (field : string)
  : dict (list scalar) :=
  extend field (list_elements row field) ls.

(** Modelled from the spec: a set directive applied to one row. *)
Definition fold_set (row : raw_row) (ss : dict (list scalar)) (field : string)
  : dict (list scalar) :=
  match column row field with
  | Some v =>
      dict_set ss field
               (set_insert v (match dict_get ss field with Some s => s | None => [] end))
  | None => ss
  end.

(** Modelled from the spec: a dict directive applied to one row; a row whose
    key column is null or absent adds nothing. *)
Definition fold_dict (row : raw_row) (ds : dict (list (scalar * scalar)))
    (directive : string * (string * string)) : dict (list (scalar * scalar)) :=
  let '(name, (key_column, value_column)) := directive in
  match column row key_column with
  | Some k =>
      let v := match dict_get row value_column with Some v => v | None => SNone end in
      dict_set ds name
               (assoc_set (match dict_get ds name with Some d => d | None => [] end) k v)
  | None => ds
  end.

(** Modelled from the spec: step 2 of folding, what one row adds to the
    record being accumulated; CSV-list fields, list fields, set fields and
    dict directives in that order. *)
Definition fold_row (sch : schema) (rec : folded) (row : raw_row) : option folded :=
  match foldM (fold_csv row) sch.(csv_list_fields) rec.(lists) with
  | Some ls =>
      Some {| scalars := rec.(scalars);
              lists := fold_left (fold_list row) sch.(list_fields) ls;
              sets := fold_left (fold_set row) sch.(set_fields) rec.(sets);
              dicts := fold_left (fold_dict row) sch.(dict_fields) rec.(dicts) |}
  | None => None
  end.

(** Modelled from the spec: the binding of one scalar field, coerced. *)
Definition scalar_binding (row : raw_row) (field : string) : option (list (string * scalar)) :=
  match dict_get row field with
  | Some v =>
      match coerce_scalar field v with
      | Some v' => Some [(field, v')]
      | None => None
      end
  | None => Some []
  end.

(** Modelled from the spec: every directive field starts empty. *)
Definition empty_containers {V : Type} (fields : list string) : dict (list V) :=
  fold_left (fun d f => dict_set d f []) fields [].

(** Modelled from the spec: step 1 of folding, the record built on the first
    row of a partition: scalar fields from the matching columns, every
    directive field empty. *)
Definition init_record (sch : schema) (row : raw_row) : option folded :=
  match mapM (scalar_binding row) sch.(scalar_fields) with
  | Some bs =>
      Some {| scalars := concat bs;
              lists := empty_containers (map fst sch.(csv_list_fields) ++ sch.(list_fields))%list;
              sets := empty_containers sch.(set_fields);
              dicts := empty_containers (map fst sch.(dict_fields)) |}
  | None => None
  end.

(** Modelled from the spec: the fold of one partition; a coercion failure
    fails the whole fold. *)
Definition fold_partition (sch : schema) (rows : list raw_row) : option folded :=
  match rows with
  | [] => None
  | first :: _ =>
      match init_record sch first with
      | Some rec => foldM (fold_row sch) rows rec
      | None => None
      end
  end.

(** Modelled from the spec: [RecordCombiningMapper.map_records], the class
    being absent: partition the rows by identity, fold each partition on its
    own, return the records in the order of the partitions. *)
Definition map_records (sch : schema) (rows : list raw_row) : option (list folded) :=
  mapM (fold_partition sch) (map snd (partition_rows sch rows)).

End Folding.

(** Identities in the order in which they are first seen. *)
Definition first_seen (ids : list identity) : list identity :=
  fold_left (fun acc id => if in_dec identity_eq_dec id acc then acc else (acc ++ [id])%list)
            ids [].

(** Every set held in [ss] is free of duplicates. *)
Definition sets_nodup (ss : dict (list scalar)) : Prop :=
  forall f s, dict_get ss f = Some s -> NoDup s.

Definition has_identity (sch : schema) (id : identity) (row : raw_row) : bool :=
  if identity_eq_dec (row_identity sch row) id then true else false.

(** A collaborator for the examples: strings as they are, integers from
    plain decimal numerals. *)
Definition plain_element (ty : element_type) (tok : string) : option scalar :=
  match ty with
  | EStr => Some (SStr tok)
  | EInt =>
      match tok with
      | EmptyString => None
      | String _ _ =>
          match NilEmpty.uint_of_string tok with
          | Some d => Some (SInt (Z.of_nat (Nat.of_uint d)))
          | None => None
          end
      end
  end.

Definition plain_scalar (field : string) (v : scalar) : option scalar := Some v.

(** [ListWithStringsModel] and [CombiningDbModel] of the test module. *)
Definition ListWithStringsModel : schema :=
  {| identity_fields := ["id"]; scalar_fields := ["id"];
     list_fields := []; set_fields := [];
     csv_list_fields := [("list1", EStr); ("list2", EInt)];
     dict_fields := [] |}.

Definition CombiningDbModel : schema :=
  {| identity_fields := ["id"]; scalar_fields := ["id"];
     list_fields := ["list1"]; set_fields := ["set1"];
     csv_list_fields := [];
     dict_fields := [("dict1", ("key1", "val1")); ("dict2", ("key2", "val2"))] |}.

Definition duplicate_rows : list raw_row :=
  [ [("id", SInt 1); ("list1", SStr "a,b,c,d"); ("list2", SStr "1,2,3,4")];
    [("id", SInt 1); ("list1", SStr "a,b,c,d"); ("list2", SStr "1,2,3,4")] ].

Definition combining_rows : list raw_row :=
  [ [("id", SInt 1); ("list1", SStr "val1"); ("set1", SStr "val2");
     ("key1", SStr "k1"); ("val1", SStr "v1"); ("key2", SStr "k3"); ("val2", SInt 3)];
    [("id", SInt 2); ("list1", SStr "val1")];
    [("id", SInt 1); ("list1", SStr "val3"); ("set1", SStr "val4");
     ("key1", SStr "k2"); ("val1", SStr "v2"); ("key2", SStr "k4"); ("val2", SInt 4)] ].

End Mapper.

(* ===================================================================== *)
(** * Auxiliary notions used to state the properties *)
(* ===================================================================== *)

(** The canonical keys of the placeholders of a query text, one per match,
    as the validation loop derives them. *)
Definition placeholder_keys (query : string) : list string :=
  map key_of_groups (Re.findall LIST_TEMPLATE_REGEX LIST_TEMPLATE_GROUPS query).

(** [pat] occurs somewhere in [s]. *)
Fixpoint occurs (pat s : string) : bool :=
  prefix pat s ||
  match s with
  | EmptyString => false
  | String _ s' => occurs pat s'
  end.

(** Keep the first occurrence of every element. *)
Fixpoint dedup (l : list string) : list string :=
  match l with
  | [] => []
  | x :: l' => x :: filter (fun y => negb (String.eqb x y)) (dedup l')
  end.

(** Two mappings hold the same bindings, whatever the insertion order. *)
Definition dict_equiv (d1 d2 : dict pyval) : Prop :=
  forall k, dict_get d1 k = dict_get d2 k.

(** The binding names [_parameterize_list] assigns, in the order of the
    assignments [param_values[...] = value], one per position. *)
Fixpoint list_loop_names (key : string) (values : pyval) (items : list pyval)
    (index : nat) (names : list string) : list string :=
  match items with
  | [] => names
  | value :: items' =>
      if isinstance_tuple value || startswith key "values" then
        list_loop_names key values items' (S index)
          (names ++ snd (Templates.inner_locals (key ++ "_" ++ str index) value))%list
      else snd (Templates.inner_locals key values)
  end.

Definition binding_names (key : string) (values : pyval) : list string :=
  let values := if isinstance_str values then PTuple [values] else values in
  match iter values with
  | Ok items => list_loop_names key values items 0 []
  | Raise _ => []
  end.

(** The names assigned by the handler call made for one validated key. *)
Definition call_names (template_params : option (dict pyval)) (key : string)
  : list string :=
  match subscript template_params key with
  | Ok v => if truthy v then binding_names key v else []
  | Raise _ => []
  end.

Definition generated_names (data : QueryData) : list string :=
  flat_map (call_names data.(template_params))
           (dedup (placeholder_keys data.(query))).

(** Every character of [s] satisfies [p]. *)
Fixpoint sall (p : ascii -> bool) (s : string) : bool :=
  match s with
  | EmptyString => true
  | String c s' => p c && sall p s'
  end.

Definition digit_class (c : ascii) : bool :=
  let n := nat_of_ascii c in ((48 <=? n) && (n <=? 57))%nat.

(** The characters a canonical key is made of: [[A-Za-z_]] and the dot. *)
Definition key_class (c : ascii) : bool := ident_class c || Ascii.eqb c ".".

(** The characters of a generated name. *)
Definition name_class (c : ascii) : bool := key_class c || digit_class c.

Definition not_digit (c : ascii) : bool := negb (digit_class c).

(** [s] with every dot turned into an underscore, character by character. *)
Fixpoint undot (s : string) : string :=
  match s with
  | EmptyString => EmptyString
  | String c s' => String (if Ascii.eqb c "." then "_"%char else c) (undot s')
  end.

(** A declarative reading of the patterns: [matches_at r caps s caps' rest]
    holds when [r] can match a prefix of [s], leaving [rest] and turning the
    captures [caps] into [caps']. *)
Inductive matches_at : Re.regex -> Re.captures -> string -> Re.captures -> string -> Prop :=
| M_Lit l caps rest :
    matches_at (Re.Lit l) caps (l ++ rest) caps rest
| M_Plus cls caps c t rest :
    sall cls (String c t) = true ->
    matches_at (Re.Plus cls) caps (String c t ++ rest) caps rest
| M_Seq r1 r2 caps s caps1 s1 caps2 s2 :
    matches_at r1 caps s caps1 s1 ->
    matches_at r2 caps1 s1 caps2 s2 ->
    matches_at (Re.Seq r1 r2) caps s caps2 s2
| M_AltL r1 r2 caps s caps' rest :
    matches_at r1 caps s caps' rest ->
    matches_at (Re.Alt r1 r2) caps s caps' rest
| M_AltR r1 r2 caps s caps' rest :
    matches_at r2 caps s caps' rest ->
    matches_at (Re.Alt r1 r2) caps s caps' rest
| M_OptSome r caps s caps' rest :
    matches_at r caps s caps' rest ->
    matches_at (Re.Opt r) caps s caps' rest
| M_OptNone r caps s :
    matches_at (Re.Opt r) caps s caps s
| M_Group n r caps t rest caps' :
    matches_at r caps (t ++ rest) caps' rest ->
    matches_at (Re.Group n r) caps (t ++ rest) ((n, t) :: caps') rest.

(** The names of the element at index [i] of the loop of
    [_parameterize_list], when the element is expanded on its own. *)
Definition element_names (key : string) (iv : nat * pyval) : list string :=
  snd (Templates.inner_locals (key ++ "_" ++ str (fst iv)) (snd iv)).

(** The three shapes of a name generated under [key]: the element index
    after the key with its dots replaced, the same after the key as it is
    (an element of a values template that is not itself a sequence), or the
    element index and the position inside the element. *)
Definition generated_from (key n : string) : Prop :=
  exists i, n = undot key ++ "_" ++ str i
            \/ n = key ++ "_" ++ str i
            \/ exists j, n = (undot key ++ "_" ++ str i) ++ "_" ++ str j.

Definition dotted : QueryData :=
  mkQueryData "SELECT * FROM a WHERE {in__a.b} AND {in__a_b}" None
              (Some [("in__a.b", PList [PInt 1]); ("in__a_b", PList [PInt 2])]).

Definition not_space (c : ascii) : bool := negb (Ascii.eqb c " ").

Definition not_open_brace (c : ascii) : bool := negb (Ascii.eqb c "{").

(** The token that stands for [key] in a query text. *)
Definition token (key : string) : string := "{" ++ key ++ "}".

(** The bindings after the handler's are merged in: [if param_dict:
    params.update(param_dict)]. *)
Definition merged (params : dict pyval) (param_dict : option (dict pyval)) : dict pyval :=
  match param_dict with
  | Some d => dict_update params d
  | None => params
  end.

Definition repeated_empty_values : QueryData :=
  mkQueryData "INSERT INTO t {values__a} ON CONFLICT {values__a}" None
              (Some [("values__a", PList [])]).

Definition repeated_in : QueryData :=
  mkQueryData "SELECT * FROM t WHERE a {in__a} OR b {in__a}" None
              (Some [("in__a", PList [PInt 7; PInt 8])]).

Ltac inv H := inversion H; subst; clear H.

Definition two_missing : QueryData :=
  mkQueryData "SELECT * FROM t WHERE a {in__a} AND b {in__b}" None (Some []).

Definition empty_values : QueryData :=
  mkQueryData "INSERT INTO t {values__a}" None (Some [("values__a", PList [])]).

Definition clash : QueryData :=
  mkQueryData "SELECT * FROM t WHERE x {in__x}"
              (Some (inl [("in__x_0", PInt 99)]))
              (Some [("in__x", PList [PInt 1])]).

Definition example_in_x : QueryData :=
  mkQueryData "SELECT * FROM t WHERE x {in__x}" None
              (Some [("in__x", PList [PInt 1; PInt 2])]).

(** The one name bound for a lone string under base key [key]. *)
Definition lone_name (key : string) : string :=
  (if startswith key "values" then key else replace key "." "_") ++ "_0".


(** ** Notions used to state the further properties *)

(** [template_params] holds a value other than [None] under [key]. *)
Definition key_present (template_params : option (dict pyval)) (key : string) : bool :=
  match template_params with
  | None => false
  | Some tp => negb (get_is_none tp key)
  end.

(** The three template keywords. *)
Definition keyword (kw : string) : Prop :=
  kw = "in" \/ kw = "not_in" \/ kw = "values".

(** The names [_parameterize_inner_list] gives to the [n] elements of a
    list or tuple expanded under [key]. *)
Definition indexed_names (key : string) (n : nat) : list string :=
  map (fun i => replace key "." "_" ++ "_" ++ str i) (seq 0 n).

Definition double_underscore : QueryData :=
  mkQueryData "SELECT * FROM t WHERE {in__first__name}" None
              (Some [("in__first__name", PList [PInt 1])]).

(** The elements of [l] with their indices, as [enumerate(l)] yields them. *)
Definition enumerated {A : Type} (l : list A) : list (nat * A) :=
  combine (seq 0 (List.length l)) l.

(** The names given to the elements of the tuple at index [i] of a list
    expanded under [key], and the group that lists them. *)
Definition row_names (key : string) (ir : nat * list pyval) : list string :=
  indexed_names (key ++ "_" ++ str (fst ir)) (List.length (snd ir)).

Definition row_group (key : string) (ir : nat * list pyval) : string :=
  "( :" ++ join ", :" (row_names key ir) ++ " )".

Definition row_bindings (key : string) (ir : nat * list pyval) : dict pyval :=
  combine (row_names key ir) (snd ir).

(** The values [iter] rejects. *)
Definition not_iterable (v : pyval) : bool :=
  match v with
  | PNone | PBool _ | PInt _ => true
  | _ => false
  end.

(** The names [params.update(query_params)] binds: the keys of a mapping,
    the first key of every element of a list of mappings. *)
Definition direct_names (query_params : option (dict pyval + list (dict pyval)))
  : list string :=
  match query_params with
  | None => []
  | Some (inl d) => dict_keys d
  | Some (inr l) => map (fun e => hd "" (dict_keys e)) l
  end.

Definition truthy_number : QueryData :=
  mkQueryData "SELECT * FROM t WHERE x {in__x}" None (Some [("in__x", PInt 5)]).

(** The example of a list of objects in the docstring of [QueryData]. *)
Definition list_of_objects : QueryData :=
  mkQueryData "SELECT * FROM table WHERE value_a=:value_a and value_b=:value_b"
              (Some (inr [[("value_a", PInt 1); ("value_b", PStr "b")];
                          [("value_a", PInt 1); ("value_b", PStr "b")]]))
              None.

Definition list_of_singletons : QueryData :=
  mkQueryData "SELECT * FROM table WHERE value_a=:value_a"
              (Some (inr [[("value_a", PInt 1)]])) None.

Definition with_limit : QueryData :=
  mkQueryData "SELECT * FROM t WHERE x {in__x} LIMIT :limit"
              (Some (inl [("limit", PInt 10)]))
              (Some [("in__x", PList [PInt 1])]).

(** [s] without its spaces. *)
Fixpoint unspace (s : string) : string :=
  match s with
  | EmptyString => EmptyString
  | String c s' => if Ascii.eqb c " " then unspace s' else String c (unspace s')
  end.

Definition spaced : string := "SELECT * FROM t WHERE x   {in__x}  AND y = :y".

(** A key as the pattern reads it between braces: a keyword, the double
    underscore, an optional table name followed by a dot, a column name;
    names are made of letters and underscores. *)
Definition well_formed_key (key : string) : Prop :=
  exists kw tbl col,
    key = kw ++ "__" ++ tbl ++ col
    /\ keyword kw
    /\ (tbl = "" \/ exists t, tbl = t ++ "." /\ t <> "" /\ sall ident_class t = true)
    /\ col <> "" /\ sall ident_class col = true.

Definition not_close_brace (c : ascii) : bool := negb (Ascii.eqb c "}").

(** A placeholder as a match of the pattern takes it, with the spaces
    around it, and as validation leaves it. *)
Definition padded_token (lead key trail : string) : string :=
  lead ++ String "{" (key ++ String "}" trail).

Definition bare_token (key : string) : string := String "{" (key ++ "}").

(** The names a values template gives to elements that are not sequences:
    the key as it is, then the index. *)
Definition plain_names (key : string) (n : nat) : list string :=
  map (fun i => key ++ "_" ++ str i) (seq 0 n).

(** [template_params.get(key)], [None] standing for an absent mapping too. *)
Definition lookup (template_params : option (dict pyval)) (key : string) : option pyval :=
  match template_params with
  | None => None
  | Some tp => dict_get tp key
  end.

Definition example_in_x_and_more : QueryData :=
  mkQueryData "SELECT * FROM t WHERE x {in__x}" None
              (Some [("in__y", PInt 3); ("in__x", PList [PInt 1; PInt 2])]).

(* ===================================================================== *)
(** * Facts about strings *)
(* ===================================================================== *)

Lemma sapp_nil_r (s : string) : s ++ "" = s.
Proof. induction s; simpl; congruence. Qed.

Lemma sapp_assoc (a b c : string) : (a ++ b) ++ c = a ++ b ++ c.
Proof. induction a; simpl; congruence. Qed.

Lemma slength_app (a b : string) :
  String.length (a ++ b) = String.length a + String.length b.
Proof. induction a; simpl; congruence. Qed.

Lemma sapp_inv_head (a b c : string) : a ++ b = a ++ c -> b = c.
Proof. induction a; simpl; intros H; [assumption | injection H; auto]. Qed.

Lemma sapp_eq_app (a b c d : string) :
  a ++ b = c ++ d ->
  exists l, (a = c ++ l /\ d = l ++ b) \/ (c = a ++ l /\ b = l ++ d).
Proof.
  revert c. induction a as [|x a IH]; intros c H; simpl in H.
  - exists c. right. auto.
  - destruct c as [|y c]; simpl in H.
    + exists (String x a). left. auto.
    + injection H as -> H. apply IH in H. destruct H as [l [[-> ->] | [-> ->]]];
        exists l; [left | right]; auto.
Qed.

Lemma sall_app p (a b : string) : sall p (a ++ b) = sall p a && sall p b.
Proof. induction a; simpl; [reflexivity | rewrite IHa; apply andb_assoc]. Qed.

Lemma sall_impl (p q : ascii -> bool) (s : string) :
  (forall c, p c = true -> q c = true) -> sall p s = true -> sall q s = true.
Proof.
  intros Hpq. induction s; simpl; [reflexivity |].
  intros H. apply andb_prop in H as [H1 H2]. rewrite Hpq, IHs; auto.
Qed.

Lemma prefix_nil (s : string) : prefix "" s = true.
Proof. destruct s; reflexivity. Qed.

Lemma prefix_cons (a c : ascii) (p s : string) :
  prefix (String a p) (String c s) = Ascii.eqb a c && prefix p s.
Proof.
  simpl. destruct (ascii_dec a c) as [->|Hne].
  - now rewrite Ascii.eqb_refl.
  - apply Ascii.eqb_neq in Hne. now rewrite Hne.
Qed.

#[local] Arguments prefix : simpl never.

Lemma prefix_app (p r : string) : prefix p (p ++ r) = true.
Proof.
  induction p; simpl; [apply prefix_nil |].
  rewrite prefix_cons, Ascii.eqb_refl. assumption.
Qed.

Lemma prefix_inv (p s : string) :
  prefix p s = true -> s = p ++ Re.drop (String.length p) s.
Proof.
  revert s. induction p as [|c p IH]; intros s H; simpl.
  - destruct s; reflexivity.
  - destruct s as [|c' s]; [discriminate |].
    rewrite prefix_cons in H. apply andb_prop in H as [Hc H].
    apply Ascii.eqb_eq in Hc. subst c'. simpl. f_equal. auto.
Qed.

Lemma prefix_iff (p s : string) : prefix p s = true <-> exists r, s = p ++ r.
Proof.
  split.
  - intros H. eexists. apply prefix_inv, H.
  - intros [r ->]. apply prefix_app.
Qed.

Lemma take_app_length (t rest : string) :
  Re.take (String.length (t ++ rest) - String.length rest) (t ++ rest) = t.
Proof.
  rewrite slength_app. replace (_ + _ - _) with (String.length t) by lia.
  induction t; simpl; [destruct rest; reflexivity | congruence].
Qed.

(** *** Decimal numerals *)

Lemma string_of_uint_digits (d : uint) :
  sall digit_class (NilEmpty.string_of_uint d) = true.
Proof. induction d; simpl; auto. Qed.

Lemma str_digits (n : nat) : sall digit_class (str n) = true.
Proof. apply string_of_uint_digits. Qed.

Lemma str_nonempty (n : nat) : str n <> "".
Proof.
  unfold str. pose proof (unorm_nonnil (Nat.to_uint n)) as H.
  rewrite <- Unsigned.to_of, Unsigned.of_to in H.
  destruct (Nat.to_uint n); simpl; congruence.
Qed.

Lemma str_inj (n m : nat) : str n = str m -> n = m.
Proof.
  unfold str. intros H. apply Unsigned.to_uint_inj.
  pose proof (NilEmpty.usu (Nat.to_uint n)) as Hn.
  pose proof (NilEmpty.usu (Nat.to_uint m)) as Hm.
  rewrite H in Hn. congruence.
Qed.

(** A numeral suffix after an underscore can be read back: the text before
    the last underscore and the numeral are both determined. *)
Lemma index_suffix_inj (a b d e : string) :
  sall digit_class d = true -> sall digit_class e = true ->
  a ++ "_" ++ d = b ++ "_" ++ e -> a = b /\ d = e.
Proof.
  intros Hd He. revert b. induction a as [|x a IH]; intros b H.
  - destruct b as [|y b]; simpl in H.
    + injection H as H. auto.
    + injection H as <- H. subst d.
      rewrite sall_app in Hd. simpl in Hd.
      apply andb_prop in Hd as [_ Hd]. discriminate.
  - destruct b as [|y b]; simpl in H.
    + injection H as -> H. subst e.
      rewrite sall_app in He. simpl in He.
      apply andb_prop in He as [_ He]. discriminate.
    + injection H as -> H. apply IH in H as [-> ->]. auto.
Qed.

(** A text without digits does not end in a numeral. *)
Lemma no_digit_suffix (a b d : string) :
  sall not_digit a = true -> sall digit_class d = true -> d <> "" ->
  a <> b ++ "_" ++ d.
Proof.
  intros Ha Hd Hne ->. rewrite !sall_app in Ha.
  apply andb_prop in Ha as [_ Ha]. apply andb_prop in Ha as [_ Ha].
  destruct d as [|c d]; [contradiction |].
  simpl in Ha, Hd. unfold not_digit in Ha.
  apply andb_prop in Hd as [Hd _]. rewrite Hd in Ha. discriminate.
Qed.

(** *** Replacing the dots *)

Lemma replace_dots (s : string) : replace s "." "_" = undot s.
Proof.
  unfold replace. induction s as [|c s IH]; simpl; [reflexivity |].
  rewrite prefix_cons, prefix_nil, andb_true_r, Ascii.eqb_sym, IH.
  destruct (Ascii.eqb c "."); reflexivity.
Qed.

Lemma undot_app (a b : string) : undot (a ++ b) = undot a ++ undot b.
Proof. induction a; simpl; congruence. Qed.

Lemma undot_fixed (s : string) :
  sall (fun c => negb (Ascii.eqb c ".")) s = true -> undot s = s.
Proof.
  induction s as [|c s IH]; simpl; [reflexivity |].
  intros H. apply andb_prop in H as [H1 H2].
  destruct (Ascii.eqb c "."); [discriminate |]. now rewrite IH.
Qed.

Lemma undot_digits (d : string) : sall digit_class d = true -> undot d = d.
Proof.
  intros H. apply undot_fixed. revert H. apply sall_impl.
  intros c Hc. destruct (Ascii.eqb_spec c "."); [subst; discriminate | reflexivity].
Qed.

Lemma undot_sall p (s : string) :
  p "_"%char = true -> sall p s = true -> sall p (undot s) = true.
Proof.
  intros Hp. induction s as [|c s IH]; simpl; [reflexivity |].
  intros H. apply andb_prop in H as [H1 H2].
  destruct (Ascii.eqb c "."); rewrite ?Hp, ?H1, IH; auto.
Qed.

(* ===================================================================== *)
(** * Replacement and occurrences *)
(* ===================================================================== *)

Lemma occurs_cons pat c s :
  occurs pat (String c s) = prefix pat (String c s) || occurs pat s.
Proof. reflexivity. Qed.

Lemma occurs_drop pat : forall n s, occurs pat (Re.drop n s) = true -> occurs pat s = true.
Proof.
  induction n as [|n IH]; intros s H; [destruct s; exact H |].
  destruct s as [|c s]; [exact H |].
  rewrite occurs_cons. simpl in H. rewrite (IH _ H). apply orb_true_r.
Qed.

Section Replace.
Variables (old new pat : string).
Hypothesis old_nonempty : old <> "".
Hypothesis new_space : exists m, new = String " " m.
Hypothesis new_no_brace : sall not_open_brace new = true.
Hypothesis pat_brace : exists p, pat = String "{" p.
Hypothesis pat_no_space : sall not_space pat = true.

(** A text without spaces that starts the result started the original. *)
Lemma prefix_replace_go : forall s p,
  sall not_space p = true ->
  prefix p (replace_go old new 0 s) = true -> prefix p s = true.
Proof.
  destruct new_space as [m Hnew].
  induction s as [|c s IH]; intros p Hp H; [exact H |].
  cbn [replace_go] in H.
  destruct p as [|x p]; [apply prefix_nil |].
  simpl in Hp. apply andb_prop in Hp as [Hx Hp].
  destruct (prefix old (String c s)).
  - rewrite Hnew in H. simpl in H. rewrite prefix_cons in H.
    apply andb_prop in H as [H _]. apply Ascii.eqb_eq in H. subst x. discriminate.
  - rewrite prefix_cons in *. apply andb_prop in H as [-> H].
    simpl. auto.
Qed.

(** No occurrence of [pat] starts inside an inserted [new]. *)
Lemma occurs_after_new : forall a r,
  sall not_open_brace a = true ->
  occurs pat (a ++ r) = true -> occurs pat r = true.
Proof.
  destruct pat_brace as [p Hpat].
  induction a as [|c a IH]; intros r Ha H; [exact H |].
  simpl in Ha. apply andb_prop in Ha as [Hc Ha].
  change (String c a ++ r) with (String c (a ++ r)) in H.
  rewrite occurs_cons in H. apply orb_prop in H. destruct H as [H | H]; [| auto].
  rewrite Hpat, prefix_cons in H. apply andb_prop in H as [H _].
  apply Ascii.eqb_eq in H. subst c. discriminate.
Qed.

(** Replacing creates no occurrence of [pat]. *)
Lemma occurs_replace_go : forall s skip,
  occurs pat (replace_go old new skip s) = true ->
  occurs pat (Re.drop skip s) = true.
Proof.
  induction s as [|c s IH]; intros skip H.
  - destruct skip; exact H.
  - destruct skip as [|k]; cbn [replace_go] in H.
    + cbn [Re.drop]. rewrite occurs_cons.
      destruct (prefix old (String c s)) eqn:Hold.
      * apply occurs_after_new in H; [| exact new_no_brace].
        apply IH, occurs_drop in H. rewrite H. apply orb_true_r.
      * rewrite occurs_cons in H. apply orb_prop in H. destruct H as [H | H].
        -- assert (Hstep : replace_go old new 0 (String c s)
                            = String c (replace_go old new 0 s))
             by (cbn [replace_go]; now rewrite Hold).
           rewrite <- Hstep in H.
           apply (prefix_replace_go (String c s) pat pat_no_space) in H.
           now rewrite H.
        -- apply (IH 0) in H. cbn [Re.drop] in H. rewrite H. apply orb_true_r.
    + cbn [Re.drop]. apply IH, H.
Qed.

End Replace.

Section ReplaceSelf.
Variables (old new : string).
Hypothesis new_space : exists m, new = String " " m.
Hypothesis new_no_brace : sall not_open_brace new = true.
Hypothesis old_brace : exists p, old = String "{" p.
Hypothesis old_no_space : sall not_space old = true.

(** After the replacement, nothing of [old] is left. *)
Lemma replace_go_clears : forall s skip,
  occurs old (replace_go old new skip s) = false.
Proof.
  induction s as [|c s IH]; intros skip.
  - destruct old_brace as [p ->]. destruct skip; reflexivity.
  - destruct skip as [|k]; cbn [replace_go]; [| apply IH].
    destruct (prefix old (String c s)) eqn:Hold.
    + destruct (occurs old (new ++ replace_go old new (String.length old - 1) s)) eqn:E;
        [| reflexivity].
      apply (occurs_after_new old old_brace) in E; [| exact new_no_brace].
      now rewrite IH in E.
    + rewrite occurs_cons, IH, orb_false_r.
      destruct (prefix old (String c (replace_go old new 0 s))) eqn:E; [| reflexivity].
      assert (Hstep : replace_go old new 0 (String c s)
                      = String c (replace_go old new 0 s))
        by (cbn [replace_go]; now rewrite Hold).
      rewrite <- Hstep in E.
      apply (prefix_replace_go old new new_space (String c s) old old_no_space) in E.
      congruence.
Qed.

End ReplaceSelf.

(** Where [old] does not occur, the replacement changes nothing. *)
Lemma replace_go_absent old new : forall s,
  occurs old s = false -> replace_go old new 0 s = s.
Proof.
  induction s as [|c s IH]; intros H; [reflexivity |].
  rewrite occurs_cons in H. apply orb_false_elim in H as [H1 H2].
  cbn [replace_go]. rewrite H1, IH; auto.
Qed.

Lemma token_shape key :
  sall key_class key = true ->
  (exists p, token key = String "{" p) /\ sall not_space (token key) = true
  /\ token key <> "".
Proof.
  intros Hk. unfold token. split; [eexists; reflexivity |]. split; [| discriminate].
  simpl. rewrite sall_app. simpl. rewrite andb_true_r.
  revert Hk. apply sall_impl. intros c Hc.
  unfold not_space. destruct (Ascii.eqb_spec c " ") as [-> | _]; [discriminate | reflexivity].
Qed.

Lemma replace_token s key new :
  replace s (token key) new = replace_go (token key) new 0 s.
Proof. reflexivity. Qed.

(* ===================================================================== *)
(** * The matcher is sound for the declarative reading *)
(* ===================================================================== *)

Lemma sapp_inv_tail (a b c : string) : a ++ c = b ++ c -> a = b.
Proof.
  revert b. induction a as [|x a IH]; intros b H.
  - destruct b as [|y b]; [reflexivity |].
    apply (f_equal String.length) in H. simpl in H. rewrite slength_app in H. lia.
  - destruct b as [|y b].
    + apply (f_equal String.length) in H. simpl in H. rewrite slength_app in H. lia.
    + simpl in H. injection H as -> H. f_equal. auto.
Qed.

Lemma plus_ways_sound cls s rest :
  In rest (Re.plus_ways cls s) ->
  exists c t, s = String c t ++ rest /\ sall cls (String c t) = true.
Proof.
  revert rest. induction s as [|c s IH]; intros rest H; simpl in H; [contradiction |].
  destruct (cls c) eqn:Hc; [| contradiction].
  apply in_app_or in H. destruct H as [H | [<- | []]].
  - apply IH in H. destruct H as (c' & t & -> & Ht).
    exists c, (String c' t). split; [reflexivity |].
    change (sall cls (String c (String c' t))) with (cls c && sall cls (String c' t)).
    now rewrite Hc, Ht.
  - exists c, "". simpl. now rewrite Hc.
Qed.

Lemma matches_at_suffix r caps s caps' rest :
  matches_at r caps s caps' rest -> exists t, s = t ++ rest.
Proof.
  induction 1 as [l caps rest | cls caps c t rest Hc
                 | r1 r2 caps s caps1 s1 caps2 s2 _ IH1 _ IH2
                 | r1 r2 caps s caps' rest _ IH | r1 r2 caps s caps' rest _ IH
                 | r caps s caps' rest _ IH | r caps s
                 | n r caps t rest caps' _ IH]; eauto.
  - destruct IH1 as [t1 ->]. destruct IH2 as [t2 ->].
    exists (t1 ++ t2). now rewrite sapp_assoc.
  - exists "". reflexivity.
Qed.

Lemma run_sound r : forall caps s caps' rest,
  In (caps', rest) (Re.run r caps s) -> matches_at r caps s caps' rest.
Proof.
  induction r as [l | cls | r1 IH1 r2 IH2 | r1 IH1 r2 IH2 | r IH | n r IH];
    intros caps s caps' rest H; simpl in H.
  - destruct (prefix l s) eqn:Hp; [| contradiction].
    destruct H as [[= <- <-] | []].
    rewrite (prefix_inv _ _ Hp) at 1. constructor.
  - apply in_map_iff in H. destruct H as (x & [= <- <-] & H).
    apply plus_ways_sound in H. destruct H as (c & t & -> & Ht).
    now constructor.
  - apply in_flat_map in H. destruct H as ([c1 s1] & H1 & H2).
    econstructor; eauto.
  - apply in_app_or in H. destruct H as [H | H];
      [apply M_AltL | apply M_AltR]; auto.
  - apply in_app_or in H. destruct H as [H | [[= <- <-] | []]].
    + apply M_OptSome; auto.
    + apply M_OptNone.
  - apply in_map_iff in H. destruct H as ([c1 s1] & [= <- <-] & H).
    apply IH in H. destruct (matches_at_suffix _ _ _ _ _ H) as [t ->].
    rewrite take_app_length. now constructor.
Qed.

Lemma findall_go_sound r ngroups : forall s skip groups,
  In groups (Re.findall_go r ngroups skip s) ->
  exists s' caps rest,
    Re.match_here r s' = Some (caps, rest)
    /\ groups = map (fun i => Re.group caps (S i)) (seq 0 ngroups).
Proof.
  induction s as [|c s IH]; intros skip groups H; simpl in H; [contradiction |].
  destruct skip as [|k]; [| eauto].
  destruct (Re.match_here r (String c s)) as [[caps rest]|] eqn:Hm; [| eauto].
  destruct H as [<- | H]; eauto.
Qed.

Lemma plus_inv cls caps s caps' rest :
  matches_at (Re.Plus cls) caps s caps' rest ->
  exists t, s = t ++ rest /\ t <> "" /\ sall cls t = true /\ caps' = caps.
Proof.
  intros H. inv H. exists (String c t). repeat split; auto. discriminate.
Qed.

Lemma group_inv n r caps s caps' rest :
  matches_at (Re.Group n r) caps s caps' rest ->
  exists t caps1,
    s = t ++ rest /\ caps' = (n, t) :: caps1
    /\ matches_at r caps (t ++ rest) caps1 rest.
Proof. intros H. inv H. eauto. Qed.

Lemma lit_inv l caps s caps' rest :
  matches_at (Re.Lit l) caps s caps' rest -> s = l ++ rest /\ caps' = caps.
Proof. intros H. inv H. auto. Qed.

Lemma group_plus_inv n cls caps s caps' rest :
  matches_at (Re.Group n (Re.Plus cls)) caps s caps' rest ->
  exists t, s = t ++ rest /\ t <> "" /\ sall cls t = true /\ caps' = (n, t) :: caps.
Proof.
  intros H. apply group_inv in H. destruct H as (t & caps1 & -> & -> & H).
  apply plus_inv in H. destruct H as (t' & Heq & Hne & Hall & ->).
  apply sapp_inv_tail in Heq. subst t'. eauto.
Qed.

Lemma opt_group_plus_inv n cls caps s caps' rest :
  matches_at (Re.Opt (Re.Group n (Re.Plus cls))) caps s caps' rest ->
  exists t, s = t ++ rest /\ sall cls t = true
            /\ ((t = "" /\ caps' = caps) \/ caps' = (n, t) :: caps).
Proof.
  intros H. inv H.
  - match goal with
    | H : matches_at (Re.Group _ _) _ _ _ _ |- _ =>
        apply group_plus_inv in H; destruct H as (t & -> & _ & Hall & ->)
    end.
    eauto.
  - exists "". auto.
Qed.

Lemma seq_inv r1 r2 caps s caps2 s2 :
  matches_at (Re.Seq r1 r2) caps s caps2 s2 ->
  exists caps1 s1, matches_at r1 caps s caps1 s1 /\ matches_at r2 caps1 s1 caps2 s2.
Proof. intros H. inv H. eauto. Qed.

Lemma keyword_inv caps s caps' rest :
  matches_at
    (Re.Group 3 (Re.Alt (Re.Lit "in") (Re.Alt (Re.Lit "not_in") (Re.Lit "values"))))
    caps s caps' rest ->
  exists kw, s = kw ++ rest
             /\ (kw = "in" \/ kw = "not_in" \/ kw = "values")
             /\ caps' = (3, kw) :: caps.
Proof.
  intros H. apply group_inv in H. destruct H as (kw & caps1 & -> & -> & H).
  exists kw. split; [reflexivity |].
  inv H;
    try match goal with
        | H : matches_at (Re.Alt _ _) _ _ _ _ |- _ => inv H
        end;
    match goal with
    | H : matches_at (Re.Lit _) _ _ _ _ |- _ =>
        apply lit_inv in H; destruct H as [Heq ->]; apply sapp_inv_tail in Heq; auto
    end.
Qed.

Lemma table_inv caps s caps' rest :
  matches_at (Re.Opt (Re.Group 4 (Re.Plus ident_class +> Re.Lit ".")%regex))
    caps s caps' rest ->
  exists tbl, s = tbl ++ rest
              /\ (tbl = "" \/ exists t, tbl = t ++ "." /\ t <> "" /\ sall ident_class t = true)
              /\ ((tbl = "" /\ caps' = caps) \/ caps' = (4, tbl) :: caps).
Proof.
  intros H. inv H.
  - match goal with
    | H : matches_at (Re.Group 4 _) _ _ _ _ |- _ =>
        apply group_inv in H; destruct H as (tbl & c' & -> & -> & Hin)
    end.
    apply seq_inv in Hin. destruct Hin as (c1 & s1 & Hp & Hl).
    apply lit_inv in Hl. destruct Hl as [-> ->].
    apply plus_inv in Hp. destruct Hp as (t & Heq & Hne & Hall & ->).
    rewrite <- (sapp_assoc t "." rest) in Heq.
    apply sapp_inv_tail in Heq. subst tbl.
    exists (t ++ "."). split; [reflexivity |]. split; [right; eauto | auto].
  - exists "". auto.
Qed.

(** The shape of every match of LIST_TEMPLATE_REGEX. *)
Lemma list_template_match_inv s caps rest :
  matches_at LIST_TEMPLATE_REGEX [] s caps rest ->
  exists lead kw tbl col trail,
    Re.group caps 1 = lead ++ "{" ++ kw ++ "__" ++ tbl ++ col ++ "}" ++ trail
    /\ Re.group caps 3 = kw /\ Re.group caps 4 = tbl /\ Re.group caps 5 = col
    /\ sall space_class lead = true /\ sall space_class trail = true
    /\ (kw = "in" \/ kw = "not_in" \/ kw = "values")
    /\ (tbl = "" \/ exists t, tbl = t ++ "." /\ t <> "" /\ sall ident_class t = true)
    /\ col <> "" /\ sall ident_class col = true.
Proof.
  unfold LIST_TEMPLATE_REGEX. intros H.
  apply group_inv in H. destruct H as (whole & caps1 & -> & -> & H).
  apply seq_inv in H. destruct H as (c2 & s2 & Hlead & H).
  apply seq_inv in H. destruct H as (c2' & s2' & Hopen & H).
  apply seq_inv in H. destruct H as (c3 & s3 & Hkw & H).
  apply seq_inv in H. destruct H as (c3' & s3' & Hsep & H).
  apply seq_inv in H. destruct H as (c4 & s4 & Htbl & H).
  apply seq_inv in H. destruct H as (c5 & s5 & Hcol & H).
  apply seq_inv in H. destruct H as (c5' & s5' & Hclose & Htrail).
  apply opt_group_plus_inv in Htrail. destruct Htrail as (trail & -> & Hsp' & Hc6).
  apply lit_inv in Hclose. destruct Hclose as [-> ->].
  apply group_plus_inv in Hcol. destruct Hcol as (col & -> & Hcol & Hident & ->).
  apply table_inv in Htbl. destruct Htbl as (tbl & -> & Htbl & Hc4).
  apply lit_inv in Hsep. destruct Hsep as [-> ->].
  apply keyword_inv in Hkw. destruct Hkw as (kw & -> & Hkw & ->).
  apply lit_inv in Hopen. destruct Hopen as [-> ->].
  apply opt_group_plus_inv in Hlead. destruct Hlead as (lead & Hlead & Hsp & Hc2).
  assert (Hwhole : whole = lead ++ "{" ++ kw ++ "__" ++ tbl ++ col ++ "}" ++ trail).
  { apply (sapp_inv_tail _ _ rest). rewrite Hlead.
    repeat (rewrite ?sapp_assoc; simpl). reflexivity. }
  exists lead, kw, tbl, col, trail.
  destruct Hc2 as [[-> ->] | ->]; destruct Hc4 as [[-> ->] | ->];
    destruct Hc6 as [[-> ->] | ->]; simpl; repeat split; auto.
Qed.

Lemma match_here_sound r s caps rest :
  Re.match_here r s = Some (caps, rest) -> matches_at r [] s caps rest.
Proof.
  unfold Re.match_here. intros H. apply run_sound.
  destruct (Re.run r [] s); [discriminate |].
  injection H as ->. left. reflexivity.
Qed.

(** Every canonical key has the form [keyword__[table.]column]. *)
Lemma placeholder_keys_shape query key :
  In key (placeholder_keys query) ->
  exists kw tbl col,
    key = kw ++ "__" ++ tbl ++ col
    /\ (kw = "in" \/ kw = "not_in" \/ kw = "values")
    /\ (tbl = "" \/ exists t, tbl = t ++ "." /\ t <> "" /\ sall ident_class t = true)
    /\ col <> "" /\ sall ident_class col = true.
Proof.
  unfold placeholder_keys, Re.findall. intros H.
  apply in_map_iff in H. destruct H as (groups & <- & H).
  apply findall_go_sound in H. destruct H as (s' & caps & rest & Hm & ->).
  apply match_here_sound, list_template_match_inv in Hm.
  destruct Hm as (lead & kw & tbl & col & trail & _ & H3 & H4 & H5 & _ & _ & Hkw & Htbl & Hcol).
  exists kw, tbl, col. unfold key_of_groups, item. simpl.
  rewrite H3, H4, H5. split; [| auto].
  destruct (String.eqb_spec tbl "") as [->|_]; reflexivity.
Qed.

Lemma placeholder_keys_class query key :
  In key (placeholder_keys query) -> sall key_class key = true.
Proof.
  intros H. apply placeholder_keys_shape in H.
  destruct H as (kw & tbl & col & -> & Hkw & Htbl & _ & Hcol).
  assert (Hid : forall x, sall ident_class x = true -> sall key_class x = true).
  { intros x. apply sall_impl. intros c Hc. unfold key_class. now rewrite Hc. }
  assert (Hk : sall key_class kw = true)
    by (destruct Hkw as [-> | [-> | ->]]; reflexivity).
  assert (Ht : sall key_class tbl = true).
  { destruct Htbl as [-> | (t & -> & _ & Ht)]; [reflexivity |].
    rewrite sall_app, (Hid t Ht). reflexivity. }
  rewrite !sall_app, Hk, Ht, (Hid col Hcol). reflexivity.
Qed.
(* ===================================================================== *)
(** * Facts about dictionaries *)
(* ===================================================================== *)

Section DictFacts.
Context {V : Type}.
Implicit Types (d other : dict V) (k n : string) (v : V).

Lemma dict_get_set_eq d k v : dict_get (dict_set d k v) k = Some v.
Proof.
  induction d as [|[k' v'] d IH]; simpl.
  - now rewrite String.eqb_refl.
  - destruct (String.eqb k' k) eqn:E; simpl; rewrite E; auto.
Qed.

Lemma dict_get_set_ne d k v n : k <> n -> dict_get (dict_set d k v) n = dict_get d n.
Proof.
  intros Hne. induction d as [|[k' v'] d IH]; simpl.
  - apply String.eqb_neq in Hne. now rewrite Hne.
  - destruct (String.eqb k' k) eqn:E; simpl.
    + apply String.eqb_eq in E. subst k'.
      apply String.eqb_neq in Hne. now rewrite Hne.
    + now rewrite IH.
Qed.

Lemma dict_get_in_keys d n : dict_get d n <> None <-> In n (dict_keys d).
Proof.
  induction d as [|[k' v'] d IH]; simpl.
  - split; [congruence | tauto].
  - destruct (String.eqb_spec k' n) as [->|Hne].
    + split; [auto | congruence].
    + rewrite IH. split; [auto | intros [H|H]; [contradiction | assumption]].
Qed.

Lemma dict_get_none d n : dict_get d n = None <-> ~ In n (dict_keys d).
Proof.
  rewrite <- dict_get_in_keys. destruct (dict_get d n); split; try congruence.
  intros H. exfalso. apply H. discriminate.
Qed.

Lemma dict_keys_set d k v x :
  In x (dict_keys (dict_set d k v)) <-> x = k \/ In x (dict_keys d).
Proof.
  induction d as [|[k' v'] d IH]; simpl.
  - intuition.
  - destruct (String.eqb_spec k' k) as [->|Hne]; simpl.
    + intuition.
    + unfold dict_keys in IH. rewrite IH. intuition.
Qed.

Lemma dict_set_nodup d k v :
  NoDup (dict_keys d) -> NoDup (dict_keys (dict_set d k v)).
Proof.
  induction d as [|[k' v'] d IH]; simpl; intros Hnd.
  - constructor; [intros [] | constructor].
  - inversion Hnd as [|? ? Hnotin Hnd']; subst.
    destruct (String.eqb_spec k' k) as [->|Hne]; simpl.
    + constructor; assumption.
    + constructor; [| apply IH; assumption].
      intros Hin. apply dict_keys_set in Hin. destruct Hin as [->|Hin]; auto.
Qed.

Lemma dict_update_cons d k v other :
  dict_update d ((k, v) :: other) = dict_update (dict_set d k v) other.
Proof. reflexivity. Qed.

Lemma dict_update_nodup d other :
  NoDup (dict_keys d) -> NoDup (dict_keys (dict_update d other)).
Proof.
  revert d. induction other as [|[k v] other IH]; intros d Hnd.
  - exact Hnd.
  - rewrite dict_update_cons. apply IH, dict_set_nodup, Hnd.
Qed.

Lemma dict_keys_update d other x :
  In x (dict_keys (dict_update d other))
  <-> In x (dict_keys other) \/ In x (dict_keys d).
Proof.
  revert d. induction other as [|[k v] other IH]; intros d.
  - simpl. tauto.
  - rewrite dict_update_cons, IH, dict_keys_set. simpl. intuition.
Qed.

(** For a well-formed [other], the update reads as: [other] first. *)
Lemma dict_get_update d other n :
  NoDup (dict_keys other) ->
  dict_get (dict_update d other) n
  = match dict_get other n with
    | Some v => Some v
    | None => dict_get d n
    end.
Proof.
  revert d. induction other as [|[k v] other IH]; intros d Hnd.
  - reflexivity.
  - rewrite dict_update_cons. inversion Hnd as [|? ? Hnotin Hnd']; subst.
    rewrite (IH _ Hnd'). simpl.
    destruct (String.eqb_spec k n) as [->|Hne].
    + apply dict_get_none in Hnotin. rewrite Hnotin. apply dict_get_set_eq.
    + rewrite dict_get_set_ne by assumption. reflexivity.
Qed.

End DictFacts.

(* ===================================================================== *)
(** * The mappings built by the handlers are well formed *)
(* ===================================================================== *)

Lemma inner_loop_nodup key items index pv pk :
  NoDup (dict_keys pv) ->
  NoDup (dict_keys (fst (Templates.inner_loop key items index pv pk))).
Proof.
  revert index pv pk. induction items as [|value items IH]; intros index pv pk Hnd; simpl.
  - exact Hnd.
  - apply IH, dict_set_nodup, Hnd.
Qed.

Lemma inner_locals_nodup key vals :
  NoDup (dict_keys (fst (Templates.inner_locals key vals))).
Proof.
  destruct vals; simpl;
    try (constructor; [intros [] | constructor]);
    apply inner_loop_nodup; constructor.
Qed.

Lemma parameterize_inner_list_nodup key vals :
  NoDup (dict_keys (snd (Templates._parameterize_inner_list key vals))).
Proof.
  unfold Templates._parameterize_inner_list.
  pose proof (inner_locals_nodup key vals) as H.
  destruct (Templates.inner_locals key vals) as [pv pk]. exact H.
Qed.

Lemma list_loop_nodup key vals items index pv pk :
  NoDup (dict_keys pv) ->
  NoDup (dict_keys (snd (Templates.list_loop key vals items index pv pk))).
Proof.
  revert index pv pk. induction items as [|value items IH]; intros index pv pk Hnd; simpl.
  - exact Hnd.
  - destruct (isinstance_tuple value || startswith key "values").
    + destruct (Templates._parameterize_inner_list _ value) as [ps ipv] eqn:E.
      apply IH, dict_update_nodup, Hnd.
    + apply parameterize_inner_list_nodup.
Qed.

Lemma parameterize_list_nodup key vals frag binds :
  Templates._parameterize_list key vals = Ok (frag, binds) ->
  NoDup (dict_keys binds).
Proof.
  unfold Templates._parameterize_list.
  destruct (iter _) as [items|e]; simpl; [| discriminate].
  intros H. injection H as H.
  pose proof (list_loop_nodup key (if isinstance_str vals then PTuple [vals] else vals)
                items 0 [] [] (NoDup_nil _)) as Hnd.
  rewrite H in Hnd. exact Hnd.
Qed.

(** The three handlers share their shape: a policy for falsy input, then
    [_parameterize_list] under the key name. *)
Lemma handler_some_inv (f : Templates.handler) name vals legacy_key frag binds :
  f = Templates.in_column \/ f = Templates.not_in_column \/ f = Templates.values ->
  f name vals legacy_key = Ok (frag, Some binds) ->
  truthy vals = true
  /\ exists keys,
      Templates._parameterize_list (Templates.key_name_of name legacy_key) vals
      = Ok (keys, binds)
      /\ (frag = name ++ " IN " ++ keys \/ frag = name ++ " NOT IN " ++ keys
          \/ frag = "VALUES " ++ keys).
Proof.
  intros Hf Hcall.
  destruct Hf as [-> | [-> | ->]];
    unfold Templates.in_column, Templates.not_in_column, Templates.values in Hcall;
    destruct (truthy vals); simpl in Hcall; try discriminate;
    (split; [reflexivity |]);
    destruct (Templates._parameterize_list _ vals) as [[keys b]|e]; simpl in Hcall;
    try discriminate; injection Hcall as <- <-; exists keys; auto.
Qed.

Lemma get_template_inv kw f :
  Templates.get_template kw = Some f ->
  (kw = "in" /\ f = Templates.in_column)
  \/ (kw = "not_in" /\ f = Templates.not_in_column)
  \/ (kw = "values" /\ f = Templates.values).
Proof.
  unfold Templates.get_template.
  destruct (String.eqb_spec kw "in"); [intros [= <-]; auto |].
  destruct (String.eqb_spec kw "not_in"); [intros [= <-]; auto |].
  destruct (String.eqb_spec kw "values"); [intros [= <-]; auto | discriminate].
Qed.

(** What a successful call for one key went through. *)
Lemma template_call_inv tp key r :
  template_call tp key = Ok r ->
  exists kw col v f,
    split key "__" = Ok [kw; col]
    /\ subscript tp key = Ok v
    /\ Templates.get_template kw = Some f
    /\ f col v (Some key) = Ok r.
Proof.
  unfold template_call.
  destruct (split key "__") as [parts|e]; simpl; [| discriminate].
  destruct parts as [|kw [|col [|x parts]]]; try discriminate.
  destruct (subscript tp key) as [v|e]; simpl; [| discriminate].
  destruct (Templates.get_template kw) as [f|] eqn:Hf; [| discriminate].
  intros H. exists kw, col, v, f. auto.
Qed.

Lemma template_call_nodup tp key frag binds :
  template_call tp key = Ok (frag, Some binds) -> NoDup (dict_keys binds).
Proof.
  intros H. apply template_call_inv in H.
  destruct H as (kw & col & v & f & _ & _ & Hf & Hcall).
  apply get_template_inv in Hf.
  apply handler_some_inv in Hcall; [| tauto].
  destruct Hcall as (_ & keys & Hp & _).
  eapply parameterize_list_nodup; eauto.
Qed.

(* ===================================================================== *)
(** * The names generated under a key *)
(* ===================================================================== *)

Lemma dedup_in (l : list string) (x : string) : In x (dedup l) <-> In x l.
Proof.
  induction l as [|y l IH]; simpl; [tauto |].
  rewrite filter_In, IH. destruct (String.eqb_spec y x) as [->|Hne]; simpl.
  - tauto.
  - split; [intros [H|[H _]]; auto | intros [H|H]; auto].
Qed.

Lemma dedup_nodup (l : list string) : NoDup (dedup l).
Proof.
  induction l as [|y l IH]; simpl; constructor.
  - rewrite filter_In. intros [_ H]. now rewrite String.eqb_refl in H.
  - apply NoDup_filter, IH.
Qed.

(** Lists produced from distinct sources are distinct as a whole when every
    element tells its source, up to [g]. *)
Lemma NoDup_flat_map_by {A B K : Type} (g : A -> K) (f : A -> list B) (l : list A) :
  NoDup (map g l) ->
  (forall a, In a l -> NoDup (f a)) ->
  (forall a a' x, In a l -> In a' l -> In x (f a) -> In x (f a') -> g a = g a') ->
  NoDup (flat_map f l).
Proof.
  induction l as [|a l IH]; simpl; intros Hg Hf Hx; [constructor |].
  inversion Hg as [|? ? Hnotin Hg']; subst.
  apply NoDup_app.
  - apply Hf. auto.
  - apply IH; auto. intros; eapply Hx; eauto.
  - intros x Hin1 Hin2. apply in_flat_map in Hin2. destruct Hin2 as (a' & Ha' & Hin2).
    apply Hnotin. rewrite (Hx a a' x); auto. now apply in_map.
Qed.

Lemma inner_loop_names key : forall items index pv pk,
  snd (Templates.inner_loop key items index pv pk)
  = (pk ++ map (fun i => (replace key "." "_" ++ "_" ++ str i)%string)
               (seq index (List.length items)))%list.
Proof.
  induction items as [|v items IH]; intros index pv pk; simpl.
  - now rewrite List.app_nil_r.
  - rewrite IH, <- List.app_assoc. reflexivity.
Qed.

Lemma inner_locals_names key v n :
  In n (snd (Templates.inner_locals key v)) ->
  n = key \/ exists j, n = undot key ++ "_" ++ str j.
Proof.
  destruct v; simpl; try (intros [<- | []]; now left);
    rewrite inner_loop_names, List.app_nil_l, replace_dots; intros H;
    apply in_map_iff in H; destruct H as (j & <- & _);
    right; exists j; reflexivity.
Qed.

Lemma indexed_name_inj (a : string) :
  Injective (fun i => a ++ "_" ++ str i).
Proof.
  intros i j H. apply sapp_inv_head in H. injection H as H. now apply str_inj.
Qed.

Lemma inner_locals_names_nodup key v :
  NoDup (snd (Templates.inner_locals key v)).
Proof.
  assert (Hone : NoDup [key]) by (constructor; [intros [] | constructor]).
  destruct v; simpl; try exact Hone;
    rewrite inner_loop_names, List.app_nil_l;
    apply Injective_map_NoDup; auto using indexed_name_inj, seq_NoDup.
Qed.

Lemma list_loop_names_cases key vals : forall items index names,
  list_loop_names key vals items index names = snd (Templates.inner_locals key vals)
  \/ list_loop_names key vals items index names
     = (names ++ flat_map (element_names key)
                          (combine (seq index (List.length items)) items))%list.
Proof.
  induction items as [|v items IH]; intros index names;
    cbn [list_loop_names List.length seq combine flat_map].
  - right. now rewrite List.app_nil_r.
  - destruct (isinstance_tuple v || startswith key "values"); [| now left].
    destruct (IH (S index) (names ++ snd (Templates.inner_locals (key ++ "_" ++ str index) v))%list)
      as [H | H]; [now left | right].
    rewrite H, <- List.app_assoc. reflexivity.
Qed.

Lemma map_fst_combine_seq {A : Type} (items : list A) : forall index,
  map fst (combine (seq index (List.length items)) items) = seq index (List.length items).
Proof.
  induction items as [|v items IH]; intros index; simpl; [reflexivity |].
  now rewrite IH.
Qed.

Lemma str_suffix_digits (i : nat) : sall digit_class (str i) = true /\ str i <> "".
Proof. split; [apply str_digits | apply str_nonempty]. Qed.

Lemma undot_indexed key i : undot (key ++ "_" ++ str i) = undot key ++ "_" ++ str i.
Proof.
  rewrite undot_app. f_equal.
  change (undot ("_" ++ str i)) with ("_" ++ undot (str i)).
  now rewrite undot_digits by apply str_digits.
Qed.

Lemma undot_not_digit key : sall not_digit key = true -> sall not_digit (undot key) = true.
Proof. apply undot_sall. reflexivity. Qed.

(** Within one key, two elements never share a name. *)
Lemma element_names_index key i v i' v' n :
  sall not_digit key = true ->
  In n (element_names key (i, v)) -> In n (element_names key (i', v')) -> i = i'.
Proof.
  intros Hkey H H'. unfold element_names in *. cbn [fst snd] in *.
  apply inner_locals_names in H, H'.
  rewrite !undot_indexed in *.
  destruct H as [-> | (j & ->)]; destruct H' as [H' | (j' & H')].
  - apply index_suffix_inj in H' as [_ H']; auto using str_digits, str_inj.
  - apply index_suffix_inj in H' as [H' _]; auto using str_digits.
    exfalso. eapply (no_digit_suffix key); eauto using str_digits, str_nonempty.
  - apply index_suffix_inj in H' as [H' _]; auto using str_digits.
    exfalso. symmetry in H'.
    eapply (no_digit_suffix key); eauto using str_digits, str_nonempty.
  - apply index_suffix_inj in H' as [H' _]; auto using str_digits.
    apply index_suffix_inj in H' as [_ H']; auto using str_digits, str_inj.
Qed.

Lemma binding_names_nodup key v :
  sall not_digit key = true -> NoDup (binding_names key v).
Proof.
  intros Hkey. unfold binding_names.
  destruct (iter _) as [items|e]; [| constructor].
  destruct (list_loop_names_cases key (if isinstance_str v then PTuple [v] else v) items 0 [])
    as [-> | ->].
  - apply inner_locals_names_nodup.
  - simpl. apply NoDup_flat_map_by with (g := fst).
    + rewrite map_fst_combine_seq. apply seq_NoDup.
    + intros [i x] _. apply inner_locals_names_nodup.
    + intros [i x] [i' x'] n _ _ H H'. simpl. eapply element_names_index; eauto.
Qed.

Lemma binding_names_shape key v n :
  In n (binding_names key v) -> generated_from key n.
Proof.
  unfold binding_names.
  set (vals := if isinstance_str v then PTuple [v] else v).
  destruct (iter vals) as [items|e] eqn:Hiter; [| intros []].
  destruct (list_loop_names_cases key vals items 0 []) as [-> | ->].
  - assert (Hseq : exists l, vals = PList l \/ vals = PTuple l).
    { subst vals. destruct v; simpl in *; try discriminate; eauto. }
    destruct Hseq as [l [-> | ->]]; simpl;
      rewrite inner_loop_names, List.app_nil_l, replace_dots; intros H;
      apply in_map_iff in H; destruct H as (i & <- & _); exists i; auto.
  - rewrite List.app_nil_l. intros H. apply in_flat_map in H.
    destruct H as ([i x] & _ & H). unfold element_names in H. cbn [fst snd] in H.
    apply inner_locals_names in H. exists i.
    destruct H as [-> | (j & ->)]; [auto |].
    right. right. exists j. now rewrite undot_indexed.
Qed.

Lemma undot_idem (s0 : string) : undot (undot s0) = undot s0.
Proof.
  induction s0 as [|c s0 IH]; simpl; [reflexivity |].
  rewrite IH. destruct (Ascii.eqb_spec c "."); [reflexivity |].
  destruct (Ascii.eqb_spec c "."); [contradiction | reflexivity].
Qed.

(** A generated name, once its dots are replaced, is of one of two shapes. *)
Lemma generated_from_undot key n :
  generated_from key n ->
  exists i, undot n = undot key ++ "_" ++ str i
            \/ exists j, undot n = (undot key ++ "_" ++ str i) ++ "_" ++ str j.
Proof.
  intros [i [-> | [-> | (j & ->)]]]; exists i.
  - left. rewrite undot_app, undot_idem. f_equal.
    change (undot ("_" ++ str i)) with ("_" ++ undot (str i)).
    now rewrite undot_digits by apply str_digits.
  - left. apply undot_indexed.
  - right. exists j. rewrite undot_app, undot_app, undot_idem. f_equal.
    + f_equal. change (undot ("_" ++ str i)) with ("_" ++ undot (str i)).
      now rewrite undot_digits by apply str_digits.
    + change (undot ("_" ++ str j)) with ("_" ++ undot (str j)).
      now rewrite undot_digits by apply str_digits.
Qed.

(** A generated name tells the key it comes from, up to the dots. *)
Lemma generated_from_source k1 k2 n :
  sall not_digit k1 = true -> sall not_digit k2 = true ->
  generated_from k1 n -> generated_from k2 n -> undot k1 = undot k2.
Proof.
  intros Hk1 Hk2 H1 H2.
  apply undot_not_digit in Hk1, Hk2.
  apply generated_from_undot in H1, H2.
  destruct H1 as [i1 [E1 | (j1 & E1)]]; destruct H2 as [i2 [E2 | (j2 & E2)]];
    rewrite E1 in E2.
  - apply index_suffix_inj in E2 as [E2 _]; auto using str_digits.
  - apply index_suffix_inj in E2 as [E2 _]; auto using str_digits.
    exfalso. eapply (no_digit_suffix (undot k1)); eauto using str_digits, str_nonempty.
  - apply index_suffix_inj in E2 as [E2 _]; auto using str_digits.
    exfalso. symmetry in E2.
    eapply (no_digit_suffix (undot k2)); eauto using str_digits, str_nonempty.
  - apply index_suffix_inj in E2 as [E2 _]; auto using str_digits.
    apply index_suffix_inj in E2 as [E2 _]; auto using str_digits.
Qed.

Lemma key_class_not_digit (key : string) :
  sall key_class key = true -> sall not_digit key = true.
Proof.
  apply sall_impl. intros c. unfold key_class, ident_class, not_digit, digit_class.
  destruct (Ascii.eqb_spec c ".") as [-> | _]; [reflexivity |].
  rewrite orb_false_r.
  destruct (48 <=? nat_of_ascii c)%nat eqn:E1; [| reflexivity].
  destruct (nat_of_ascii c <=? 57)%nat eqn:E2; [| reflexivity].
  apply Nat.leb_le in E1, E2.
  intros H. exfalso.
  repeat (apply orb_prop in H; destruct H as [H | H]);
    try (apply andb_prop in H as [H1 H2]; apply Nat.leb_le in H1, H2; lia).
  apply Nat.eqb_eq in H. lia.
Qed.

Lemma call_names_nodup tp key :
  sall not_digit key = true -> NoDup (call_names tp key).
Proof.
  intros Hkey. unfold call_names.
  destruct (subscript tp key) as [v|e]; [| constructor].
  destruct (truthy v); [| constructor].
  now apply binding_names_nodup.
Qed.

Lemma call_names_shape tp key n :
  In n (call_names tp key) -> generated_from key n.
Proof.
  unfold call_names.
  destruct (subscript tp key) as [v|e]; [| intros []].
  destruct (truthy v); [| intros []].
  apply binding_names_shape.
Qed.

(** The names listed by [binding_names] are the keys of the mapping the
    code builds. *)
Lemma inner_loop_keys key : forall items index pv pk n,
  In n (dict_keys (fst (Templates.inner_loop key items index pv pk)))
  <-> In n (dict_keys pv)
      \/ In n (map (fun i => replace key "." "_" ++ "_" ++ str i)
                   (seq index (List.length items))).
Proof.
  induction items as [|v items IH]; intros index pv pk n;
    cbn [Templates.inner_loop List.length seq map].
  - simpl. tauto.
  - rewrite IH, dict_keys_set. simpl. intuition congruence.
Qed.

Lemma inner_locals_keys key v n :
  In n (dict_keys (fst (Templates.inner_locals key v)))
  <-> In n (snd (Templates.inner_locals key v)).
Proof.
  destruct v; try (simpl; tauto);
    cbn [Templates.inner_locals];
    rewrite inner_loop_keys, inner_loop_names, List.app_nil_l; simpl; tauto.
Qed.

Lemma parameterize_inner_list_snd key v :
  snd (Templates._parameterize_inner_list key v) = fst (Templates.inner_locals key v).
Proof.
  unfold Templates._parameterize_inner_list.
  destruct (Templates.inner_locals key v); reflexivity.
Qed.

Lemma list_loop_keys key vals : forall items index pv pk names,
  (forall n, In n (dict_keys pv) <-> In n names) ->
  forall n,
    In n (dict_keys (snd (Templates.list_loop key vals items index pv pk)))
    <-> In n (list_loop_names key vals items index names).
Proof.
  induction items as [|v items IH]; intros index pv pk names Hsame n;
    cbn [Templates.list_loop list_loop_names].
  - apply Hsame.
  - destruct (isinstance_tuple v || startswith key "values").
    + pose proof (parameterize_inner_list_snd (key ++ "_" ++ str index) v) as Hsnd.
      destruct (Templates._parameterize_inner_list _ v) as [ps ipv]. cbn [snd] in Hsnd.
      apply IH. intros m. rewrite dict_keys_update, in_app_iff, Hsnd, inner_locals_keys, Hsame.
      tauto.
    + rewrite parameterize_inner_list_snd. apply inner_locals_keys.
Qed.

Lemma binding_names_are_keys key v frag binds n :
  Templates._parameterize_list key v = Ok (frag, binds) ->
  In n (dict_keys binds) <-> In n (binding_names key v).
Proof.
  unfold Templates._parameterize_list, binding_names.
  destruct (iter _) as [items|e]; simpl; [| discriminate].
  intros [= H].
  pose proof (list_loop_keys key (if isinstance_str v then PTuple [v] else v)
                items 0 [] [] [] (fun m => iff_refl _) n) as Hk.
  rewrite H in Hk. exact Hk.
Qed.

(* ===================================================================== *)
(** * Rendered fragments contain no opening brace *)
(* ===================================================================== *)

Lemma sall_rev_string p : forall s acc,
  sall p (rev_string acc s) = sall p acc && sall p s.
Proof.
  induction s as [|c s IH]; intros acc; simpl.
  - now rewrite andb_true_r.
  - rewrite IH. simpl. destruct (p c); simpl; [reflexivity |].
    now rewrite !andb_false_r.
Qed.

Lemma split_go_sall p sep : forall s skip cur,
  sall p s = true -> sall p cur = true ->
  Forall (fun x => sall p x = true) (split_go sep skip cur s).
Proof.
  induction s as [|c s IH]; intros skip cur Hs Hcur; cbn [split_go].
  - constructor; [| constructor]. now rewrite sall_rev_string, Hcur.
  - simpl in Hs. apply andb_prop in Hs as [Hc Hs].
    destruct skip as [|k]; [| auto].
    destruct (prefix sep (String c s)).
    + constructor; [now rewrite sall_rev_string, Hcur | auto].
    + apply IH; [assumption |]. simpl. now rewrite Hc, Hcur.
Qed.

Lemma join_sall p sep l :
  sall p sep = true -> Forall (fun x => sall p x = true) l ->
  sall p (join sep l) = true.
Proof.
  intros Hsep Hl. unfold join. induction Hl as [|x l Hx Hl IH]; [reflexivity |].
  simpl. destruct l as [|y l]; [exact Hx |].
  now rewrite !sall_app, Hx, Hsep, IH.
Qed.

Lemma str_no_brace i : sall not_open_brace (str i) = true.
Proof.
  apply (sall_impl digit_class); [| apply str_digits].
  intros c Hc. unfold not_open_brace.
  destruct (Ascii.eqb_spec c "{") as [-> | _]; [discriminate | reflexivity].
Qed.

Lemma indexed_no_brace key i :
  sall not_open_brace key = true ->
  sall not_open_brace (key ++ "_" ++ str i) = true.
Proof.
  intros Hk. rewrite !sall_app, Hk. simpl. apply str_no_brace.
Qed.

Lemma inner_locals_no_brace key v :
  sall not_open_brace key = true ->
  Forall (fun x => sall not_open_brace x = true) (snd (Templates.inner_locals key v)).
Proof.
  intros Hk. apply Forall_forall. intros n Hn.
  apply inner_locals_names in Hn. destruct Hn as [-> | (j & ->)]; [exact Hk |].
  apply indexed_no_brace, undot_sall; [reflexivity | exact Hk].
Qed.

Lemma parameterize_inner_list_no_brace key v :
  sall not_open_brace key = true ->
  sall not_open_brace (fst (Templates._parameterize_inner_list key v)) = true.
Proof.
  intros Hk. unfold Templates._parameterize_inner_list.
  pose proof (inner_locals_no_brace key v Hk) as H.
  destruct (Templates.inner_locals key v) as [pv pk]. cbn [fst snd] in *.
  rewrite !sall_app, (join_sall _ _ _ (eq_refl : sall not_open_brace ", :" = true) H).
  reflexivity.
Qed.

Lemma list_loop_no_brace key vals : forall items index pv pk,
  sall not_open_brace key = true ->
  Forall (fun x => sall not_open_brace x = true) pk ->
  sall not_open_brace (fst (Templates.list_loop key vals items index pv pk)) = true.
Proof.
  induction items as [|v items IH]; intros index pv pk Hk Hpk; cbn [Templates.list_loop].
  - apply join_sall; [reflexivity | exact Hpk].
  - destruct (isinstance_tuple v || startswith key "values").
    + pose proof (parameterize_inner_list_no_brace (key ++ "_" ++ str index) v
                    (indexed_no_brace key index Hk)) as H.
      destruct (Templates._parameterize_inner_list _ v) as [ps ipv]. cbn [fst] in H.
      apply IH; [exact Hk |]. apply Forall_app. split; [exact Hpk |].
      constructor; [exact H | constructor].
    + now apply parameterize_inner_list_no_brace.
Qed.

Lemma parameterize_list_no_brace key v frag binds :
  sall not_open_brace key = true ->
  Templates._parameterize_list key v = Ok (frag, binds) ->
  sall not_open_brace frag = true.
Proof.
  intros Hk. unfold Templates._parameterize_list.
  destruct (iter _) as [items|e]; simpl; [| discriminate].
  intros [= H].
  pose proof (list_loop_no_brace key (if isinstance_str v then PTuple [v] else v)
                items 0 [] [] Hk (Forall_nil _)) as Hnb.
  rewrite H in Hnb. exact Hnb.
Qed.

Lemma key_name_of_key col key : key <> "" -> Templates.key_name_of col (Some key) = key.
Proof.
  intros Hne. unfold Templates.key_name_of.
  destruct (String.eqb_spec key ""); [contradiction | reflexivity].
Qed.

Lemma split_two_nonempty key kw col : split key "__" = Ok [kw; col] -> key <> "".
Proof. intros H ->. discriminate. Qed.

Lemma handler_none_inv (f : Templates.handler) name vals legacy_key frag :
  f = Templates.in_column \/ f = Templates.not_in_column \/ f = Templates.values ->
  f name vals legacy_key = Ok (frag, None) ->
  truthy vals = false /\ (frag = "1 <> 1" \/ frag = "1 = 1").
Proof.
  intros Hf Hcall.
  destruct Hf as [-> | [-> | ->]];
    unfold Templates.in_column, Templates.not_in_column, Templates.values in Hcall;
    destruct (truthy vals); simpl in Hcall; try discriminate;
    try (destruct (Templates._parameterize_list _ vals) as [[keys b]|e];
         simpl in Hcall; discriminate);
    injection Hcall as <-; auto.
Qed.

Lemma template_call_no_brace tp key frag binds :
  sall not_open_brace key = true ->
  template_call tp key = Ok (frag, binds) ->
  sall not_open_brace frag = true.
Proof.
  intros Hk H. apply template_call_inv in H.
  destruct H as (kw & col & v & f & Hsplit & _ & Hf & Hcall).
  assert (Hcol : sall not_open_brace col = true).
  { unfold split in Hsplit. injection Hsplit as Hsplit.
    pose proof (split_go_sall not_open_brace "__" key 0 "" Hk eq_refl) as Hall.
    rewrite Hsplit in Hall. inversion Hall as [|? ? _ Hall']; subst.
    inversion Hall'; subst. assumption. }
  pose proof (split_two_nonempty _ _ _ Hsplit) as Hne.
  apply get_template_inv in Hf.
  assert (Hf' : f = Templates.in_column \/ f = Templates.not_in_column
                \/ f = Templates.values) by tauto.
  destruct binds as [binds|].
  - apply handler_some_inv in Hcall; [| exact Hf'].
    destruct Hcall as (_ & keys & Hp & Hfrag).
    rewrite key_name_of_key in Hp by assumption.
    apply parameterize_list_no_brace in Hp; [| exact Hk].
    destruct Hfrag as [-> | [-> | ->]]; rewrite !sall_app, ?Hcol, Hp; reflexivity.
  - apply handler_none_inv in Hcall; [| exact Hf'].
    destruct Hcall as (_ & [-> | ->]); reflexivity.
Qed.

(* ===================================================================== *)
(** * Facts about the mapper *)
(* ===================================================================== *)

Module MapperFacts.
Import Mapper.

Lemma partition_rows_snoc sch rows r :
  partition_rows sch (rows ++ [r])
  = add_to_group (row_identity sch r) r (partition_rows sch rows).
Proof. unfold partition_rows. now rewrite fold_left_app. Qed.

Lemma first_seen_snoc ids id :
  first_seen (ids ++ [id])
  = if in_dec identity_eq_dec id (first_seen ids)
    then first_seen ids else (first_seen ids ++ [id])%list.
Proof. unfold first_seen. now rewrite fold_left_app. Qed.

Lemma first_seen_in ids id : In id (first_seen ids) <-> In id ids.
Proof.
  induction ids as [|x ids IH] using rev_ind; [simpl; tauto |].
  rewrite first_seen_snoc, in_app_iff. simpl.
  destruct (in_dec identity_eq_dec x (first_seen ids)) as [Hin | Hnot].
  - rewrite IH. split; [auto |]. intros [H | [<- | []]]; [auto |]. now apply IH.
  - rewrite in_app_iff, IH. simpl. tauto.
Qed.

Lemma first_seen_nodup ids : NoDup (first_seen ids).
Proof.
  induction ids as [|x ids IH] using rev_ind; [constructor |].
  rewrite first_seen_snoc.
  destruct (in_dec identity_eq_dec x (first_seen ids)) as [Hin | Hnot]; [exact IH |].
  apply NoDup_app; [exact IH | constructor; [intros [] | constructor] |].
  intros a Ha [<- | []]. contradiction.
Qed.

Lemma has_identity_true sch id row :
  has_identity sch id row = true <-> row_identity sch row = id.
Proof.
  unfold has_identity. destruct (identity_eq_dec (row_identity sch row) id);
    split; auto; discriminate.
Qed.

Lemma filter_snoc {A : Type} (f : A -> bool) l x :
  filter f (l ++ [x]) = (filter f l ++ if f x then [x] else [])%list.
Proof. rewrite filter_app. reflexivity. Qed.

(** Adding a row to the groups of the rows before it. *)
Lemma add_to_group_spec sch rows r : forall ids,
  NoDup ids ->
  add_to_group (row_identity sch r) r
    (map (fun id => (id, filter (has_identity sch id) rows)) ids)
  = if in_dec identity_eq_dec (row_identity sch r) ids
    then map (fun id => (id, filter (has_identity sch id) (rows ++ [r]))) ids
    else (map (fun id => (id, filter (has_identity sch id) rows)) ids
          ++ [(row_identity sch r, [r])])%list.
Proof.
  induction ids as [|i ids IH]; intros Hnd; [reflexivity |].
  inversion Hnd as [|? ? Hnotin Hnd']; subst.
  cbn [map add_to_group].
  destruct (identity_eq_dec i (row_identity sch r)) as [-> | Hne].
  - destruct (in_dec identity_eq_dec (row_identity sch r) (row_identity sch r :: ids))
      as [_ | Hno]; [| exfalso; apply Hno; now left].
    rewrite filter_snoc.
    rewrite (proj2 (has_identity_true sch (row_identity sch r) r) eq_refl).
    f_equal. apply map_ext_in. intros j Hj. f_equal.
    rewrite filter_snoc.
    destruct (has_identity sch j r) eqn:E; [| now rewrite List.app_nil_r].
    apply has_identity_true in E. subst j. contradiction.
  - specialize (IH Hnd').
    assert (Hi : filter (has_identity sch i) (rows ++ [r]) = filter (has_identity sch i) rows).
    { rewrite filter_snoc. destruct (has_identity sch i r) eqn:E; [| now rewrite List.app_nil_r].
      apply has_identity_true in E. congruence. }
    destruct (in_dec identity_eq_dec (row_identity sch r) ids) as [Hin | Hnot];
      destruct (in_dec identity_eq_dec (row_identity sch r) (i :: ids)) as [Hin' | Hnot'].
    + rewrite IH. cbn [map]. now rewrite Hi.
    + exfalso. apply Hnot'. now right.
    + exfalso. destruct Hin' as [E | E]; [congruence | contradiction].
    + rewrite IH. reflexivity.
Qed.

(** The groups are the rows of each identity, identities as first seen. *)
Lemma partition_rows_spec sch rows :
  partition_rows sch rows
  = map (fun id => (id, filter (has_identity sch id) rows))
        (first_seen (map (row_identity sch) rows)).
Proof.
  induction rows as [|r rows IH] using rev_ind; [reflexivity |].
  rewrite partition_rows_snoc, IH, map_app. cbn [map].
  rewrite first_seen_snoc, add_to_group_spec by apply first_seen_nodup.
  destruct (in_dec identity_eq_dec (row_identity sch r)
                   (first_seen (map (row_identity sch) rows))) as [Hin | Hnot];
    [reflexivity |].
  rewrite map_app. cbn [map]. f_equal.
  - apply map_ext_in. intros j Hj. f_equal. rewrite filter_snoc.
    destruct (has_identity sch j r) eqn:E; [| now rewrite List.app_nil_r].
    apply has_identity_true in E. subst j. contradiction.
  - f_equal. f_equal. rewrite filter_snoc.
    rewrite (proj2 (has_identity_true sch (row_identity sch r) r) eq_refl).
    assert (Hnone : filter (has_identity sch (row_identity sch r)) rows = []).
    { destruct (filter (has_identity sch (row_identity sch r)) rows) as [|x l] eqn:E;
        [reflexivity |].
      assert (Hx : In x (filter (has_identity sch (row_identity sch r)) rows))
        by (rewrite E; now left).
      apply filter_In in Hx. destruct Hx as [Hx1 Hx2].
      apply has_identity_true in Hx2. exfalso. apply Hnot.
      apply first_seen_in. rewrite <- Hx2. now apply in_map. }
    now rewrite Hnone.
Qed.

Lemma mapM_Forall2 {A B : Type} (f : A -> option B) : forall l l',
  mapM f l = Some l' -> Forall2 (fun a b => f a = Some b) l l'.
Proof.
  induction l as [|a l IH]; intros l' H; simpl in H.
  - injection H as <-. constructor.
  - destruct (f a) as [b|] eqn:Ha; [| discriminate].
    destruct (mapM f l) as [bs|]; [| discriminate].
    injection H as <-. constructor; auto.
Qed.

Lemma mapM_total {A B : Type} (f : A -> option B) : forall l,
  (forall a, In a l -> f a <> None) -> mapM f l <> None.
Proof.
  induction l as [|a l IH]; intros H; simpl; [discriminate |].
  destruct (f a) as [b|] eqn:Ha; [| exfalso; eapply H; [now left | exact Ha]].
  destruct (mapM f l) as [bs|] eqn:Hl; [discriminate |].
  exfalso. apply IH; auto. intros a' Ha'. apply H. now right.
Qed.

(** *** Accumulation in the list fields *)

Lemma empty_containers_get {V : Type} (fields : list string) (f : string) :
  In f fields -> dict_get (@empty_containers V fields) f = Some [].
Proof.
  unfold empty_containers.
  assert (Hgen : forall d, In f fields \/ dict_get d f = Some [] ->
                           dict_get (fold_left (fun d g => dict_set d g (@nil V)) fields d) f
                           = Some []).
  { induction fields as [|g fields IH]; intros d H; simpl.
    - destruct H as [[] | H]; exact H.
    - apply IH. destruct (string_dec g f) as [-> | Hne].
      + right. apply dict_get_set_eq.
      + destruct H as [[E | H] | H]; [contradiction | now left |].
        right. now rewrite dict_get_set_ne. }
  intros H. apply Hgen. now left.
Qed.

Lemma extend_get_eq f xs ls acc :
  dict_get ls f = Some acc -> dict_get (extend f xs ls) f = Some (acc ++ xs)%list.
Proof. intros H. unfold extend. now rewrite dict_get_set_eq, H. Qed.

Lemma extend_get_ne f g xs ls : g <> f -> dict_get (extend g xs ls) f = dict_get ls f.
Proof. intros H. unfold extend. now rewrite dict_get_set_ne. Qed.

Lemma fold_list_get row f : forall fields ls acc,
  NoDup fields ->
  dict_get ls f = Some acc ->
  dict_get (fold_left (fold_list row) fields ls) f
  = Some (if in_dec string_dec f fields then (acc ++ list_elements row f)%list else acc).
Proof.
  induction fields as [|g fields IH]; intros ls acc Hnd Hget; [exact Hget |].
  inversion Hnd as [|? ? Hnotin Hnd']; subst. cbn [fold_left].
  destruct (string_dec g f) as [-> | Hne].
  - unfold fold_list at 2. rewrite (IH _ _ Hnd' (extend_get_eq _ _ _ _ Hget)).
    destruct (in_dec string_dec f fields); [contradiction |].
    destruct (in_dec string_dec f (f :: fields)) as [_ | Hno]; [reflexivity |].
    exfalso. apply Hno. now left.
  - unfold fold_list at 2. rewrite (IH (extend g (list_elements row g) ls) acc Hnd')
      by (rewrite extend_get_ne; auto).
    destruct (in_dec string_dec f fields) as [Hin | Hnot];
      destruct (in_dec string_dec f (g :: fields)) as [Hin' | Hnot']; try reflexivity.
    + exfalso. apply Hnot'. now right.
    + exfalso. destruct Hin' as [E | E]; [congruence | contradiction].
Qed.

Section Csv.
Variable coerce_element : element_type -> string -> option scalar.

Lemma fold_csv_get row f : forall fields ls ls' acc,
  NoDup (map fst fields) ->
  dict_get ls f = Some acc ->
  foldM (fold_csv coerce_element row) fields ls = Some ls' ->
  (~ In f (map fst fields) /\ dict_get ls' f = Some acc)
  \/ (exists ty xs, In (f, ty) fields
                    /\ csv_elements coerce_element ty row f = Some xs
                    /\ dict_get ls' f = Some (acc ++ xs)%list).
Proof.
  induction fields as [|[g ty] fields IH]; intros ls ls' acc Hnd Hget Hrun.
  - injection Hrun as <-. left. auto.
  - cbn [map fst] in Hnd. inversion Hnd as [|? ? Hnotin Hnd']; subst.
    cbn [foldM] in Hrun. unfold fold_csv at 1 in Hrun. cbn [fst snd] in Hrun.
    destruct (csv_elements coerce_element ty row g) as [xs|] eqn:Hcsv; [| discriminate].
    destruct (string_dec g f) as [-> | Hne].
    + destruct (IH _ _ _ Hnd' (extend_get_eq _ xs _ _ Hget) Hrun)
        as [[_ H] | (ty' & xs' & Hin & _)].
      * right. exists ty, xs. repeat split; auto. now left.
      * exfalso. apply Hnotin. change f with (fst (f, ty')). now apply in_map.
    + assert (Hget' : dict_get (extend g xs ls) f = Some acc)
        by (rewrite extend_get_ne; auto).
      destruct (IH _ _ _ Hnd' Hget' Hrun) as [[Hno H] | (ty' & xs' & Hin & Hc & H)].
      * left. split; [| exact H]. cbn [map fst]. intros [E | E]; auto.
      * right. exists ty', xs'. repeat split; auto. now right.
Qed.

(** What one row adds to the lists of the record. *)
Lemma fold_row_lists sch rec rec' row f acc :
  NoDup (map fst sch.(csv_list_fields) ++ sch.(list_fields)) ->
  dict_get rec.(lists) f = Some acc ->
  fold_row coerce_element sch rec row = Some rec' ->
  (In f sch.(list_fields) ->
   dict_get rec'.(lists) f = Some (acc ++ list_elements row f)%list)
  /\ (forall ty, In (f, ty) sch.(csv_list_fields) ->
       exists xs, csv_elements coerce_element ty row f = Some xs
                  /\ dict_get rec'.(lists) f = Some (acc ++ xs)%list).
Proof.
  intros Hnd Hget Hrun. unfold fold_row in Hrun.
  destruct (foldM (fold_csv coerce_element row) (csv_list_fields sch) (lists rec))
    as [ls|] eqn:Hcsv; [| discriminate].
  injection Hrun as <-. cbn [lists].
  pose proof (NoDup_app_remove_r _ _ Hnd) as Hnd1.
  pose proof (NoDup_app_remove_l _ _ Hnd) as Hnd2.
  assert (Hdisj : In f (map fst (csv_list_fields sch)) -> In f (list_fields sch) -> False).
  { intros H1 H2. apply in_split in H1. destruct H1 as (l1 & l2 & E).
    rewrite E, <- List.app_assoc in Hnd. apply NoDup_remove_2 in Hnd.
    apply Hnd. rewrite !in_app_iff. auto. }
  destruct (fold_csv_get row f _ _ _ acc Hnd1 Hget Hcsv)
    as [[Hno Hls] | (ty & xs & Hin & Hc & Hls)].
  - split.
    + intros Hf. rewrite (fold_list_get row f _ _ acc Hnd2 Hls).
      destruct (in_dec string_dec f (list_fields sch)); [reflexivity | contradiction].
    + intros ty Hin. exfalso. apply Hno. change f with (fst (f, ty)). now apply in_map.
  - assert (Hfin : In f (map fst (csv_list_fields sch)))
      by (change f with (fst (f, ty)); now apply in_map).
    split; [intros Hf; exfalso; eauto |].
    intros ty' Hin'.
    assert (ty' = ty) as ->.
    { clear - Hnd1 Hin Hin'. induction (csv_list_fields sch) as [|[g t] l IH]; [contradiction |].
      cbn [map fst] in Hnd1. inversion Hnd1 as [|? ? Hnotin Hnd']; subst.
      destruct Hin as [E | Hin]; destruct Hin' as [E' | Hin'].
      - congruence.
      - injection E as -> ->. exfalso. apply Hnotin. change f with (fst (f, ty')). now apply in_map.
      - injection E' as -> ->. exfalso. apply Hnotin. change f with (fst (f, ty)). now apply in_map.
      - auto. }
    exists xs. split; [exact Hc |].
    rewrite (fold_list_get row f _ _ (acc ++ xs)%list Hnd2 Hls).
    destruct (in_dec string_dec f (list_fields sch)); [exfalso; eauto | reflexivity].
Qed.

(** What the rows of a partition add, in row order. *)
Lemma foldM_rows_lists sch f : forall rows rec rec' acc,
  NoDup (map fst sch.(csv_list_fields) ++ sch.(list_fields)) ->
  dict_get rec.(lists) f = Some acc ->
  foldM (fold_row coerce_element sch) rows rec = Some rec' ->
  (In f sch.(list_fields) ->
   dict_get rec'.(lists) f
   = Some (acc ++ flat_map (fun row => list_elements row f) rows)%list)
  /\ (forall ty, In (f, ty) sch.(csv_list_fields) ->
       exists parts,
         mapM (fun row => csv_elements coerce_element ty row f) rows = Some parts
         /\ dict_get rec'.(lists) f = Some (acc ++ concat parts)%list).
Proof.
  induction rows as [|row rows IH]; intros rec rec' acc Hnd Hget Hrun.
  - injection Hrun as <-. split.
    + intros _. simpl. now rewrite List.app_nil_r.
    + intros ty _. exists []. simpl. now rewrite List.app_nil_r.
  - cbn [foldM] in Hrun.
    destruct (fold_row coerce_element sch rec row) as [rec1|] eqn:Hrow; [| discriminate].
    destruct (fold_row_lists sch rec rec1 row f acc Hnd Hget Hrow) as [Hl Hc].
    split.
    + intros Hf. destruct (IH rec1 rec' _ Hnd (Hl Hf) Hrun) as [H _].
      rewrite (H Hf). cbn [flat_map]. now rewrite List.app_assoc.
    + intros ty Hin. destruct (Hc ty Hin) as (xs & Hxs & Hget1).
      destruct (IH rec1 rec' _ Hnd Hget1 Hrun) as [_ H].
      destruct (H ty Hin) as (parts & Hparts & Hget').
      exists (xs :: parts). cbn [mapM concat]. rewrite Hxs, Hparts.
      split; [reflexivity |]. now rewrite Hget', List.app_assoc.
Qed.

(** *** Set fields hold no duplicates *)

Lemma set_insert_nodup x s : NoDup s -> NoDup (set_insert x s).
Proof.
  intros H. unfold set_insert. destruct (in_dec scalar_eq_dec x s); [exact H |].
  apply NoDup_app; [exact H | constructor; [intros [] | constructor] |].
  intros a Ha [<- | []]. contradiction.
Qed.

Lemma fold_set_nodup row : forall fields ss,
  sets_nodup ss -> sets_nodup (fold_left (fold_set row) fields ss).
Proof.
  induction fields as [|g fields IH]; intros ss H; [exact H |].
  cbn [fold_left]. apply IH. unfold fold_set.
  destruct (column row g) as [v|]; [| exact H].
  intros f s Hget. destruct (string_dec g f) as [-> | Hne].
  - rewrite dict_get_set_eq in Hget. injection Hget as <-.
    apply set_insert_nodup. destruct (dict_get ss f) eqn:E; [eapply H; eauto | constructor].
  - rewrite dict_get_set_ne in Hget by assumption. eapply H; eauto.
Qed.

Lemma foldM_rows_sets sch : forall rows rec rec',
  sets_nodup rec.(sets) ->
  foldM (fold_row coerce_element sch) rows rec = Some rec' ->
  sets_nodup rec'.(sets).
Proof.
  induction rows as [|row rows IH]; intros rec rec' H Hrun.
  - injection Hrun as <-. exact H.
  - cbn [foldM] in Hrun.
    destruct (fold_row coerce_element sch rec row) as [rec1|] eqn:Hrow; [| discriminate].
    apply (IH rec1); [| exact Hrun].
    unfold fold_row in Hrow.
    destruct (foldM _ _ _); [| discriminate]. injection Hrow as <-.
    cbn [sets]. now apply fold_set_nodup.
Qed.

Lemma empty_containers_sets_nodup (fields : list string) :
  sets_nodup (empty_containers fields).
Proof.
  unfold empty_containers.
  assert (Hgen : forall d, (forall f s, dict_get d f = Some s -> s = []) ->
                           forall f s,
                             dict_get (fold_left (fun d g => dict_set d g (@nil scalar)) fields d) f
                             = Some s -> s = []).
  { induction fields as [|g fields IH]; intros d Hd; [exact Hd |].
    cbn [fold_left]. apply IH. intros f s Hget.
    destruct (string_dec g f) as [-> | Hne].
    - rewrite dict_get_set_eq in Hget. congruence.
    - rewrite dict_get_set_ne in Hget by assumption. eauto. }
  intros f s Hget. apply Hgen in Hget; [subst; constructor |].
  intros ? ? H. discriminate.
Qed.

End Csv.

End MapperFacts.

(* ===================================================================== *)
(** * Which objects of the store the code writes to *)
(* ===================================================================== *)

Module StoreFacts.
Import Store.

Lemma set_nth_length l o : forall h, List.length (set_nth l o h) = List.length h.
Proof.
  revert l. induction l as [|l IH]; intros [|x h]; simpl; auto.
Qed.

Lemma set_nth_firstn n l o : forall h, n <= l -> firstn n (set_nth l o h) = firstn n h.
Proof.
  revert l. induction n as [|n IH]; intros l h Hle; [reflexivity |].
  destruct l as [|l]; [lia |]. destruct h as [|x h]; [reflexivity |].
  simpl. f_equal. apply IH. lia.
Qed.

Section Rules.
Context {A B : Type}.
Variable n : nat.

Lemma pres_ret (a : A) : preserves n (ret a).
Proof. intros h _. simpl. auto. Qed.

Lemma pres_raise (e : exn) : preserves n (@raise A e).
Proof. intros h _. simpl. auto. Qed.

Lemma pres_bind (m : M A) (k : A -> M B) :
  preserves n m -> (forall a, preserves n (k a)) -> preserves n (bind m k).
Proof.
  intros Hm Hk h Hn. unfold bind. specialize (Hm h Hn).
  destruct (m h) as [[a|e] h']; simpl in *; [| exact Hm].
  destruct Hm as [Hm1 Hm2]. destruct (Hk a h') as [Hk1 Hk2]; [lia |].
  split; [congruence | lia].
Qed.

(** What follows an allocation may assume that the new location lies
    beyond the part of the store to be preserved. *)
Lemma pres_bind_alloc (o : object) (k : loc -> M B) :
  (forall l, n <= l -> preserves n (k l)) -> preserves n (bind (alloc o) k).
Proof.
  intros Hk h Hn. unfold bind, alloc.
  destruct (Hk (List.length h) Hn (h ++ [o])%list) as [Hk1 Hk2].
  - rewrite length_app. lia.
  - rewrite length_app in Hk2. split; [| lia].
    rewrite Hk1, firstn_app. replace (n - List.length h) with 0 by lia.
    simpl. rewrite List.app_nil_r. reflexivity.
Qed.

End Rules.

Section MoreRules.
Variable n : nat.

Lemma pres_load (l : loc) : preserves n (load l).
Proof. intros h _. unfold load. destruct (nth_error h l); simpl; auto. Qed.

Lemma pres_store_at (l : loc) (o : object) : n <= l -> preserves n (store_at l o).
Proof.
  intros Hl h _. unfold store_at. simpl.
  rewrite set_nth_length, set_nth_firstn by assumption. auto.
Qed.

Lemma pres_for_each {A : Type} (xs : list A) (body : A -> M unit) :
  (forall x, preserves n (body x)) -> preserves n (for_each xs body).
Proof.
  intros Hbody. induction xs as [|x xs IH]; simpl.
  - apply pres_ret.
  - apply pres_bind; auto.
Qed.

Lemma pres_list_append (l : loc) (x : value) : n <= l -> preserves n (list_append l x).
Proof.
  intros Hl. unfold list_append. apply pres_bind; [apply pres_load |].
  intros [items | d | q qp tp]; auto using pres_store_at, pres_raise.
Qed.

Lemma pres_dict_setitem (l : loc) (k : string) (x : value) :
  n <= l -> preserves n (dict_setitem l k x).
Proof.
  intros Hl. unfold dict_setitem. apply pres_bind; [apply pres_load |].
  intros [items | d | q qp tp]; auto using pres_store_at, pres_raise.
Qed.

Lemma pres_strings_of (items : list value) : preserves n (strings_of items).
Proof.
  induction items as [|v items IH]; simpl; [apply pres_ret |].
  destruct v; try apply pres_raise.
  apply pres_bind; [exact IH | intros; apply pres_ret].
Qed.

Lemma pres_load_strings (l : loc) : preserves n (load_strings l).
Proof.
  unfold load_strings. apply pres_bind; [apply pres_load |].
  intros [items | d | q qp tp]; auto using pres_strings_of, pres_raise.
Qed.

Lemma pres_update_pair (l : loc) (element : value) :
  n <= l -> preserves n (update_pair l element).
Proof.
  intros Hl. unfold update_pair. destruct element; try apply pres_raise.
  apply pres_bind; [apply pres_load |].
  intros [items | d | q qp tp]; try apply pres_raise.
  destruct (dict_keys d) as [|k [|v [|x ks]]];
    auto using pres_dict_setitem, pres_raise.
Qed.

Lemma pres_dict_update_from (l : loc) (other : value) :
  n <= l -> preserves n (dict_update_from l other).
Proof.
  intros Hl. unfold dict_update_from. destruct other; try apply pres_raise.
  apply pres_bind; [apply pres_load |].
  intros [items | d | q qp tp]; try apply pres_raise;
    apply pres_for_each; intros; auto using pres_dict_setitem, pres_update_pair.
Qed.

(** Reading never writes. *)
Ltac reads :=
  repeat first
    [ apply pres_ret | apply pres_raise | apply pres_load
    | apply pres_bind; [| intros ?]
    | match goal with
      | |- preserves _ (match ?x with _ => _ end) => destruct x
      end ].

Lemma pres_truthy (v : value) : preserves n (truthy v).
Proof. unfold truthy. reads. Qed.

Lemma pres_isinstance_list_or_tuple (v : value) :
  preserves n (isinstance_list_or_tuple v).
Proof. unfold isinstance_list_or_tuple. reads. Qed.

Lemma pres_iter (v : value) : preserves n (iter v).
Proof. unfold iter. reads. Qed.

Lemma pres_len (v : value) : preserves n (len v).
Proof. unfold len. reads. Qed.

Lemma pres_dict_get_method (d : value) (key : string) :
  preserves n (dict_get_method d key).
Proof. unfold dict_get_method. reads. Qed.

Lemma pres_subscript (d : value) (key : string) : preserves n (subscript d key).
Proof. unfold subscript. reads. Qed.

Lemma pres_getattr (data : value) select : preserves n (getattr data select).
Proof. unfold getattr. reads. Qed.

Lemma pres_validate_query_and_params (data : value) :
  preserves n (__validate_query_and_params data).
Proof. unfold __validate_query_and_params. reads. Qed.

(** The functions write to the objects they allocate, and to no other. *)
Lemma pres_parameterize_inner_list (key : string) (vals : value) :
  preserves n (_parameterize_inner_list key vals).
Proof.
  unfold _parameterize_inner_list.
  apply pres_bind_alloc. intros pv Hpv.
  apply pres_bind_alloc. intros pk Hpk.
  apply pres_bind; [apply pres_isinstance_list_or_tuple |]. intros is_seq.
  apply pres_bind.
  - destruct is_seq; cbn [negb].
    + apply pres_bind; [apply pres_iter |]. intros items.
      apply pres_for_each. intros iv.
      apply pres_bind; [now apply pres_dict_setitem |]. intros _.
      now apply pres_list_append.
    + apply pres_bind; [now apply pres_dict_setitem |]. intros _.
      now apply pres_list_append.
  - intros _. apply pres_bind; [apply pres_load_strings |]. intros keys.
    apply pres_ret.
Qed.

Lemma pres_list_loop key vals pv pik : forall items,
  n <= pv -> n <= pik -> preserves n (list_loop key vals pv pik items).
Proof.
  induction items as [|[index v] items IH]; intros Hpv Hpik; cbn [list_loop].
  - apply pres_bind; [apply pres_load_strings | intros; apply pres_ret].
  - destruct (isinstance_tuple v || startswith key "values");
      [| apply pres_parameterize_inner_list].
    apply pres_bind; [apply pres_parameterize_inner_list |]. intros r.
    apply pres_bind; [now apply pres_dict_update_from |]. intros _.
    apply pres_bind; [now apply pres_list_append |]. intros _.
    now apply IH.
Qed.

Lemma pres_parameterize_list (key : string) (vals : value) :
  preserves n (_parameterize_list key vals).
Proof.
  unfold _parameterize_list.
  apply pres_bind_alloc. intros pv Hpv.
  apply pres_bind_alloc. intros pik Hpik.
  apply pres_bind; [apply pres_iter |]. intros items.
  now apply pres_list_loop.
Qed.

Lemma pres_handler (f : handler) name vals legacy_key :
  f = in_column \/ f = not_in_column \/ f = values ->
  preserves n (f name vals legacy_key).
Proof.
  intros [-> | [-> | ->]]; unfold in_column, not_in_column, values;
    (apply pres_bind; [apply pres_truthy |]); intros t;
    destruct t; cbn [negb]; try apply pres_ret; try apply pres_raise;
    (apply pres_bind; [apply pres_parameterize_list | intros; apply pres_ret]).
Qed.

Lemma get_template_cases kw f :
  get_template kw = Some f -> f = in_column \/ f = not_in_column \/ f = values.
Proof.
  unfold get_template.
  destruct (String.eqb kw "in"); [intros [= <-]; auto |].
  destruct (String.eqb kw "not_in"); [intros [= <-]; auto |].
  destruct (String.eqb kw "values"); [intros [= <-]; auto | discriminate].
Qed.

Lemma pres_check_key tp key mk : n <= mk -> preserves n (check_key tp key mk).
Proof.
  intros Hmk. unfold check_key.
  assert (Hrest : preserves n
            (let* v := dict_get_method tp key in
             match v with
             | VNone => list_append mk (VStr key)
             | _ =>
                 if String.eqb key "values" then
                   let* v' := dict_get_method tp key in
                   let* n0 := len v' in
                   if (n0 =? 0)%nat then list_append mk (VStr key) else ret tt
                 else ret tt
             end)).
  { apply pres_bind; [apply pres_dict_get_method |]. intros v.
    assert (Hlen : preserves n
              (if String.eqb key "values" then
                 let* v' := dict_get_method tp key in
                 let* n0 := len v' in
                 if (n0 =? 0)%nat then list_append mk (VStr key) else ret tt
               else ret tt)).
    { destruct (String.eqb key "values"); [| apply pres_ret].
      apply pres_bind; [apply pres_dict_get_method |]. intros v'.
      apply pres_bind; [apply pres_len |]. intros n0.
      destruct (n0 =? 0)%nat; [now apply pres_list_append | apply pres_ret]. }
    destruct v; try exact Hlen. now apply pres_list_append. }
  destruct tp; try exact Hrest. now apply pres_list_append.
Qed.

Lemma pres_validate_loop tp vk : forall ms q,
  n <= vk -> preserves n (validate_loop ms tp q vk).
Proof.
  induction ms as [|g ms IH]; intros q Hvk; cbn [validate_loop]; [apply pres_ret |].
  apply pres_bind; [now apply pres_list_append |]. intros _.
  apply pres_bind_alloc. intros mk Hmk.
  apply pres_bind; [now apply pres_check_key |]. intros _.
  apply pres_bind; [apply pres_load_strings |]. intros missing.
  destruct (0 <? List.length missing)%nat; [apply pres_raise | now apply IH].
Qed.

Lemma pres_validate_keys_clean_query q tp :
  preserves n (__validate_keys_clean_query q tp).
Proof.
  unfold __validate_keys_clean_query.
  apply pres_bind_alloc. intros vk Hvk.
  destruct q; try apply pres_raise.
  apply pres_bind; [now apply pres_validate_loop | intros; apply pres_ret].
Qed.

Lemma pres_template_call data key : preserves n (template_call data key).
Proof.
  unfold template_call.
  destruct (split key "__") as [[|kw [|col [|x parts]]]|e]; try apply pres_raise.
  apply pres_bind; [apply pres_getattr |]. intros tp.
  apply pres_bind; [apply pres_subscript |]. intros v.
  destruct (get_template kw) as [f|] eqn:Hf; [| apply pres_raise].
  apply pres_handler. eapply get_template_cases; eauto.
Qed.

Lemma pres_assemble_loop data params : forall keys q,
  n <= params -> preserves n (assemble_loop data params keys q).
Proof.
  induction keys as [|key keys IH]; intros q Hp; cbn [assemble_loop]; [apply pres_ret |].
  apply pres_bind; [apply pres_template_call |]. intros r.
  apply pres_bind; [apply pres_truthy |]. intros t.
  apply pres_bind; [| intros _; now apply IH].
  destruct t; [now apply pres_dict_update_from | apply pres_ret].
Qed.

Lemma pres_get_query_data data : preserves n (get_query_data data).
Proof.
  unfold get_query_data.
  apply pres_bind; [apply pres_validate_query_and_params |]. intros _.
  apply pres_bind_alloc. intros params Hparams.
  apply pres_bind; [apply pres_getattr |]. intros q.
  apply pres_bind; [apply pres_getattr |]. intros tp.
  apply pres_bind; [apply pres_validate_keys_clean_query |]. intros qk.
  apply pres_bind; [apply pres_getattr |]. intros qp.
  apply pres_bind; [apply pres_truthy |]. intros t.
  apply pres_bind.
  - destruct t; [now apply pres_dict_update_from | apply pres_ret].
  - intros _. apply pres_bind; [apply pres_load_strings |]. intros keys.
    apply pres_bind; [now apply pres_assemble_loop | intros; apply pres_ret].
Qed.

End MoreRules.

End StoreFacts.

(* ===================================================================== *)
(** * The store rendition computes what the first rendition computes *)
(* ===================================================================== *)

Module RefinementFacts.
Import Store Refinement.
#[local] Open Scope list_scope.

Lemma extends_refl h : extends h h.
Proof. exists []. now rewrite List.app_nil_r. Qed.

Lemma extends_app h s t : extends h s -> extends h (s ++ t).
Proof. intros [x ->]. exists (x ++ t). now rewrite List.app_assoc. Qed.

Lemma extends_nth h s l o : extends h s -> nth_error h l = Some o -> nth_error s l = Some o.
Proof.
  intros [t ->] H. rewrite nth_error_app1; [exact H |].
  apply nth_error_Some. congruence.
Qed.

Lemma load_at s l o : nth_error s l = Some o -> load l s = (Ok o, s).
Proof. intros H. unfold load. now rewrite H. Qed.

Lemma nth_error_here {A} (s : list A) a t : nth_error (s ++ a :: t) (List.length s) = Some a.
Proof. rewrite nth_error_app2 by lia. now rewrite Nat.sub_diag. Qed.

Lemma nth_error_next {A} (s : list A) a b t :
  nth_error (s ++ a :: b :: t) (S (List.length s)) = Some b.
Proof.
  rewrite nth_error_app2 by lia.
  replace (S (List.length s) - List.length s) with 1 by lia. reflexivity.
Qed.

Lemma set_nth_here s a o t : set_nth (List.length s) o (s ++ a :: t) = s ++ o :: t.
Proof. induction s as [|x s IH]; simpl; [reflexivity | now rewrite IH]. Qed.

Lemma set_nth_next s a b o t :
  set_nth (S (List.length s)) o (s ++ a :: b :: t) = s ++ a :: o :: t.
Proof.
  induction s as [|x s IH]; [reflexivity |].
  change (set_nth (S (List.length (x :: s))) o ((x :: s) ++ a :: b :: t))
    with (x :: set_nth (S (List.length s)) o (s ++ a :: b :: t)).
  now rewrite IH.
Qed.

(** Running a bind whose first part is known. *)
Lemma bind_ok {A B} (m : M A) (k : A -> M B) s a s' :
  m s = (Ok a, s') -> bind m k s = k a s'.
Proof. intros H. unfold bind. now rewrite H. Qed.

Lemma bind_raise {A B} (m : M A) (k : A -> M B) s e s' :
  m s = (Raise e, s') -> bind m k s = (Raise e, s').
Proof. intros H. unfold bind. now rewrite H. Qed.

Lemma bind_bind {A B C} (m : M A) (k1 : A -> M B) (k2 : B -> M C) s :
  bind (bind m k1) k2 s = bind m (fun a => bind (k1 a) k2) s.
Proof. unfold bind. destruct (m s) as [[a|e] s']; reflexivity. Qed.

Lemma dict_setitem_here s e k v t :
  dict_setitem (List.length s) k v (s ++ ODict e :: t)
  = (Ok tt, s ++ ODict (dict_set e k v) :: t).
Proof.
  unfold dict_setitem. rewrite (bind_ok _ _ _ _ _ (load_at _ _ _ (nth_error_here s _ t))).
  unfold store_at. now rewrite set_nth_here.
Qed.

Lemma list_append_next s a ks x t :
  list_append (S (List.length s)) x (s ++ a :: OList ks :: t)
  = (Ok tt, s ++ a :: OList (ks ++ [x]) :: t).
Proof.
  unfold list_append.
  rewrite (bind_ok _ _ _ _ _ (load_at _ _ _ (nth_error_next s a _ t))).
  unfold store_at. now rewrite set_nth_next.
Qed.

Lemma list_append_here s ks x t :
  list_append (List.length s) x (s ++ OList ks :: t)
  = (Ok tt, s ++ OList (ks ++ [x]) :: t).
Proof.
  unfold list_append.
  rewrite (bind_ok _ _ _ _ _ (load_at _ _ _ (nth_error_here s _ t))).
  unfold store_at. now rewrite set_nth_here.
Qed.

Lemma strings_of_strs names s : strings_of (map VStr names) s = (Ok names, s).
Proof.
  induction names as [|x names IH]; [reflexivity |].
  simpl. unfold bind. now rewrite IH.
Qed.

(** The mapping operations go along on both sides. *)
Lemma rep_dict_set h e d k v p :
  rep_dict h e d -> rep h v p -> rep_dict h (dict_set e k v) (dict_set d k p).
Proof.
  intros H Hv. induction H as [|[k1 v1] [k2 p2] e d [Hk Hvp] H IH]; simpl.
  - constructor; [split; auto | constructor].
  - simpl in Hk. subst k2. destruct (String.eqb k1 k).
    + constructor; [split; auto | exact H].
    + constructor; [split; auto | exact IH].
Qed.

Lemma rep_dict_update h e2 d2 : forall e d,
  rep_dict h e d -> rep_dict h e2 d2 ->
  rep_dict h (dict_update e e2) (dict_update d d2).
Proof.
  intros e d H H2. revert e d H.
  induction H2 as [|[k1 v1] [k2 p2] e2 d2 [Hk Hvp] H2 IH]; intros e d H; [exact H |].
  simpl in Hk. subst k2. rewrite !dict_update_cons. apply IH.
  now apply rep_dict_set.
Qed.

Lemma rep_dict_get h e d k :
  rep_dict h e d ->
  match dict_get e k, dict_get d k with
  | Some v, Some p => rep h v p
  | None, None => True
  | _, _ => False
  end.
Proof.
  intros H. induction H as [|[k1 v1] [k2 p2] e d [Hk Hvp] H IH]; simpl; [exact I |].
  simpl in Hk. subst k2. destruct (String.eqb k1 k); [exact Hvp | exact IH].
Qed.

Lemma rep_dict_keys h e d : rep_dict h e d -> dict_keys e = dict_keys d.
Proof.
  intros H. induction H as [|[k1 v1] [k2 p2] e d [Hk Hvp] H IH]; simpl; [reflexivity |].
  simpl in Hk. now rewrite Hk, IH.
Qed.

Section Reads.
Variables (h s : store).
Hypothesis Hext : extends h s.

Lemma sim_truthy v p : rep h v p -> Store.truthy v s = (Ok (Py.truthy p), s).
Proof.
  intros H. inversion H as [| | | | vs ps Hall | l vs ps Hl Hall]; subst; try reflexivity.
  - destruct Hall; reflexivity.
  - unfold Store.truthy.
    rewrite (bind_ok _ _ _ _ _ (load_at _ _ _ (extends_nth _ _ _ _ Hext Hl))).
    destruct Hall; reflexivity.
Qed.

Lemma sim_isinstance_list_or_tuple v p :
  rep h v p ->
  Store.isinstance_list_or_tuple v s = (Ok (Py.isinstance_list_or_tuple p), s).
Proof.
  intros H. inversion H as [| | | | vs ps Hall | l vs ps Hl Hall]; subst; try reflexivity.
  unfold Store.isinstance_list_or_tuple.
  now rewrite (bind_ok _ _ _ _ _ (load_at _ _ _ (extends_nth _ _ _ _ Hext Hl))).
Qed.

Lemma sim_isinstance_str v p : rep h v p -> Store.isinstance_str v = Py.isinstance_str p.
Proof. intros H. inversion H; reflexivity. Qed.

Lemma sim_isinstance_tuple v p : rep h v p -> Store.isinstance_tuple v = Py.isinstance_tuple p.
Proof. intros H. inversion H; reflexivity. Qed.

Lemma rep_chars c : Forall2 (rep h) (map (fun c => VStr (String c "")) c)
                                    (map (fun c => PStr (String c "")) c).
Proof. induction c; simpl; constructor; auto. constructor. Qed.

Lemma sim_iter v p :
  rep h v p ->
  match Py.iter p with
  | Ok ps => exists vs, Store.iter v s = (Ok vs, s) /\ Forall2 (rep h) vs ps
  | Raise e => Store.iter v s = (Raise e, s)
  end.
Proof.
  intros H. inversion H as [| | | x | vs ps Hall | l vs ps Hl Hall]; subst; simpl;
    try reflexivity.
  - eexists. split; [reflexivity | apply rep_chars].
  - exists vs. split; [reflexivity | exact Hall].
  - exists vs. split; [| exact Hall]. unfold Store.iter.
    now rewrite (bind_ok _ _ _ _ _ (load_at _ _ _ (extends_nth _ _ _ _ Hext Hl))).
Qed.

Lemma sim_len v p :
  rep h v p ->
  Store.len v s = (match Py.len p with Ok n => Ok n | Raise e => Raise e end, s).
Proof.
  intros H. inversion H as [| | | x | vs ps Hall | l vs ps Hl Hall]; subst; simpl;
    try reflexivity.
  - now rewrite (Forall2_length Hall).
  - unfold Store.len.
    rewrite (bind_ok _ _ _ _ _ (load_at _ _ _ (extends_nth _ _ _ _ Hext Hl))).
    now rewrite (Forall2_length Hall).
Qed.

End Reads.

Lemma alloc_two {B} (a b : object) (k : loc -> loc -> M B) s :
  bind (alloc a) (fun pv => bind (alloc b) (fun pk => k pv pk)) s
  = k (List.length s) (S (List.length s)) (s ++ [a; b]).
Proof.
  unfold bind, alloc. rewrite length_app, <- List.app_assoc. simpl.
  now rewrite Nat.add_1_r.
Qed.

Lemma load_strings_next s a names t :
  load_strings (S (List.length s)) (s ++ a :: OList (map VStr names) :: t)
  = (Ok names, s ++ a :: OList (map VStr names) :: t).
Proof.
  unfold load_strings.
  rewrite (bind_ok _ _ _ _ _ (load_at _ _ _ (nth_error_next s a _ t))).
  apply strings_of_strs.
Qed.

Lemma load_strings_here s names t :
  load_strings (List.length s) (s ++ OList (map VStr names) :: t)
  = (Ok names, s ++ OList (map VStr names) :: t).
Proof.
  unfold load_strings.
  rewrite (bind_ok _ _ _ _ _ (load_at _ _ _ (nth_error_here s _ t))).
  apply strings_of_strs.
Qed.

Lemma for_each_setitem_here s t entries : forall e,
  for_each entries (fun kv => dict_setitem (List.length s) (fst kv) (snd kv))
           (s ++ ODict e :: t)
  = (Ok tt, s ++ ODict (dict_update e entries) :: t).
Proof.
  induction entries as [|[k v] entries IH]; intros e; [reflexivity |].
  cbn [for_each]. rewrite (bind_ok _ _ _ _ _ (dict_setitem_here s e k v t)).
  rewrite IH. reflexivity.
Qed.

Section Inner.
Variables (h s : store).
Hypothesis Hext : extends h s.

Lemma sim_inner_loop key t : forall vs ps,
  Forall2 (rep h) vs ps ->
  forall index e d names,
    rep_dict h e d ->
    exists e',
      for_each (combine (seq index (List.length vs)) vs)
        (fun iv =>
           bind (dict_setitem (List.length s)
                   (replace key "." "_" ++ "_" ++ str (fst iv))%string (snd iv))
                (fun _ => list_append (S (List.length s))
                            (VStr (replace key "." "_" ++ "_" ++ str (fst iv))%string)))
        (s ++ ODict e :: OList (map VStr names) :: t)
      = (Ok tt,
         s ++ ODict e'
           :: OList (map VStr (snd (Templates.inner_loop key ps index d names))) :: t)
      /\ rep_dict h e' (fst (Templates.inner_loop key ps index d names)).
Proof.
  induction 1 as [|v p vs ps Hv Hall IH]; intros index e d names Hd.
  - exists e. split; [reflexivity | exact Hd].
  - cbn [List.length seq combine for_each Templates.inner_loop].
    cbn [fst snd].
    destruct (IH (S index) _ _ (names ++ [(replace key "." "_" ++ "_" ++ str index)%string])
                 (rep_dict_set h e d (replace key "." "_" ++ "_" ++ str index)%string
                               v p Hd Hv))
      as (e' & Hrun & Hrep).
    exists e'. split; [| exact Hrep].
    rewrite bind_bind, (bind_ok _ _ _ _ _ (dict_setitem_here s e _ v _)).
    rewrite (bind_ok _ _ _ _ _ (list_append_next s _ _ _ _)).
    rewrite map_app in Hrun. exact Hrun.
Qed.

Lemma sim_parameterize_inner_list key v p :
  rep h v p ->
  exists e names,
    Store._parameterize_inner_list key v s
    = (Ok (fst (Templates._parameterize_inner_list key p), VRef (List.length s)),
       s ++ [ODict e; OList names])
    /\ rep_dict h e (snd (Templates._parameterize_inner_list key p)).
Proof.
  intros Hv.
  assert (Hext' : extends h (s ++ [ODict []; OList []])) by now apply extends_app.
  pose proof (sim_isinstance_list_or_tuple h _ Hext' v p Hv) as Hseq.
  pose proof (sim_iter h _ Hext' v p Hv) as Hiter.
  assert (Hscalar :
            Py.isinstance_list_or_tuple p = false ->
            exists e names,
              Store._parameterize_inner_list key v s
              = (Ok (fst (Templates._parameterize_inner_list key p), VRef (List.length s)),
                 s ++ [ODict e; OList names])
              /\ rep_dict h e (snd (Templates._parameterize_inner_list key p))).
  { intros Hno. exists [(key, v)], [VStr key]. split.
    - unfold Store._parameterize_inner_list. rewrite alloc_two.
      rewrite (bind_ok _ _ _ _ _ Hseq), Hno. cbn [negb].
      rewrite !bind_bind, (bind_ok _ _ _ _ _ (dict_setitem_here s [] key v _)).
      rewrite (bind_ok _ _ _ _ _ (list_append_next s _ [] (VStr key) [])).
      rewrite (bind_ok _ _ _ _ _ (load_strings_next s _ [key] [])).
      destruct p; try discriminate; reflexivity.
    - destruct p; try discriminate;
        (constructor; [split; [reflexivity | exact Hv] | constructor]). }
  assert (Hsequence :
            forall ps, Py.iter p = Ok ps -> Py.isinstance_list_or_tuple p = true ->
            Templates.inner_locals key p = Templates.inner_loop key ps 0 [] [] ->
            exists e names,
              Store._parameterize_inner_list key v s
              = (Ok (fst (Templates._parameterize_inner_list key p), VRef (List.length s)),
                 s ++ [ODict e; OList names])
              /\ rep_dict h e (snd (Templates._parameterize_inner_list key p))).
  { intros ps Hps Hyes Hlocals. rewrite Hps in Hiter.
    destruct Hiter as (vs & Hrun & Hall).
    destruct (sim_inner_loop key [] vs ps Hall 0 [] [] [] (Forall2_nil _))
      as (e' & Hloop & Hrep).
    exists e', (map VStr (snd (Templates.inner_loop key ps 0 [] []))). split.
    - unfold Store._parameterize_inner_list. rewrite alloc_two.
      rewrite (bind_ok _ _ _ _ _ Hseq), Hyes. cbn [negb].
      rewrite !bind_bind, (bind_ok _ _ _ _ _ Hrun).
      unfold enumerate. rewrite (bind_ok _ _ _ _ _ Hloop).
      rewrite (bind_ok _ _ _ _ _ (load_strings_next s _ _ [])).
      unfold Templates._parameterize_inner_list. rewrite Hlocals.
      destruct (Templates.inner_loop key ps 0 [] []) as [pv pk]. reflexivity.
    - unfold Templates._parameterize_inner_list. rewrite Hlocals.
      destruct (Templates.inner_loop key ps 0 [] []) as [pv pk]. exact Hrep. }
  destruct p; try (apply Hscalar; reflexivity);
    eapply Hsequence; reflexivity.
Qed.

End Inner.

Lemma app_cons2_assoc {A} (s : list A) a b g x :
  (s ++ a :: b :: g) ++ x = s ++ a :: b :: (g ++ x).
Proof. now rewrite <- List.app_assoc. Qed.

Lemma app_cons1_assoc {A} (s : list A) a g x :
  (s ++ a :: g) ++ x = s ++ a :: (g ++ x).
Proof. now rewrite <- List.app_assoc. Qed.

Lemma dict_update_from_here s e t l ei :
  nth_error (s ++ ODict e :: t) l = Some (ODict ei) ->
  dict_update_from (List.length s) (VRef l) (s ++ ODict e :: t)
  = (Ok tt, s ++ ODict (dict_update e ei) :: t).
Proof.
  intros Hl. unfold dict_update_from.
  rewrite (bind_ok _ _ _ _ _ (load_at _ _ _ Hl)).
  apply for_each_setitem_here.
Qed.

Section ListLoop.
Variables (h s : store).
Hypothesis Hext : extends h s.

Lemma sim_list_loop key vals pvals :
  rep h vals pvals ->
  forall vs ps,
    Forall2 (rep h) vs ps ->
    forall index e d frags g,
      rep_dict h e d ->
      exists l e' fresh,
        Store.list_loop key vals (List.length s) (S (List.length s))
          (combine (seq index (List.length vs)) vs)
          (s ++ ODict e :: OList (map VStr frags) :: g)
        = (Ok (fst (Templates.list_loop key pvals ps index d frags), VRef l), s ++ fresh)
        /\ nth_error (s ++ fresh) l = Some (ODict e')
        /\ rep_dict h e' (snd (Templates.list_loop key pvals ps index d frags)).
Proof.
  intros Hvals. induction 1 as [|v p vs ps Hv Hall IH]; intros index e d frags g Hd.
  - exists (List.length s), e. eexists. split; [| split].
    + cbn [List.length seq combine Store.list_loop].
      rewrite (bind_ok _ _ _ _ _ (load_strings_next s _ frags g)). reflexivity.
    + apply nth_error_here.
    + exact Hd.
  - cbn [List.length seq combine Store.list_loop Templates.list_loop].
    rewrite (sim_isinstance_tuple h v p Hv).
    set (st := s ++ ODict e :: OList (map VStr frags) :: g).
    assert (Hst : extends h st) by (apply extends_app; exact Hext).
    destruct (Py.isinstance_tuple p || startswith key "values").
    + destruct (sim_parameterize_inner_list h st Hst (key ++ "_" ++ str index)%string v p Hv)
        as (ei & names & Hrun & Hrep).
      destruct (Templates._parameterize_inner_list (key ++ "_" ++ str index)%string p)
        as [frag inner] eqn:Hpure.
      cbn [fst snd] in Hrun, Hrep.
      destruct (IH (S index) (dict_update e ei) (dict_update d inner)
                   (frags ++ [frag]) (g ++ [ODict ei; OList names])
                   (rep_dict_update h ei inner e d Hd Hrep))
        as (l & e' & fresh & Hloop & Hl & He').
      exists l, e', fresh. split; [| split; assumption].
      rewrite (bind_ok _ _ _ _ _ Hrun). cbn [fst snd].
      assert (Hinner : nth_error (s ++ ODict e :: OList (map VStr frags)
                                         :: (g ++ [ODict ei; OList names]))
                                 (List.length st) = Some (ODict ei)).
      { rewrite <- app_cons2_assoc. apply nth_error_here. }
      unfold st at 2. rewrite app_cons2_assoc.
      rewrite (bind_ok _ _ _ _ _ (dict_update_from_here s e _ (List.length st) ei Hinner)).
      rewrite (bind_ok _ _ _ _ _ (list_append_next s _ _ _ _)).
      rewrite map_app in Hloop. exact Hloop.
    + destruct (sim_parameterize_inner_list h st Hst key vals pvals Hvals)
        as (e2 & names & Hrun & Hrep).
      exists (List.length st), e2. eexists. split; [| split].
      * rewrite Hrun. unfold st. rewrite app_cons2_assoc. reflexivity.
      * rewrite <- app_cons2_assoc. apply nth_error_here.
      * exact Hrep.
Qed.

Lemma sim_parameterize_list key v p :
  rep h v p ->
  match Templates._parameterize_list key p with
  | Ok (frag, d) =>
      exists l e fresh,
        Store._parameterize_list key v s = (Ok (frag, VRef l), s ++ fresh)
        /\ nth_error (s ++ fresh) l = Some (ODict e)
        /\ rep_dict h e d
  | Raise ex => exists fresh, Store._parameterize_list key v s = (Raise ex, s ++ fresh)
  end.
Proof.
  intros Hv. unfold Templates._parameterize_list, Store._parameterize_list.
  rewrite alloc_two, (sim_isinstance_str h v p Hv).
  assert (Hext' : extends h (s ++ [ODict []; OList []])) by now apply extends_app.
  assert (Hnorm : rep h (if Py.isinstance_str p then VTuple [v] else v)
                        (if Py.isinstance_str p then PTuple [p] else p)).
  { destruct (Py.isinstance_str p); [| exact Hv].
    constructor. constructor; [exact Hv | constructor]. }
  pose proof (sim_iter h _ Hext' _ _ Hnorm) as Hiter.
  destruct (Py.iter (if Py.isinstance_str p then PTuple [p] else p)) as [ps|ex];
    cbn [Py.bind].
  - destruct Hiter as (vs & Hrun & Hall).
    destruct (sim_list_loop key _ _ Hnorm vs ps Hall 0 [] [] [] [] (Forall2_nil _))
      as (l & e & fresh & Hloop & Hl & He).
    destruct (Templates.list_loop key (if Py.isinstance_str p then PTuple [p] else p)
                                  ps 0 [] []) as [frag d].
    exists l, e, fresh. split; [| split; assumption].
    rewrite (bind_ok _ _ _ _ _ Hrun). exact Hloop.
  - exists [ODict []; OList []]. now rewrite (bind_raise _ _ _ _ _ Hiter).
Qed.

End ListLoop.

Lemma get_template_paired kw :
  match Store.get_template kw, Templates.get_template kw with
  | Some f, Some pf => paired f pf
  | None, None => True
  | _, _ => False
  end.
Proof.
  unfold Store.get_template, Templates.get_template, paired.
  destruct (String.eqb kw "in"); [auto |].
  destruct (String.eqb kw "not_in"); [auto |].
  destruct (String.eqb kw "values"); auto.
Qed.

Section Calls.
Variables (h s : store).
Hypothesis Hext : extends h s.

Lemma sim_handler f pf name v p lk :
  paired f pf -> rep h v p ->
  match pf name p lk with
  | Ok pr => exists r fresh, f name v lk s = (Ok r, s ++ fresh)
                             /\ rep_result h (s ++ fresh) r pr
  | Raise ex => exists fresh, f name v lk s = (Raise ex, s ++ fresh)
  end.
Proof.
  intros Hpair Hv.
  pose proof (sim_truthy h s Hext v p Hv) as Ht.
  pose proof (sim_parameterize_list h s Hext (Templates.key_name_of name lk) v p Hv) as Hp.
  destruct Hpair as [[-> ->] | [[-> ->] | [-> ->]]];
    unfold Store.in_column, Store.not_in_column, Store.values,
           Templates.in_column, Templates.not_in_column, Templates.values;
    rewrite (bind_ok _ _ _ _ _ Ht);
    (destruct (Py.truthy p); cbn [negb];
     [ destruct (Templates._parameterize_list (Templates.key_name_of name lk) p)
         as [[frag d]|ex]; cbn [Py.bind];
       [ destruct Hp as (l & e & fresh & Hrun & Hl & He);
         rewrite (bind_ok _ _ _ _ _ Hrun);
         eexists; exists fresh; split; [reflexivity |];
         split; [reflexivity | exists l, e; auto]
       | destruct Hp as (fresh & Hrun);
         rewrite (bind_raise _ _ _ _ _ Hrun); exists fresh; reflexivity ]
     | ]).
  - eexists. exists []. rewrite List.app_nil_r. split; [reflexivity |]. split; reflexivity.
  - eexists. exists []. rewrite List.app_nil_r. split; [reflexivity |]. split; reflexivity.
  - exists []. rewrite List.app_nil_r. reflexivity.
Qed.

Lemma sim_subscript tpv tp key :
  rep_template_params h tpv tp ->
  match QueryUtils.subscript tp key with
  | Ok p => exists v, Store.subscript tpv key s = (Ok v, s) /\ rep h v p
  | Raise ex => Store.subscript tpv key s = (Raise ex, s)
  end.
Proof.
  intros Htp. destruct tp as [d|]; simpl in Htp.
  - destruct Htp as (l & e & -> & Hl & He).
    unfold QueryUtils.subscript, Store.subscript.
    rewrite (bind_ok _ _ _ _ _ (load_at _ _ _ (extends_nth _ _ _ _ Hext Hl))).
    pose proof (rep_dict_get h e d key He) as Hget.
    destruct (dict_get e key) as [v|], (dict_get d key) as [p|]; try contradiction.
    + exists v. split; [reflexivity | exact Hget].
    + reflexivity.
  - subst tpv. reflexivity.
Qed.

Lemma sim_template_call l q qp tpv tp key :
  nth_error h l = Some (OQueryData q qp tpv) ->
  rep_template_params h tpv tp ->
  match QueryUtils.template_call tp key with
  | Ok pr => exists r fresh, Store.template_call (VRef l) key s = (Ok r, s ++ fresh)
                             /\ rep_result h (s ++ fresh) r pr
  | Raise ex => exists fresh, Store.template_call (VRef l) key s = (Raise ex, s ++ fresh)
  end.
Proof.
  intros Hl Htp. unfold QueryUtils.template_call, Store.template_call.
  assert (Hnil : forall (A : Type) (x : result A), exists fresh : store,
               (x, s) = (x, s ++ fresh))
    by (intros; exists []; now rewrite List.app_nil_r).
  destruct (split key "__") as [parts|ex]; cbn [Py.bind]; [| apply Hnil].
  destruct parts as [|kw [|col [|x parts]]]; try apply Hnil.
  unfold data_template_params, getattr.
  rewrite bind_bind, (bind_ok _ _ _ _ _ (load_at _ _ _ (extends_nth _ _ _ _ Hext Hl))).
  cbn [bind ret].
  pose proof (sim_subscript tpv tp key Htp) as Hsub.
  destruct (QueryUtils.subscript tp key) as [p|ex]; cbn [Py.bind].
  - destruct Hsub as (v & Hrun & Hv). rewrite (bind_ok _ _ _ _ _ Hrun).
    pose proof (get_template_paired kw) as Hpair.
    destruct (Store.get_template kw) as [f|], (Templates.get_template kw) as [pf|];
      try contradiction.
    + apply sim_handler; assumption.
    + apply Hnil.
  - rewrite (bind_raise _ _ _ _ _ Hsub). apply Hnil.
Qed.

End Calls.

Lemma alloc_one {B} (a : object) (k : loc -> M B) s :
  bind (alloc a) k s = k (List.length s) (s ++ [a]).
Proof. reflexivity. Qed.

Lemma rep_none_inv h v : rep h v PNone -> v = VNone.
Proof. intros H. inversion H. reflexivity. Qed.

Lemma rep_not_none h v p : rep h v p -> p <> PNone -> v <> VNone.
Proof. intros H Hp ->. inversion H. congruence. Qed.

Lemma sim_dict_get_method h tpv st d key :
  rep_template_params h tpv (Some d) ->
  extends h st ->
  exists v, Store.dict_get_method tpv key st = (Ok v, st)
            /\ match dict_get d key with
               | Some p => rep h v p
               | None => v = VNone
               end.
Proof.
  intros Htp Hext. simpl in Htp. destruct Htp as (l & e & -> & Hl & He).
  unfold Store.dict_get_method.
  rewrite (bind_ok _ _ _ _ _ (load_at _ _ _ (extends_nth _ _ _ _ Hext Hl))).
  pose proof (rep_dict_get h e d key He) as Hget.
  destruct (dict_get e key) as [v|], (dict_get d key) as [p|]; try contradiction;
    eexists; split; try reflexivity. exact Hget.
Qed.

Lemma sim_check_key h tpv tp st key :
  rep_template_params h tpv tp ->
  extends h st ->
  match missing_keys_of tp key with
  | Ok mk =>
      Store.check_key tpv key (List.length st) (st ++ [OList []])
      = (Ok tt, st ++ [OList (map VStr mk)])
  | Raise ex =>
      Store.check_key tpv key (List.length st) (st ++ [OList []])
      = (Raise ex, st ++ [OList []])
  end.
Proof.
  intros Htp Hext.
  assert (Happend : list_append (List.length st) (VStr key) (st ++ [OList []])
                    = (Ok tt, st ++ [OList (map VStr [key])]))
    by apply list_append_here.
  assert (Hext' : extends h (st ++ [OList []])) by now apply extends_app.
  unfold missing_keys_of. destruct tp as [d|].
  - destruct (sim_dict_get_method h tpv (st ++ [OList []]) d key Htp Hext') as (v & Hrun & Hv).
    assert (Hnotnone : tpv <> VNone).
    { simpl in Htp. destruct Htp as (l & e & -> & _). discriminate. }
    assert (Hbody :
              bind (dict_get_method tpv key)
                   (fun v =>
                      match v with
                      | VNone => list_append (List.length st) (VStr key)
                      | _ =>
                          if String.eqb key "values" then
                            bind (dict_get_method tpv key)
                                 (fun v' =>
                                    bind (Store.len v')
                                         (fun n => if (n =? 0)%nat
                                                   then list_append (List.length st) (VStr key)
                                                   else ret tt))
                          else ret tt
                      end) (st ++ [OList []])
              = match (if get_is_none d key then Ok [key]
                       else if String.eqb key "values" then
                              match dict_get d key with
                              | Some v => Py.bind (Py.len v)
                                            (fun n => Ok (if (n =? 0)%nat then [key] else []))
                              | None => Raise TypeError
                              end
                            else Ok []) with
                | Ok mk => (Ok tt, st ++ [OList (map VStr mk)])
                | Raise ex => (Raise ex, st ++ [OList []])
                end).
    { rewrite (bind_ok _ _ _ _ _ Hrun). unfold get_is_none.
      destruct (dict_get d key) as [p|]; [| subst v; exact Happend].
      destruct (String.eqb key "values") eqn:Ekey.
      - pose proof (sim_len h _ Hext' v p Hv) as Hlen.
        inversion Hv as [| | | x | vs ps Hall | l vs ps Hl Hall]; subst;
          try exact Happend;
          rewrite (bind_ok _ _ _ _ _ Hrun);
          (destruct (Py.len _) as [n|ex] eqn:En;
           [ rewrite (bind_ok _ _ _ _ _ Hlen); cbn [Py.bind];
             destruct (n =? 0)%nat; [exact Happend | reflexivity]
           | now rewrite (bind_raise _ _ _ _ _ Hlen) ]).
      - inversion Hv; subst; try exact Happend; reflexivity. }
    assert (Hcheck : Store.check_key tpv key (List.length st) (st ++ [OList []])
                     = bind (dict_get_method tpv key)
                   (fun v =>
                      match v with
                      | VNone => list_append (List.length st) (VStr key)
                      | _ =>
                          if String.eqb key "values" then
                            bind (dict_get_method tpv key)
                                 (fun v' =>
                                    bind (Store.len v')
                                         (fun n => if (n =? 0)%nat
                                                   then list_append (List.length st) (VStr key)
                                                   else ret tt))
                          else ret tt
                      end) (st ++ [OList []]))
      by (unfold Store.check_key; destruct tpv; try contradiction; reflexivity).
    rewrite Hcheck, Hbody.
    destruct (if get_is_none d key then _ else _); reflexivity.
  - simpl in Htp. subst tpv. exact Happend.
Qed.

Lemma sim_validate_loop h tpv tp s :
  rep_template_params h tpv tp ->
  extends h s ->
  forall ms q vks g,
    match QueryUtils.validate_loop ms tp q vks with
    | Ok (q', keys) =>
        exists g', Store.validate_loop ms tpv q (List.length s)
                     (s ++ OList (map VStr vks) :: g)
                   = (Ok q', s ++ OList (map VStr keys) :: g')
    | Raise ex =>
        exists fresh, Store.validate_loop ms tpv q (List.length s)
                        (s ++ OList (map VStr vks) :: g)
                      = (Raise ex, s ++ fresh)
    end.
Proof.
  intros Htp Hext. induction ms as [|groups ms IH]; intros q vks g.
  - exists g. reflexivity.
  - cbn [QueryUtils.validate_loop Store.validate_loop].
    set (key := key_of_groups groups).
    set (st := s ++ OList (map VStr (vks ++ [key])) :: g).
    assert (Hst : extends h st) by now apply extends_app.
    pose proof (sim_check_key h tpv tp st key Htp Hst) as Hcheck.
    assert (Hstart :
              forall k : unit -> M string,
                bind (list_append (List.length s) (VStr key)) k
                     (s ++ OList (map VStr vks) :: g)
                = k tt st).
    { intros k. rewrite (bind_ok _ _ _ _ _ (list_append_here s _ _ g)).
      unfold st. now rewrite map_app. }
    destruct (missing_keys_of tp key) as [mk|ex]; cbn [Py.bind].
    + assert (Hload : load_strings (List.length st) (st ++ [OList (map VStr mk)])
                      = (Ok mk, st ++ [OList (map VStr mk)]))
        by apply load_strings_here.
      destruct (0 <? List.length mk)%nat eqn:Emk.
      * exists (OList (map VStr (vks ++ [key])) :: g ++ [OList (map VStr mk)]).
        rewrite Hstart, alloc_one, (bind_ok _ _ _ _ _ Hcheck), (bind_ok _ _ _ _ _ Hload), Emk.
        unfold st. now rewrite app_cons1_assoc.
      * specialize (IH (replace q (item groups 0) (strip (item groups 0)))
                       (vks ++ [key]) (g ++ [OList (map VStr mk)])).
        destruct (QueryUtils.validate_loop ms tp
                    (replace q (item groups 0) (strip (item groups 0))) (vks ++ [key]))
          as [[q' keys]|ex]; destruct IH as (x & IH); exists x;
          rewrite Hstart, alloc_one, (bind_ok _ _ _ _ _ Hcheck),
                  (bind_ok _ _ _ _ _ Hload), Emk;
          unfold st; rewrite app_cons1_assoc; exact IH.
    + exists (OList (map VStr (vks ++ [key])) :: g ++ [OList []]).
      rewrite Hstart, alloc_one, (bind_raise _ _ _ _ _ Hcheck).
      unfold st. now rewrite app_cons1_assoc.
Qed.

Lemma sim_validate_keys_clean_query h tpv tp s q :
  rep_template_params h tpv tp ->
  extends h s ->
  match QueryUtils.__validate_keys_clean_query q tp with
  | Ok (q', keys) =>
      exists g', Store.__validate_keys_clean_query (VStr q) tpv s
                 = (Ok (q', List.length s), s ++ OList (map VStr keys) :: g')
  | Raise ex =>
      exists fresh, Store.__validate_keys_clean_query (VStr q) tpv s
                    = (Raise ex, s ++ fresh)
  end.
Proof.
  intros Htp Hext.
  unfold QueryUtils.__validate_keys_clean_query, Store.__validate_keys_clean_query.
  rewrite alloc_one.
  pose proof (sim_validate_loop h tpv tp s Htp Hext
                (Re.findall LIST_TEMPLATE_REGEX LIST_TEMPLATE_GROUPS q) q [] []) as H.
  destruct (QueryUtils.validate_loop _ tp q []) as [[q' keys]|ex];
    destruct H as (x & H); exists x.
  - now rewrite (bind_ok _ _ _ _ _ H).
  - now rewrite (bind_raise _ _ _ _ _ H).
Qed.

Lemma rep_dict_nonempty h e d :
  rep_dict h e d ->
  match e with [] => false | _ :: _ => true end
  = match d with [] => false | _ :: _ => true end.
Proof. intros H. destruct H; reflexivity. Qed.

Lemma sim_update_from_seq h t : forall vs ds,
  Forall2 (rep_dict_ref h) vs ds ->
  forall e0 p0,
    rep_dict h e0 p0 ->
    match update_from_seq p0 ds with
    | Ok p1 =>
        exists e1, for_each vs (update_pair (List.length h)) (h ++ ODict e0 :: t)
                   = (Ok tt, h ++ ODict e1 :: t)
                   /\ rep_dict h e1 p1
    | Raise ex =>
        exists e1, for_each vs (update_pair (List.length h)) (h ++ ODict e0 :: t)
                   = (Raise ex, h ++ ODict e1 :: t)
    end.
Proof.
  induction 1 as [|v d vs ds Hv Hall IH]; intros e0 p0 H0.
  - exists e0. split; [reflexivity | exact H0].
  - cbn [update_from_seq for_each].
    destruct Hv as (le & ee & -> & Hle & Hee).
    assert (Hload : load le (h ++ ODict e0 :: t) = (Ok (ODict ee), h ++ ODict e0 :: t))
      by (apply load_at, (extends_nth h); [eexists; reflexivity | exact Hle]).
    assert (Hstep :
              update_pair (List.length h) (VRef le) (h ++ ODict e0 :: t)
              = match dict_keys d with
                | [k; x] => (Ok tt, h ++ ODict (dict_set e0 k (VStr x)) :: t)
                | _ => (Raise ValueError, h ++ ODict e0 :: t)
                end).
    { unfold update_pair. rewrite (bind_ok _ _ _ _ _ Hload).
      rewrite (rep_dict_keys h ee d Hee).
      destruct (dict_keys d) as [|k [|x [|y ks]]]; try reflexivity.
      apply dict_setitem_here. }
    destruct (dict_keys d) as [|k [|x [|y ks]]];
      try (exists e0; now rewrite (bind_raise _ _ _ _ _ Hstep)).
    specialize (IH (dict_set e0 k (VStr x)) (dict_set p0 k (PStr x))
                   (rep_dict_set h e0 p0 k _ _ H0 (rep_str h x))).
    destruct (update_from_seq (dict_set p0 k (PStr x)) ds) as [p1|ex].
    + destruct IH as (e1 & Hrun & He1). exists e1. split; [| exact He1].
      now rewrite (bind_ok _ _ _ _ _ Hstep).
    + destruct IH as (e1 & Hrun). exists e1.
      now rewrite (bind_ok _ _ _ _ _ Hstep).
Qed.

Lemma sim_merge_query_params h t qpv qp :
  rep_query_params h qpv qp ->
  match merge_query_params [] qp with
  | Ok p0 =>
      exists e0,
        bind (Store.truthy qpv)
             (fun b => if b then dict_update_from (List.length h) qpv else ret tt)
             (h ++ ODict [] :: t)
        = (Ok tt, h ++ ODict e0 :: t)
        /\ rep_dict h e0 p0
  | Raise ex =>
      exists e0,
        bind (Store.truthy qpv)
             (fun b => if b then dict_update_from (List.length h) qpv else ret tt)
             (h ++ ODict [] :: t)
        = (Raise ex, h ++ ODict e0 :: t)
  end.
Proof.
  intros Hqp.
  assert (Hext : extends h (h ++ ODict [] :: t)) by (eexists; reflexivity).
  destruct qp as [[d | ds]|]; simpl in Hqp.
  - destruct Hqp as (l & e & -> & Hl & He).
    pose proof (extends_nth _ _ _ _ Hext Hl) as Hl'.
    unfold Store.truthy. rewrite bind_bind, (bind_ok _ _ _ _ _ (load_at _ _ _ Hl')).
    cbn [ret bind]. rewrite (rep_dict_nonempty h e d He).
    destruct d as [|kv d].
    + exists []. split; [reflexivity | constructor].
    + exists (dict_update [] e). split.
      * apply dict_update_from_here. exact Hl'.
      * cbn [merge_query_params]. apply rep_dict_update; [constructor | exact He].
  - destruct Hqp as (l & vs & -> & Hl & Hall).
    pose proof (extends_nth _ _ _ _ Hext Hl) as Hl'.
    unfold Store.truthy. rewrite bind_bind, (bind_ok _ _ _ _ _ (load_at _ _ _ Hl')).
    cbn [ret bind]. destruct Hall as [|v d vs ds Hv Hall].
    + exists []. split; [reflexivity | constructor].
    + cbn [merge_query_params].
      pose proof (sim_update_from_seq h t (v :: vs) (d :: ds)
                    (Forall2_cons _ _ Hv Hall) [] [] (Forall2_nil _)) as Hseq.
      unfold dict_update_from. rewrite (bind_ok _ _ _ _ _ (load_at _ _ _ Hl')).
      exact Hseq.
  - subst qpv. exists []. split; [reflexivity | constructor].
Qed.

Lemma sim_assemble_loop h l q0 qp tpv tp :
  nth_error h l = Some (OQueryData q0 qp tpv) ->
  rep_template_params h tpv tp ->
  forall keys q e p g,
    rep_dict h e p ->
    match QueryUtils.assemble_loop tp keys q p with
    | Ok (sql, params) =>
        exists e' g',
          Store.assemble_loop (VRef l) (List.length h) keys q (h ++ ODict e :: g)
          = (Ok sql, h ++ ODict e' :: g')
          /\ rep_dict h e' params
    | Raise ex =>
        exists fresh,
          Store.assemble_loop (VRef l) (List.length h) keys q (h ++ ODict e :: g)
          = (Raise ex, h ++ fresh)
    end.
Proof.
  intros Hl Htp. induction keys as [|key keys IH]; intros q e p g He.
  - exists e, g. split; [reflexivity | exact He].
  - cbn [QueryUtils.assemble_loop Store.assemble_loop].
    set (st := h ++ ODict e :: g).
    assert (Hst : extends h st) by (eexists; reflexivity).
    pose proof (sim_template_call h st Hst l q0 qp tpv tp key Hl Htp) as Hcall.
    destruct (QueryUtils.template_call tp key) as [[frag pd]|ex]; cbn [Py.bind].
    + destruct Hcall as ([frag' rv] & fresh & Hrun & Hfrag & Hpd).
      cbn [fst snd] in Hfrag, Hpd. subst frag'.
      assert (Hstore : st ++ fresh = h ++ ODict e :: (g ++ fresh))
        by (unfold st; apply app_cons1_assoc).
      rewrite Hstore in Hrun, Hpd.
      rewrite (bind_ok _ _ _ _ _ Hrun). cbn [fst snd].
      destruct pd as [d|].
      * destruct Hpd as (l' & e' & -> & Hl' & He').
        unfold Store.truthy. rewrite !bind_bind, (bind_ok _ _ _ _ _ (load_at _ _ _ Hl')).
        cbn [ret bind]. rewrite (rep_dict_nonempty h e' d He').
        assert (Hmerge :
                  exists e2,
                    (if match d with [] => false | _ :: _ => true end
                     then dict_update_from (List.length h) (VRef l')
                     else ret tt) (h ++ ODict e :: (g ++ fresh))
                    = (Ok tt, h ++ ODict e2 :: (g ++ fresh))
                    /\ rep_dict h e2
                         (if truthy_dict (Some d) then dict_update p d else p)).
        { destruct d as [|kv d]; cbn [truthy_dict].
          - exists e. split; [reflexivity | exact He].
          - exists (dict_update e e'). split.
            + now apply dict_update_from_here.
            + now apply rep_dict_update. }
        destruct Hmerge as (e2 & Hm & He2).
        specialize (IH (replace q ("{" ++ key ++ "}") (" " ++ frag ++ " "))
                       e2 _ (g ++ fresh) He2).
        destruct (QueryUtils.assemble_loop tp keys _ _) as [[sql params]|ex].
        -- destruct IH as (e3 & g3 & Hloop & He3). exists e3, g3.
           split; [| exact He3]. now rewrite (bind_ok _ _ _ _ _ Hm).
        -- destruct IH as (f3 & Hloop). exists f3.
           now rewrite (bind_ok _ _ _ _ _ Hm).
      * rewrite Hpd. cbn [Store.truthy ret bind]. apply IH. exact He.
    + destruct Hcall as (fresh & Hrun).
      rewrite (bind_raise _ _ _ _ _ Hrun). unfold st.
      exists (ODict e :: g ++ fresh). now rewrite app_cons1_assoc.
Qed.

(** The store rendition and the first rendition agree: on an argument read
    from the store, the call returns the same text and a reference to a new
    mapping that holds the same bindings, or raises the same exception. *)
Theorem store_rendition_agrees h data arg :
  rep_argument h data arg ->
  match QueryUtils.get_query_data arg with
  | Ok (sql, params) =>
      exists e fresh,
        Store.get_query_data data h
        = (Ok (sql, VRef (List.length h)), h ++ ODict e :: fresh)
        /\ rep_dict h e params
  | Raise ex => exists fresh, Store.get_query_data data h = (Raise ex, h ++ fresh)
  end.
Proof.
  intros Harg. destruct arg as [d | p]; simpl in Harg.
  - destruct Harg as (l & qpv & tpv & -> & Hl & Hqp & Htp).
    assert (Hload : forall t, load l (h ++ t)
                              = (Ok (OQueryData (VStr (query d)) qpv tpv), h ++ t)).
    { intros t. apply load_at, (extends_nth h); [eexists; reflexivity | exact Hl]. }
    assert (Hload0 : load l h = (Ok (OQueryData (VStr (query d)) qpv tpv), h)).
    { apply load_at. exact Hl. }
    assert (Hhead :
              Store.get_query_data (VRef l) h
              = bind (__validate_keys_clean_query (VStr (query d)) tpv)
                  (fun qk =>
                     bind (data_query_params (VRef l))
                       (fun query_params0 =>
                          bind (truthy query_params0)
                            (fun t =>
                               bind (if t
                                     then dict_update_from (List.length h) query_params0
                                     else ret tt)
                                 (fun _ =>
                                    bind (load_strings (snd qk))
                                      (fun validated_keys =>
                                         bind (assemble_loop (VRef l) (List.length h)
                                                 validated_keys (fst qk))
                                           (fun query0 =>
                                              ret (query0, VRef (List.length h))))))))
                  (h ++ [ODict []])).
    { unfold Store.get_query_data, Store.__validate_query_and_params.
      rewrite bind_bind, (bind_ok _ _ _ _ _ Hload0). cbn [ret bind].
      change (Store.bind (alloc (ODict [])) ?k h)
        with (k (List.length h) (h ++ [ODict []])).
      cbv beta.
      unfold data_query, data_template_params, getattr.
      rewrite !bind_bind, (bind_ok _ _ _ _ _ (Hload _)). cbn [ret bind].
      rewrite !bind_bind, (bind_ok _ _ _ _ _ (Hload _)). cbn [ret bind].
      reflexivity. }
    assert (Hassoc : forall (K : unit -> M (string * value)) s,
               bind (truthy qpv)
                 (fun t => bind (if t then dict_update_from (List.length h) qpv
                                 else ret tt) K) s
               = bind (bind (truthy qpv)
                         (fun b => if b then dict_update_from (List.length h) qpv
                                   else ret tt)) K s).
    { intros K s. now rewrite bind_bind. }
    rewrite Hhead. clear Hhead.
    unfold QueryUtils.get_query_data.
    cbn [QueryUtils.__validate_query_and_params Py.bind].
    assert (Hext : extends h (h ++ [ODict []])) by (eexists; reflexivity).
    pose proof (sim_validate_keys_clean_query h tpv (template_params d)
                  (h ++ [ODict []]) (query d) Htp Hext) as Hval.
    destruct (QueryUtils.__validate_keys_clean_query (query d) (template_params d))
      as [[q' keys]|ex]; cbn [Py.bind].
    + destruct Hval as (g & Hval). rewrite app_cons1_assoc in Hval. cbn [app] in Hval.
      assert (Hqpl : forall K : value -> M (string * value),
                 bind (data_query_params (VRef l)) K
                   (h ++ ODict [] :: OList (map VStr keys) :: g)
                 = K qpv (h ++ ODict [] :: OList (map VStr keys) :: g)).
      { intros K. unfold data_query_params, getattr.
        now rewrite bind_bind, (bind_ok _ _ _ _ _ (Hload _)). }
      pose proof (sim_merge_query_params h (OList (map VStr keys) :: g) qpv
                    (query_params d) Hqp) as Hmerge.
      destruct (merge_query_params [] (query_params d)) as [p0|ex]; cbn [Py.bind].
      * destruct Hmerge as (e0 & Hm & He0).
        pose proof (sim_assemble_loop h l _ _ _ _ Hl Htp keys q' e0 p0
                      (OList (map VStr keys) :: g) He0) as Hloop.
        assert (Hlen : List.length (h ++ [ODict []]) = S (List.length h))
          by (rewrite length_app; cbn [List.length]; apply Nat.add_1_r).
        destruct (QueryUtils.assemble_loop (template_params d) keys q' p0)
          as [[sql params]|ex].
        -- destruct Hloop as (e' & g' & Hrun & He').
           exists e', g'. split; [| exact He'].
           rewrite (bind_ok _ _ _ _ _ Hval), Hqpl, Hassoc, (bind_ok _ _ _ _ _ Hm).
           cbn [fst snd]. rewrite Hlen.
           rewrite (bind_ok _ _ _ _ _ (load_strings_next h _ keys g)).
           now rewrite (bind_ok _ _ _ _ _ Hrun).
        -- destruct Hloop as (fresh & Hrun). exists fresh.
           rewrite (bind_ok _ _ _ _ _ Hval), Hqpl, Hassoc, (bind_ok _ _ _ _ _ Hm).
           cbn [fst snd]. rewrite Hlen.
           rewrite (bind_ok _ _ _ _ _ (load_strings_next h _ keys g)).
           now rewrite (bind_raise _ _ _ _ _ Hrun).
      * destruct Hmerge as (e0 & Hm). eexists.
        rewrite (bind_ok _ _ _ _ _ Hval), Hqpl, Hassoc.
        now rewrite (bind_raise _ _ _ _ _ Hm).
    + destruct Hval as (fresh & Hval). eexists.
      rewrite (bind_raise _ _ _ _ _ Hval). now rewrite <- List.app_assoc.
  - exists []. rewrite List.app_nil_r.
    unfold Store.get_query_data, Store.__validate_query_and_params.
    inversion Harg as [| | | x | vs ps Hall | l vs ps Hl Hall]; subst; try reflexivity.
    rewrite bind_bind, (bind_ok _ _ _ _ _ (load_at _ _ _ Hl)). reflexivity.
Qed.

(** The store of the worked example holds the QueryData of the worked
    example. *)
Lemma example_store_represents :
  rep_argument example_store (VRef 2) (AQueryData example_in_x).
Proof.
  exists 2, VNone, (VRef 1). repeat split.
  exists 1, [("in__x", VRef 0)]. repeat split.
  constructor; [| constructor]. split; [reflexivity |].
  apply (rep_list example_store 0 [VInt 1; VInt 2]); [reflexivity |].
  repeat constructor.
Qed.

(** Hence the two renditions agree on it. *)
Lemma store_rendition_agrees_example :
  exists e fresh,
    Store.get_query_data (VRef 2) example_store
    = (Ok ("SELECT * FROM t WHERE x x IN ( :in__x_0, :in__x_1 ) ", VRef 3),
       example_store ++ ODict e :: fresh)
    /\ rep_dict example_store e [("in__x_0", PInt 1); ("in__x_1", PInt 2)].
Proof.
  exact (store_rendition_agrees example_store (VRef 2) (AQueryData example_in_x)
           example_store_represents).
Defined.

End RefinementFacts.

(* ===================================================================== *)
(** * Properties *)
(* ===================================================================== *)

(** ** Template handlers on empty input *)

(** C6: whatever the name (and the legacy key), on a values argument that is
    empty -- more generally, falsy -- [in_column] returns ['1 <> 1'] and
    [not_in_column] returns ['1 = 1'], both without bindings, and [values]
    raises ListTemplateException, without any help from the validation of
    [get_query_data]. *)
Theorem handlers_on_empty_values :
  forall (name : string) (legacy_key : option string) (vals : pyval),
    truthy vals = false ->
    Templates.in_column name vals legacy_key = Ok ("1 <> 1", None)
    /\ Templates.not_in_column name vals legacy_key = Ok ("1 = 1", None)
    /\ Templates.values name vals legacy_key
       = Raise (ListTemplateException ("Must have values for " ++ name ++ " template")).
Proof.
  intros name legacy_key vals Hfalsy.
  unfold Templates.in_column, Templates.not_in_column, Templates.values.
  rewrite Hfalsy. simpl. repeat split.
Qed.

Lemma handlers_on_empty_values_witness :
  truthy (PList []) = false
  /\ Templates.in_column "x" (PList []) (Some "in__x") = Ok ("1 <> 1", None)
  /\ Templates.not_in_column "x" (PList []) (Some "in__x") = Ok ("1 = 1", None)
  /\ Templates.values "x" (PList []) (Some "in__x")
     = Raise (ListTemplateException ("Must have values for " ++ "x" ++ " template")).
Proof.
  split; [reflexivity | apply (handlers_on_empty_values "x" (Some "in__x") (PList [])); reflexivity].
Defined.

(** ** The worked example of the specification *)

(** C2, as stated, fails: the assembled text does not contain
    [x IN ( :x_0, :x_1 )] and the mapping is not [{x_0: 1, x_1: 2}]. *)
Lemma example_in_x_not_short_names :
  ~ (exists sql params,
        get_query_data (AQueryData example_in_x) = Ok (sql, params)
        /\ occurs "x IN ( :x_0, :x_1 )" sql = true
        /\ dict_equiv params [("x_0", PInt 1); ("x_1", PInt 2)]).
Proof.
  intros (sql & params & Hrun & Hocc & Heq).
  vm_compute in Hrun. inversion Hrun; subst.
  vm_compute in Hocc. discriminate.
Qed.

(** C2, amended: the handler is called with the whole key as [legacy_key],
    so the names carry the key: the text contains
    [x IN ( :in__x_0, :in__x_1 )] and the mapping is
    [{in__x_0: 1, in__x_1: 2}]. *)
Theorem example_in_x_assembled :
  get_query_data (AQueryData example_in_x)
  = Ok ("SELECT * FROM t WHERE x x IN ( :in__x_0, :in__x_1 ) ",
        [("in__x_0", PInt 1); ("in__x_1", PInt 2)])
  /\ occurs "x IN ( :in__x_0, :in__x_1 )"
            "SELECT * FROM t WHERE x x IN ( :in__x_0, :in__x_1 ) " = true.
Proof. split; vm_compute; reflexivity. Qed.

(** ** Validation of placeholder keys *)

(** One iteration reports at most its own key. *)
Lemma missing_keys_of_one tp key l :
  missing_keys_of tp key = Ok l -> l = [] \/ l = [key].
Proof.
  unfold missing_keys_of. destruct tp as [tp|]; [| intros [= <-]; auto].
  destruct (get_is_none tp key); [intros [= <-]; auto |].
  destruct (String.eqb key "values"); [| intros [= <-]; auto].
  destruct (dict_get tp key) as [v|]; [| discriminate].
  destruct (len v) as [n|e]; simpl; [| discriminate].
  destruct (n =? 0)%nat; intros [= <-]; auto.
Qed.

(** A ListTemplateException raised by the validation names one key. *)
Lemma validation_names_one_key tp : forall ms q vk msg,
  validate_loop ms tp q vk = Raise (ListTemplateException msg) ->
  exists key, In key (map key_of_groups ms)
              /\ msg = "Missing template keys " ++ repr_list [key].
Proof.
  induction ms as [|g ms IH]; intros q vk msg H; cbn [validate_loop] in H;
    [discriminate |].
  destruct (missing_keys_of tp (key_of_groups g)) as [mk|e] eqn:Hmk;
    cbn [Py.bind] in H; [| apply (f_equal (fun r => match r with
                                                   | Raise (ListTemplateException _) => true
                                                   | _ => false end)) in H;
                           unfold missing_keys_of in Hmk;
                           destruct tp as [tp|]; [| discriminate];
                           destruct (get_is_none tp (key_of_groups g)); [discriminate |];
                           destruct (String.eqb (key_of_groups g) "values"); [| discriminate];
                           destruct (dict_get tp (key_of_groups g)) as [v|];
                           [destruct v; simpl in Hmk; try discriminate; injection Hmk as <-;
                            discriminate
                           | injection Hmk as <-; discriminate]].
  destruct (missing_keys_of_one _ _ _ Hmk) as [-> | ->]; cbn [List.length Nat.ltb Nat.leb] in H.
  - apply IH in H. destruct H as (key & Hin & ->). exists key. split; [now right | reflexivity].
  - injection H as <-. exists (key_of_groups g). split; [now left | reflexivity].
Qed.

(** The test on emptiness compares the whole key with ['values']; a
    canonical key contains ['__'], so a key whose value is present is never
    reported, empty or not. *)
Lemma present_key_passes_validation query tp key v :
  In key (placeholder_keys query) ->
  dict_get tp key = Some v -> v <> PNone ->
  missing_keys_of (Some tp) key = Ok [].
Proof.
  intros Hkey Hget Hv. unfold missing_keys_of, get_is_none. rewrite Hget.
  destruct v; try contradiction;
    (destruct (String.eqb_spec key "values") as [-> | _]; [| reflexivity]);
    apply placeholder_keys_shape in Hkey;
    destruct Hkey as (kw & tbl & col & E & [-> | [-> | ->]] & _); discriminate.
Qed.

(** C1 at a query with two missing keys: the exception is raised at the
    first match and names [in__a] only, although both [in__a] and [in__b]
    are placeholders of the query. *)
Theorem two_missing_names_first_only :
  placeholder_keys two_missing.(query) = ["in__a"; "in__b"]
  /\ get_query_data (AQueryData two_missing)
     = Raise (ListTemplateException "Missing template keys ['in__a']").
Proof. split; vm_compute; reflexivity. Qed.

(** C5 at a values placeholder whose value is present and empty: validation
    accepts the key; the failure comes later, from the handler, with the
    handler's own message. *)
Theorem empty_values_passes_validation :
  __validate_keys_clean_query empty_values.(query) empty_values.(template_params)
  = Ok ("INSERT INTO t{values__a}", ["values__a"])
  /\ get_query_data (AQueryData empty_values)
     = Raise (ListTemplateException "Must have values for a template").
Proof. split; vm_compute; reflexivity. Qed.

(** ** Scalars handed to the parameterization step *)

(** C8, as stated, fails for a scalar that is not a string: an integer is
    not normalised, the loop cannot iterate over it, and no binding is
    produced, neither by [_parameterize_list] nor through the handlers. *)
Lemma integer_scalar_not_normalised :
  ~ (forall (key : string) (v : pyval),
        isinstance_list_or_tuple v = false ->
        exists frag name,
          Templates._parameterize_list key v = Ok (frag, [(name, v)])).
Proof.
  intros H. destruct (H "in__x" (PInt 5) eq_refl) as (frag & name & Hrun).
  discriminate.
Qed.

(** What the code does there, directly and through the handlers. *)
Example integer_scalar_raises :
  Templates._parameterize_list "in__x" (PInt 5) = Raise TypeError
  /\ Templates.in_column "x" (PInt 5) (Some "in__x") = Raise TypeError
  /\ Templates.not_in_column "x" (PInt 5) (Some "in__x") = Raise TypeError.
Proof. repeat split. Qed.

(** C8, amended to the scalars the code normalises, which are the strings:
    for every base key, a lone string [s] is treated as the one-element
    tuple [(s,)] and yields exactly one binding, rendered as a one-element
    parenthesised group; given a non-empty string, [in_column] and
    [not_in_column] return that one-element group after their operator. *)
Theorem string_scalar_normalised :
  forall (key name : string) (legacy_key : option string) (s : string)
         (c : ascii) (t : string),
    Templates._parameterize_list key (PStr s)
      = Templates._parameterize_list key (PTuple [PStr s])
    /\ Templates._parameterize_list key (PStr s)
      = Ok ("( :" ++ lone_name key ++ " )", [(lone_name key, PStr s)])
    /\ Templates.in_column name (PStr (String c t)) legacy_key
      = Ok (name ++ " IN " ++ "( :" ++ lone_name (Templates.key_name_of name legacy_key) ++ " )",
            Some [(lone_name (Templates.key_name_of name legacy_key), PStr (String c t))])
    /\ Templates.not_in_column name (PStr (String c t)) legacy_key
      = Ok (name ++ " NOT IN " ++ "( :" ++ lone_name (Templates.key_name_of name legacy_key) ++ " )",
            Some [(lone_name (Templates.key_name_of name legacy_key), PStr (String c t))]).
Proof.
  intros key name legacy_key s c t.
  assert (Hone : forall k u,
             Templates._parameterize_list k (PStr u)
             = Ok ("( :" ++ lone_name k ++ " )", [(lone_name k, PStr u)])).
  { intros k u. unfold Templates._parameterize_list, lone_name. simpl.
    destruct (startswith k "values") eqn:Hv; reflexivity. }
  split; [reflexivity |].
  split; [apply Hone |].
  unfold Templates.in_column, Templates.not_in_column.
  split; simpl truthy; cbv iota beta; simpl negb; cbv iota;
    rewrite Hone; reflexivity.
Qed.

(** ** Direct parameters against generated bindings *)

(** C3, as stated, fails: [query_params] binds [in__x_0] to 99, the
    expansion of [in__x] binds the same name to 1, and the returned mapping
    holds 1. *)
Lemma clash_keeps_generated_value :
  ~ (forall sql params,
        get_query_data (AQueryData clash) = Ok (sql, params) ->
        dict_get params "in__x_0" = Some (PInt 99)).
Proof.
  intros H. specialize (H _ _ eq_refl). vm_compute in H. discriminate.
Qed.

(** The loop either leaves a name as it found it, or leaves it bound to the
    value some validated key generated for it. *)
Lemma assemble_loop_get tp keys : forall q p sql params n,
  assemble_loop tp keys q p = Ok (sql, params) ->
  (exists key frag binds v,
      In key keys /\ template_call tp key = Ok (frag, Some binds)
      /\ dict_get binds n = Some v /\ dict_get params n = Some v)
  \/ ((forall key frag binds,
         In key keys -> template_call tp key = Ok (frag, Some binds) ->
         dict_get binds n = None)
      /\ dict_get params n = dict_get p n).
Proof.
  induction keys as [|key keys IH]; intros q p sql params n Hrun; simpl in Hrun.
  - injection Hrun as <- <-. right. split; [intros ? ? ? [] | reflexivity].
  - destruct (template_call tp key) as [[frag pd]|e] eqn:Hcall; simpl in Hrun;
      [| discriminate].
    apply IH with (n := n) in Hrun.
    destruct Hrun as [(k & f & b & v & Hin & Hk & Hb & Hp) | [Hnone Hsame]].
    + left. exists k, f, b, v. simpl. auto.
    + destruct pd as [binds|].
      * destruct (dict_get binds n) as [v|] eqn:Hbn.
        -- left. exists key, frag, binds, v. simpl.
           repeat split; auto.
           rewrite Hsame. destruct binds as [|kv binds]; [discriminate |].
           simpl truthy_dict. cbv iota.
           rewrite dict_get_update by (eapply template_call_nodup; eauto).
           now rewrite Hbn.
        -- right. split.
           ++ intros k f b [<-|Hin] Hk; [| eauto].
              rewrite Hcall in Hk. injection Hk as <- <-. exact Hbn.
           ++ rewrite Hsame. destruct binds as [|kv binds]; [reflexivity |].
              simpl truthy_dict. cbv iota.
              rewrite dict_get_update by (eapply template_call_nodup; eauto).
              now rewrite Hbn.
      * right. split.
        -- intros k f b [<-|Hin] Hk; [| eauto].
           rewrite Hcall in Hk. discriminate.
        -- exact Hsame.
Qed.

(** C3, amended: when a name of [query_params] is also generated from
    [template_params], the returned mapping holds for it a value generated by
    the expansion of a placeholder, whatever [query_params] binds it to:
    the generated bindings are merged after the direct ones and overwrite
    them. *)
Theorem generated_binding_overrides_query_param :
  forall (data : QueryData) (qp : dict pyval) (n : string) (w : pyval)
         (query' sql : string) (keys : list string) (params : dict pyval)
         (key0 frag0 : string) (binds0 : dict pyval),
    data.(query_params) = Some (inl qp) ->
    dict_get qp n = Some w ->
    __validate_keys_clean_query data.(query) data.(template_params) = Ok (query', keys) ->
    In key0 keys ->
    template_call data.(template_params) key0 = Ok (frag0, Some binds0) ->
    In n (dict_keys binds0) ->
    get_query_data (AQueryData data) = Ok (sql, params) ->
    exists key frag binds v,
      In key keys
      /\ template_call data.(template_params) key = Ok (frag, Some binds)
      /\ dict_get binds n = Some v
      /\ dict_get params n = Some v.
Proof.
  intros data qp n w query' sql keys params key0 frag0 binds0
         Hqp Hw Hval Hin0 Hcall0 Hn Hrun.
  unfold get_query_data in Hrun. simpl in Hrun.
  rewrite Hval in Hrun. simpl in Hrun.
  destruct (merge_query_params [] (query_params data)) as [p0|e]; simpl in Hrun;
    [| discriminate].
  apply assemble_loop_get with (n := n) in Hrun.
  destruct Hrun as [H | [Hnone _]]; [exact H |].
  exfalso. apply dict_get_in_keys in Hn. apply Hn. eapply Hnone; eauto.
Qed.

Lemma generated_binding_overrides_query_param_witness :
  exists key frag binds v,
    In key ["in__x"]
    /\ template_call clash.(template_params) key = Ok (frag, Some binds)
    /\ dict_get binds "in__x_0" = Some v
    /\ dict_get [("in__x_0", PInt 1)] "in__x_0" = Some v.
Proof.
  apply (generated_binding_overrides_query_param clash
           [("in__x_0", PInt 99)] "in__x_0" (PInt 99)
           "SELECT * FROM t WHERE x{in__x}"
           "SELECT * FROM t WHERE x x IN ( :in__x_0 ) "
           ["in__x"] [("in__x_0", PInt 1)]
           "in__x" "x IN ( :in__x_0 )" [("in__x_0", PInt 1)]).
  - reflexivity.
  - reflexivity.
  - vm_compute; reflexivity.
  - simpl; auto.
  - vm_compute; reflexivity.
  - simpl; auto.
  - vm_compute; reflexivity.
Defined.

(** ** Distinctness of the generated names *)

(** The names [call_names] lists for a key are the keys of the mapping its
    handler returns. *)
Lemma call_names_are_keys tp key frag binds n :
  template_call tp key = Ok (frag, Some binds) ->
  In n (dict_keys binds) <-> In n (call_names tp key).
Proof.
  intros H. apply template_call_inv in H.
  destruct H as (kw & col & v & f & Hsplit & Hsub & Hf & Hcall).
  apply get_template_inv in Hf.
  apply handler_some_inv in Hcall; [| tauto].
  destruct Hcall as (Htruthy & keys & Hp & _).
  rewrite key_name_of_key in Hp by (eapply split_two_nonempty; eauto).
  unfold call_names. rewrite Hsub, Htruthy.
  eapply binding_names_are_keys; eauto.
Qed.

(** C4, as stated, fails: the keys [in__a.b] and [in__a_b] both generate
    [in__a_b_0]; the call succeeds and the second binding overwrites the
    first. *)
Lemma dotted_key_collides :
  ~ (forall sql params,
        get_query_data (AQueryData dotted) = Ok (sql, params) ->
        NoDup (generated_names dotted)).
Proof.
  intros H. specialize (H _ _ eq_refl). vm_compute in H.
  inversion H as [|? ? Hnotin _]; subst. apply Hnotin. left. reflexivity.
Qed.

(** C4, amended: when [get_query_data] succeeds and no two distinct
    placeholder keys of the query become equal once '.' is rewritten to '_',
    the binding names generated over all placeholders, one per (placeholder
    key, element index, position) are pairwise distinct. *)
Theorem generated_names_distinct :
  forall (data : QueryData) (sql : string) (params : dict pyval),
    get_query_data (AQueryData data) = Ok (sql, params) ->
    (forall k1 k2,
        In k1 (placeholder_keys data.(query)) ->
        In k2 (placeholder_keys data.(query)) ->
        replace k1 "." "_" = replace k2 "." "_" -> k1 = k2) ->
    NoDup (generated_names data).
Proof.
  intros data sql params _ Hinj. unfold generated_names.
  assert (Hdigit : forall k, In k (dedup (placeholder_keys (query data))) ->
                             sall not_digit k = true).
  { intros k Hk. apply (proj1 (dedup_in _ _)) in Hk.
    now apply key_class_not_digit, (placeholder_keys_class (query data)). }
  apply NoDup_flat_map_by with (g := undot).
  - apply Injective_map_NoDup_in; [| apply dedup_nodup].
    intros k1 k2 H1 H2 E.
    apply (proj1 (dedup_in _ _)) in H1. apply (proj1 (dedup_in _ _)) in H2.
    apply Hinj; auto. now rewrite !replace_dots.
  - intros k Hk. apply call_names_nodup. auto.
  - intros k1 k2 n H1 H2 Hn1 Hn2.
    apply call_names_shape in Hn1, Hn2.
    eapply generated_from_source; eauto.
Qed.

Lemma generated_names_distinct_witness :
  NoDup (generated_names example_in_x).
Proof.
  apply (generated_names_distinct example_in_x
           "SELECT * FROM t WHERE x x IN ( :in__x_0, :in__x_1 ) "
           [("in__x_0", PInt 1); ("in__x_1", PInt 2)]).
  - vm_compute; reflexivity.
  - intros k1 k2 H1 H2 _. vm_compute in H1, H2.
    destruct H1 as [<- | []]. destruct H2 as [<- | []]. reflexivity.
Defined.

(** ** A placeholder that occurs more than once *)

Lemma assemble_loop_cons tp key keys q p :
  assemble_loop tp (key :: keys) q p
  = Py.bind (template_call tp key)
      (fun r => assemble_loop tp keys
                  (replace q (token key) (" " ++ fst r ++ " "))
                  (merged p (snd r))).
Proof.
  cbn [assemble_loop]. destruct (template_call tp key) as [[frag pd]|e]; [| reflexivity].
  cbn [Py.bind fst snd]. f_equal.
  destruct pd as [[|kv d]|]; reflexivity.
Qed.

Lemma validate_loop_keys tp : forall ms q vk q' keys,
  validate_loop ms tp q vk = Ok (q', keys) ->
  keys = (vk ++ map key_of_groups ms)%list.
Proof.
  induction ms as [|g ms IH]; intros q vk q' keys H; cbn [validate_loop] in H.
  - injection H as _ <-. now rewrite List.app_nil_r.
  - destruct (missing_keys_of tp (key_of_groups g)) as [mk|e]; [| discriminate].
    cbn [Py.bind] in H. destruct (0 <? List.length mk)%nat; [discriminate |].
    apply IH in H. rewrite H, <- List.app_assoc. reflexivity.
Qed.

Lemma validated_keys_are_placeholders q tp q' keys :
  __validate_keys_clean_query q tp = Ok (q', keys) -> keys = placeholder_keys q.
Proof. intros H. apply validate_loop_keys in H. exact H. Qed.

Lemma assemble_loop_total tp : forall keys q p,
  (forall k, In k keys -> exists r, template_call tp k = Ok r) ->
  exists sql params, assemble_loop tp keys q p = Ok (sql, params).
Proof.
  induction keys as [|k keys IH]; intros q p Hall.
  - exists q, p. reflexivity.
  - destruct (Hall k (or_introl eq_refl)) as [r Hr].
    rewrite assemble_loop_cons, Hr. cbn [Py.bind].
    apply IH. intros k' Hk'. apply Hall. now right.
Qed.

Lemma fragment_shape tp key frag pd :
  sall key_class key = true ->
  template_call tp key = Ok (frag, pd) ->
  (exists m, " " ++ frag ++ " " = String " " m)
  /\ sall not_open_brace (" " ++ frag ++ " ") = true.
Proof.
  intros Hk Hcall. split; [eexists; reflexivity |].
  apply template_call_no_brace in Hcall.
  - simpl. now rewrite sall_app, Hcall.
  - revert Hk. apply sall_impl. intros c Hc. unfold not_open_brace.
    destruct (Ascii.eqb_spec c "{") as [-> | _]; [discriminate | reflexivity].
Qed.

(** A token that is absent stays absent through the loop. *)
Lemma assemble_loop_absent tp k0 : forall keys q p sql params,
  sall key_class k0 = true ->
  (forall k, In k keys -> sall key_class k = true) ->
  occurs (token k0) q = false ->
  assemble_loop tp keys q p = Ok (sql, params) ->
  occurs (token k0) sql = false.
Proof.
  induction keys as [|k keys IH]; intros q p sql params Hk0 Hkeys Habs Hrun.
  - injection Hrun as <- _. exact Habs.
  - rewrite assemble_loop_cons in Hrun.
    destruct (template_call tp k) as [[frag pd]|e] eqn:Hcall; [| discriminate].
    cbn [Py.bind fst snd] in Hrun.
    apply IH in Hrun; auto; [intros; apply Hkeys; now right |].
    destruct (fragment_shape tp k frag pd (Hkeys k (or_introl eq_refl)) Hcall)
      as [Hsp Hnb].
    destruct (token_shape k0 Hk0) as (Hbr & Hns & _).
    destruct (occurs (token k0) (replace q (token k) (" " ++ frag ++ " "))) eqn:E;
      [| reflexivity].
    rewrite replace_token in E.
    apply (occurs_replace_go _ _ _ Hsp Hnb Hbr Hns) in E.
    cbn [Re.drop] in E. congruence.
Qed.

(** Once the loop has run, no token of a validated key is left. *)
Lemma assemble_loop_clears tp : forall keys q p sql params k0,
  (forall k, In k keys -> sall key_class k = true) ->
  assemble_loop tp keys q p = Ok (sql, params) ->
  In k0 keys ->
  occurs (token k0) sql = false.
Proof.
  induction keys as [|k keys IH]; intros q p sql params k0 Hkeys Hrun Hin; [contradiction |].
  rewrite assemble_loop_cons in Hrun.
  destruct (template_call tp k) as [[frag pd]|e] eqn:Hcall; [| discriminate].
  cbn [Py.bind fst snd] in Hrun.
  assert (Hkeys' : forall k', In k' keys -> sall key_class k' = true)
    by (intros; apply Hkeys; now right).
  destruct (in_dec string_dec k0 keys) as [Hlater | Hnot].
  - eapply IH; eauto.
  - destruct Hin as [<- | Hin]; [| contradiction].
    pose proof (Hkeys k (or_introl eq_refl)) as Hk.
    eapply assemble_loop_absent; [exact Hk | exact Hkeys' | | exact Hrun].
    destruct (fragment_shape tp k frag pd Hk Hcall) as [Hsp Hnb].
    destruct (token_shape k Hk) as (Hbr & Hns & _).
    rewrite replace_token.
    apply (replace_go_clears _ _ Hsp Hnb Hbr Hns).
Qed.

(** Keys whose token is absent can be left out: the text comes out the same. *)
Lemma assemble_loop_skip tp k0 : forall keys q p sql params,
  sall key_class k0 = true ->
  (forall k, In k keys -> sall key_class k = true) ->
  occurs (token k0) q = false ->
  assemble_loop tp keys q p = Ok (sql, params) ->
  forall p', exists params',
    assemble_loop tp (filter (fun y => negb (String.eqb k0 y)) keys) q p'
    = Ok (sql, params').
Proof.
  induction keys as [|k keys IH]; intros q p sql params Hk0 Hkeys Habs Hrun p'.
  - injection Hrun as <- _. exists p'. reflexivity.
  - rewrite assemble_loop_cons in Hrun.
    destruct (template_call tp k) as [[frag pd]|e] eqn:Hcall; [| discriminate].
    cbn [Py.bind fst snd] in Hrun.
    assert (Hkeys' : forall k', In k' keys -> sall key_class k' = true)
      by (intros; apply Hkeys; now right).
    cbn [filter]. destruct (String.eqb_spec k0 k) as [<- | Hne]; cbn [negb].
    + rewrite replace_token, replace_go_absent in Hrun by exact Habs.
      eapply IH; eauto.
    + rewrite assemble_loop_cons, Hcall. cbn [Py.bind fst snd].
      eapply IH; eauto.
      destruct (fragment_shape tp k frag pd (Hkeys k (or_introl eq_refl)) Hcall)
        as [Hsp Hnb].
      destruct (token_shape k0 Hk0) as (Hbr & Hns & _).
      destruct (occurs (token k0) (replace q (token k) (" " ++ frag ++ " "))) eqn:E;
        [| reflexivity].
      rewrite replace_token in E.
      apply (occurs_replace_go _ _ _ Hsp Hnb Hbr Hns) in E.
      cbn [Re.drop] in E. congruence.
Qed.

(** Running the loop over the keys with repetitions gives the text that one
    pass per distinct key gives. *)
Lemma assemble_loop_dedup tp : forall keys q p sql params,
  (forall k, In k keys -> sall key_class k = true) ->
  assemble_loop tp keys q p = Ok (sql, params) ->
  forall p', exists params', assemble_loop tp (dedup keys) q p' = Ok (sql, params').
Proof.
  induction keys as [|k keys IH]; intros q p sql params Hkeys Hrun p'.
  - injection Hrun as <- _. exists p'. reflexivity.
  - rewrite assemble_loop_cons in Hrun.
    destruct (template_call tp k) as [[frag pd]|e] eqn:Hcall; [| discriminate].
    cbn [Py.bind fst snd] in Hrun.
    assert (Hkeys' : forall k', In k' keys -> sall key_class k' = true)
      by (intros; apply Hkeys; now right).
    cbn [dedup]. rewrite assemble_loop_cons, Hcall. cbn [Py.bind fst snd].
    destruct (IH _ _ _ _ Hkeys' Hrun (merged p' pd)) as [params1 H1].
    pose proof (Hkeys k (or_introl eq_refl)) as Hk.
    apply (assemble_loop_skip tp k (dedup keys) _ (merged p' pd) sql params1 Hk);
      [| | exact H1].
    + intros k' Hk'. apply Hkeys'. now apply (proj1 (dedup_in _ _)).
    + destruct (fragment_shape tp k frag pd Hk Hcall) as [Hsp Hnb].
      destruct (token_shape k Hk) as (Hbr & Hns & _).
      rewrite replace_token.
      apply (replace_go_clears _ _ Hsp Hnb Hbr Hns).
Qed.

Lemma merged_nodup p pd : NoDup (dict_keys p) -> NoDup (dict_keys (merged p pd)).
Proof. destruct pd; simpl; auto using dict_update_nodup. Qed.

Lemma merged_keeps p pd n : In n (dict_keys p) -> In n (dict_keys (merged p pd)).
Proof. destruct pd; simpl; auto. intros H. apply dict_keys_update. now right. Qed.

Lemma assemble_loop_nodup tp : forall keys q p sql params,
  NoDup (dict_keys p) ->
  assemble_loop tp keys q p = Ok (sql, params) ->
  NoDup (dict_keys params).
Proof.
  induction keys as [|k keys IH]; intros q p sql params Hnd Hrun.
  - injection Hrun as _ <-. exact Hnd.
  - rewrite assemble_loop_cons in Hrun.
    destruct (template_call tp k) as [[frag pd]|e]; [| discriminate].
    cbn [Py.bind fst snd] in Hrun. eapply IH; [| exact Hrun].
    now apply merged_nodup.
Qed.

Lemma assemble_loop_keeps tp : forall keys q p sql params n,
  assemble_loop tp keys q p = Ok (sql, params) ->
  In n (dict_keys p) -> In n (dict_keys params).
Proof.
  induction keys as [|k keys IH]; intros q p sql params n Hrun Hin.
  - injection Hrun as _ <-. exact Hin.
  - rewrite assemble_loop_cons in Hrun.
    destruct (template_call tp k) as [[frag pd]|e]; [| discriminate].
    cbn [Py.bind fst snd] in Hrun. eapply IH; [exact Hrun |].
    now apply merged_keeps.
Qed.

Lemma assemble_loop_binds tp : forall keys q p sql params k frag binds n,
  assemble_loop tp keys q p = Ok (sql, params) ->
  In k keys -> template_call tp k = Ok (frag, Some binds) ->
  In n (dict_keys binds) -> In n (dict_keys params).
Proof.
  induction keys as [|k' keys IH]; intros q p sql params k frag binds n Hrun Hin Hcall Hn;
    [contradiction |].
  rewrite assemble_loop_cons in Hrun.
  destruct (template_call tp k') as [[frag' pd]|e] eqn:Hcall'; [| discriminate].
  cbn [Py.bind fst snd] in Hrun.
  destruct Hin as [-> | Hin].
  - rewrite Hcall in Hcall'. injection Hcall' as <- <-.
    eapply assemble_loop_keeps; [exact Hrun |].
    simpl. apply dict_keys_update. now left.
  - eapply IH; eauto.
Qed.

Lemma update_from_seq_nodup : forall l p p',
  NoDup (dict_keys p) -> update_from_seq p l = Ok p' -> NoDup (dict_keys p').
Proof.
  induction l as [|e l IH]; intros p p' Hnd H; simpl in H.
  - injection H as <-. exact Hnd.
  - destruct (dict_keys e) as [|k [|v [|x ks]]]; try discriminate.
    eapply IH; [| exact H]. now apply dict_set_nodup.
Qed.

Lemma merge_query_params_nodup qp p0 :
  merge_query_params [] qp = Ok p0 -> NoDup (dict_keys p0).
Proof.
  destruct qp as [[d | l]|]; cbn [merge_query_params].
  - destruct d as [|kv d]; intros [= <-]; [constructor |].
    apply (dict_update_nodup [] (kv :: d)). constructor.
  - destruct l as [|e l]; [intros [= <-]; constructor |].
    apply update_from_seq_nodup. constructor.
  - intros [= <-]. constructor.
Qed.

(** C10, as stated, fails: a key that is present does not make the call
    succeed; here the token occurs twice, its key is present with an empty
    value, and the values handler raises. *)
Lemma repeated_empty_values_fails :
  ~ (forall (data : QueryData) (tp : dict pyval) (key : string) (v : pyval),
        data.(template_params) = Some tp ->
        1 < count_occ string_dec (placeholder_keys data.(query)) key ->
        dict_get tp key = Some v ->
        exists sql params, get_query_data (AQueryData data) = Ok (sql, params)).
Proof.
  intros H.
  destruct (H repeated_empty_values [("values__a", PList [])] "values__a" (PList []))
    as (sql & params & Hrun).
  - reflexivity.
  - vm_compute. lia.
  - reflexivity.
  - vm_compute in Hrun. discriminate.
Qed.

(** What the code does there. *)
Example repeated_empty_values_raises :
  placeholder_keys repeated_empty_values.(query) = ["values__a"; "values__a"]
  /\ get_query_data (AQueryData repeated_empty_values)
     = Raise (ListTemplateException "Must have values for a template").
Proof. split; vm_compute; reflexivity. Qed.

(** C10, amended: when validation accepts the placeholders of the query,
    the direct parameters merge, and the handler call of every validated
    key succeeds, then [get_query_data] succeeds, also when a token occurs
    more than once; the text it returns is the one obtained by one
    replacement per distinct key (which replaces every occurrence of the
    token by the same fragment), no token of a validated key is left in
    it, and every binding name generated for a validated key appears
    exactly once among the keys of the returned mapping. *)
Theorem repeated_placeholder_assembled :
  forall (data : QueryData) (query' : string) (keys : list string) (p0 : dict pyval),
    __validate_keys_clean_query data.(query) data.(template_params) = Ok (query', keys) ->
    merge_query_params [] data.(query_params) = Ok p0 ->
    (forall k, In k keys -> exists r, template_call data.(template_params) k = Ok r) ->
    exists sql params,
      get_query_data (AQueryData data) = Ok (sql, params)
      /\ (exists params',
             assemble_loop data.(template_params) (dedup keys) query' p0
             = Ok (sql, params'))
      /\ (forall k, In k keys -> occurs (token k) sql = false)
      /\ (forall k frag binds n,
             In k keys ->
             template_call data.(template_params) k = Ok (frag, Some binds) ->
             In n (dict_keys binds) ->
             count_occ string_dec (dict_keys params) n = 1).
Proof.
  intros data query' keys p0 Hval Hqp Hcalls.
  destruct (assemble_loop_total data.(template_params) keys query' p0 Hcalls)
    as (sql & params & Hrun).
  assert (Hkeys : forall k, In k keys -> sall key_class k = true).
  { intros k Hk. rewrite (validated_keys_are_placeholders _ _ _ _ Hval) in Hk.
    eapply placeholder_keys_class; eauto. }
  exists sql, params. split; [| split; [| split]].
  - unfold get_query_data. cbn [__validate_query_and_params Py.bind].
    rewrite Hval. cbn [Py.bind]. rewrite Hqp. exact Hrun.
  - eapply assemble_loop_dedup; eauto.
  - intros k Hk. eapply assemble_loop_clears; eauto.
  - intros k frag binds n Hk Hcall Hn.
    apply NoDup_count_occ'.
    + eapply assemble_loop_nodup; [| exact Hrun].
      eapply merge_query_params_nodup; eauto.
    + eapply assemble_loop_binds; eauto.
Qed.

Lemma repeated_placeholder_assembled_witness :
  exists sql params,
    get_query_data (AQueryData repeated_in) = Ok (sql, params)
    /\ (exists params',
           assemble_loop repeated_in.(template_params)
             (dedup ["in__a"; "in__a"]) "SELECT * FROM t WHERE a{in__a}OR b{in__a}" []
           = Ok (sql, params'))
    /\ (forall k, In k ["in__a"; "in__a"] -> occurs (token k) sql = false)
    /\ (forall k frag binds n,
           In k ["in__a"; "in__a"] ->
           template_call repeated_in.(template_params) k = Ok (frag, Some binds) ->
           In n (dict_keys binds) ->
           count_occ string_dec (dict_keys params) n = 1).
Proof.
  apply (repeated_placeholder_assembled repeated_in
           "SELECT * FROM t WHERE a{in__a}OR b{in__a}" ["in__a"; "in__a"] []).
  - vm_compute; reflexivity.
  - reflexivity.
  - intros k [<- | [<- | []]]; eexists; vm_compute; reflexivity.
Defined.

(** The text and the mapping of that call: both occurrences carry the same
    fragment and each name is bound once. *)
Example repeated_in_assembled :
  get_query_data (AQueryData repeated_in)
  = Ok ("SELECT * FROM t WHERE a a IN ( :in__a_0, :in__a_1 ) OR b a IN ( :in__a_0, :in__a_1 ) ",
        [("in__a_0", PInt 7); ("in__a_1", PInt 8)]).
Proof. vm_compute; reflexivity. Qed.


(** ** The combining mapper *)

Import Mapper.

(** C7 (on the model of the mapper): for every sequence of raw rows the
    combining mapper partitions the rows by the identity fields, with one
    partition per distinct identity, in the order in which identities are
    first seen and with the rows of a partition in row order; it returns one
    record per partition, each the fold of its own partition, and fails only
    if such a fold fails; in a folded record a list field holds the
    concatenation, in row order, of what each row of the partition
    contributes, a CSV-list field the concatenation of the coerced tokens of
    each row, duplicates kept, while the sets of the set fields hold no
    duplicates; so two rows of the same identity with the same CSV content
    give doubled lists. *)
Theorem combining_mapper_folds_partitions :
  forall (coerce_element : element_type -> string -> option scalar)
         (coerce_scalar : string -> scalar -> option scalar)
         (sch : schema) (rows : list raw_row),
    NoDup (map fst sch.(csv_list_fields) ++ sch.(list_fields)) ->
    let groups := partition_rows sch rows in
    map fst groups = first_seen (map (row_identity sch) rows)
    /\ NoDup (map fst groups)
    /\ (forall id grp,
           In (id, grp) groups ->
           grp <> [] /\ grp = filter (has_identity sch id) rows)
    /\ (forall recs,
           map_records coerce_element coerce_scalar sch rows = Some recs ->
           Forall2 (fun grp rec =>
                      fold_partition coerce_element coerce_scalar sch grp = Some rec)
                   (map snd groups) recs)
    /\ ((forall grp, In grp (map snd groups) ->
                     fold_partition coerce_element coerce_scalar sch grp <> None) ->
        map_records coerce_element coerce_scalar sch rows <> None)
    /\ (forall grp rec,
           fold_partition coerce_element coerce_scalar sch grp = Some rec ->
           (forall f, In f sch.(list_fields) ->
                      dict_get rec.(lists) f
                      = Some (flat_map (fun row => list_elements row f) grp))
           /\ (forall f ty,
                  In (f, ty) sch.(csv_list_fields) ->
                  exists parts,
                    mapM (fun row => csv_elements coerce_element ty row f) grp = Some parts
                    /\ dict_get rec.(lists) f = Some (concat parts))
           /\ sets_nodup rec.(sets))
    /\ map_records plain_element plain_scalar ListWithStringsModel duplicate_rows
       = Some [ {| scalars := [("id", SInt 1)];
                   lists := [("list1", [SStr "a"; SStr "b"; SStr "c"; SStr "d";
                                        SStr "a"; SStr "b"; SStr "c"; SStr "d"]);
                             ("list2", [SInt 1; SInt 2; SInt 3; SInt 4;
                                        SInt 1; SInt 2; SInt 3; SInt 4])];
                   sets := [];
                   dicts := [] |} ].
Proof.
  intros coerce_element coerce_scalar sch rows Hwf groups.
  assert (Hgroups : groups = map (fun id => (id, filter (has_identity sch id) rows))
                                 (first_seen (map (row_identity sch) rows)))
    by apply MapperFacts.partition_rows_spec.
  assert (Hids : map fst groups = first_seen (map (row_identity sch) rows)).
  { rewrite Hgroups, map_map. cbn [fst]. apply map_id. }
  split; [exact Hids |].
  split; [rewrite Hids; apply MapperFacts.first_seen_nodup |].
  split.
  { intros id grp Hin. rewrite Hgroups in Hin. apply in_map_iff in Hin.
    destruct Hin as (id' & [= <- <-] & Hid). split; [| reflexivity].
    apply MapperFacts.first_seen_in, in_map_iff in Hid.
    destruct Hid as (row & Hrow & Hin).
    intros Hnil.
    assert (Hmem : In row (filter (has_identity sch id') rows)).
    { apply filter_In. split; [exact Hin |]. now apply MapperFacts.has_identity_true. }
    rewrite Hnil in Hmem. contradiction. }
  split; [intros recs; apply MapperFacts.mapM_Forall2 |].
  split; [apply MapperFacts.mapM_total |].
  split; [| vm_compute; reflexivity].
  intros grp rec Hfold. unfold fold_partition in Hfold.
  destruct grp as [|first rest]; [discriminate |].
  destruct (init_record coerce_scalar sch first) as [rec0|] eqn:Hinit; [| discriminate].
  unfold init_record in Hinit.
  destruct (mapM (scalar_binding coerce_scalar first) (scalar_fields sch)) as [bs|];
    [| discriminate].
  injection Hinit as <-.
  split; [| split].
  - intros f Hf.
    refine (proj1 (MapperFacts.foldM_rows_lists coerce_element sch f _ _ _ [] Hwf _ Hfold) Hf).
    cbn [lists]. apply MapperFacts.empty_containers_get, in_app_iff. now right.
  - intros f ty Hf.
    refine (proj2 (MapperFacts.foldM_rows_lists coerce_element sch f _ _ _ [] Hwf _ Hfold) ty Hf).
    cbn [lists]. apply MapperFacts.empty_containers_get, in_app_iff. left.
    change f with (fst (f, ty)). now apply in_map.
  - eapply MapperFacts.foldM_rows_sets; [| exact Hfold].
    cbn [sets]. apply MapperFacts.empty_containers_sets_nodup.
Qed.

Lemma combining_mapper_folds_partitions_witness :
  NoDup (map fst CombiningDbModel.(csv_list_fields) ++ CombiningDbModel.(list_fields))
  /\ map fst (partition_rows CombiningDbModel combining_rows)
     = first_seen (map (row_identity CombiningDbModel) combining_rows)
  /\ NoDup (map fst (partition_rows CombiningDbModel combining_rows)).
Proof.
  assert (Hwf : NoDup (map fst CombiningDbModel.(csv_list_fields)
                       ++ CombiningDbModel.(list_fields)))
    by (simpl; constructor; [intros [] | constructor]).
  split; [exact Hwf |].
  destruct (combining_mapper_folds_partitions plain_element plain_scalar
              CombiningDbModel combining_rows Hwf) as (H1 & H2 & _).
  split; [exact H1 | exact H2].
Defined.

(** The combining test of the test module: two records, identity 1 first. *)
Example combining_rows_mapped :
  map_records plain_element plain_scalar CombiningDbModel combining_rows
  = Some [ {| scalars := [("id", SInt 1)];
              lists := [("list1", [SStr "val1"; SStr "val3"])];
              sets := [("set1", [SStr "val2"; SStr "val4"])];
              dicts := [("dict1", [(SStr "k1", SStr "v1"); (SStr "k2", SStr "v2")]);
                        ("dict2", [(SStr "k3", SInt 3); (SStr "k4", SInt 4)])] |};
           {| scalars := [("id", SInt 2)];
              lists := [("list1", [SStr "val1"])];
              sets := [("set1", [])];
              dicts := [("dict1", []); ("dict2", [])] |} ].
Proof. vm_compute; reflexivity. Qed.


(** ** The input is left as it was *)

(** C9: whatever the store and whatever [get_query_data] is given, the store
    after the call -- whether it returns or raises -- is the store before it
    followed by objects the call allocated: every object that existed
    before, the QueryData, the mappings and the lists it refers to among
    them, is the same after the call; nothing else is affected, the result
    apart. *)
Theorem get_query_data_leaves_store_unchanged :
  forall (data : Store.value) (h : Store.store),
    (exists fresh, snd (Store.get_query_data data h) = (h ++ fresh)%list)
    /\ (forall l o, nth_error h l = Some o ->
                    nth_error (snd (Store.get_query_data data h)) l = Some o).
Proof.
  intros data h.
  destruct (StoreFacts.pres_get_query_data (List.length h) data h (le_n _)) as [Hfirst _].
  rewrite firstn_all in Hfirst.
  assert (Hext : snd (Store.get_query_data data h)
                 = (h ++ skipn (List.length h) (snd (Store.get_query_data data h)))%list).
  { pose proof (firstn_skipn (List.length h) (snd (Store.get_query_data data h))) as E.
    rewrite Hfirst in E. symmetry. exact E. }
  split; [eexists; exact Hext |].
  intros l o Hl. rewrite Hext, nth_error_app1; [exact Hl |].
  apply nth_error_Some. congruence.
Qed.

(** On the store of the worked example the call returns the text of the
    first rendition and a reference to a new mapping with the same
    bindings; the three objects of the input are untouched. *)
Example example_store_assembled :
  exists fresh,
    Store.get_query_data (Store.VRef 2) Store.example_store
    = (Ok ("SELECT * FROM t WHERE x x IN ( :in__x_0, :in__x_1 ) ", Store.VRef 3),
       (Store.example_store ++ fresh)%list)
    /\ nth_error fresh 0
       = Some (Store.ODict [("in__x_0", Store.VInt 1); ("in__x_1", Store.VInt 2)]).
Proof. eexists. vm_compute. split; reflexivity. Qed.

(* ===================================================================== *)
(** * Further properties of the query assembly *)
(* ===================================================================== *)

(** ** Splitting a key on the double underscore *)

Lemma rev_string_app : forall s acc, rev_string acc s = rev_string "" s ++ acc.
Proof.
  induction s as [|c s IH]; intros acc; [reflexivity |].
  cbn [rev_string]. rewrite (IH (String c acc)), (IH (String c "")).
  now rewrite sapp_assoc.
Qed.

Lemma split_go_nonempty sep : forall s skip cur, split_go sep skip cur s <> [].
Proof.
  induction s as [|c s IH]; intros skip cur; cbn [split_go]; [discriminate |].
  destruct skip; [| apply IH].
  destruct (prefix sep (String c s)); [discriminate | apply IH].
Qed.

Lemma split_go_absent sep : forall s cur,
  occurs sep s = false -> split_go sep 0 cur s = [rev_string "" cur ++ s].
Proof.
  induction s as [|c s IH]; intros cur Hocc.
  - cbn [split_go]. now rewrite sapp_nil_r.
  - rewrite occurs_cons in Hocc. apply orb_false_iff in Hocc as [Hp Ho].
    cbn [split_go]. rewrite Hp, (IH _ Ho).
    cbn [rev_string]. rewrite (rev_string_app cur (String c "")).
    now rewrite sapp_assoc.
Qed.

Lemma split_go_occurs sep : forall s cur,
  sep <> "" -> occurs sep s = true -> 2 <= List.length (split_go sep 0 cur s).
Proof.
  induction s as [|c s IH]; intros cur Hsep Hocc.
  - destruct sep; [congruence | discriminate].
  - rewrite occurs_cons in Hocc. cbn [split_go].
    destruct (prefix sep (String c s)) eqn:Hp.
    + cbn [List.length].
      pose proof (split_go_nonempty sep s (String.length sep - 1) "") as Hne.
      destruct (split_go sep (String.length sep - 1) "" s); [congruence |].
      cbn [List.length]. lia.
    + cbn [orb] in Hocc. now apply IH.
Qed.

(** A key made of a keyword, the double underscore and the rest splits at
    the first double underscore, and again wherever the rest holds one. *)
Lemma split_key kw rest :
  keyword kw ->
  split (kw ++ "__" ++ rest) "__" = Ok (kw :: split_go "__" 0 "" rest).
Proof.
  intros [-> | [-> | ->]]; destruct rest; reflexivity.
Qed.

Lemma split_plain_key kw rest :
  keyword kw -> occurs "__" rest = false ->
  split (kw ++ "__" ++ rest) "__" = Ok [kw; rest].
Proof.
  intros Hkw Hocc. rewrite (split_key kw rest Hkw).
  now rewrite (split_go_absent "__" rest "" Hocc).
Qed.

Lemma split_double_key kw rest :
  keyword kw -> occurs "__" rest = true ->
  exists a b c l, split (kw ++ "__" ++ rest) "__" = Ok (a :: b :: c :: l).
Proof.
  intros Hkw Hocc. rewrite (split_key kw rest Hkw).
  pose proof (split_go_occurs "__" rest "" ltac:(discriminate) Hocc) as Hlen.
  destruct (split_go "__" 0 "" rest) as [|b [|c l]]; cbn [List.length] in Hlen; try lia.
  now exists kw, b, c, l.
Qed.

(** ** Validation *)

Lemma repr_list_one (k : string) : repr_list [k] = "['" ++ k ++ "']".
Proof.
  unfold repr_list, repr_str, join. cbn [map String.concat].
  cbn [append]. now rewrite sapp_assoc.
Qed.

Lemma placeholder_key_not_values query key :
  In key (placeholder_keys query) -> key <> "values".
Proof.
  intros Hkey ->. apply placeholder_keys_shape in Hkey.
  destruct Hkey as (kw & tbl & col & E & [-> | [-> | ->]] & _); discriminate.
Qed.

Lemma missing_keys_of_present tp key :
  key <> "values" -> key_present tp key = true -> missing_keys_of tp key = Ok [].
Proof.
  intros Hkey Hp. unfold missing_keys_of. destruct tp as [tp|]; [| discriminate].
  cbn [key_present] in Hp. apply negb_true_iff in Hp. rewrite Hp.
  destruct (String.eqb_spec key "values") as [-> | _]; [congruence | reflexivity].
Qed.

Lemma missing_keys_of_absent tp key :
  key_present tp key = false -> missing_keys_of tp key = Ok [key].
Proof.
  intros Hp. unfold missing_keys_of. destruct tp as [tp|]; [| reflexivity].
  cbn [key_present] in Hp. apply negb_false_iff in Hp. now rewrite Hp.
Qed.

Lemma validate_loop_present tp : forall ms q vk,
  (forall g, In g ms -> key_of_groups g <> "values"
                        /\ key_present tp (key_of_groups g) = true) ->
  exists q', validate_loop ms tp q vk = Ok (q', (vk ++ map key_of_groups ms)%list).
Proof.
  induction ms as [|g ms IH]; intros q vk Hall.
  - exists q. cbn [validate_loop map]. now rewrite List.app_nil_r.
  - destruct (Hall g (or_introl eq_refl)) as [Hv Hp].
    cbn [validate_loop]. rewrite (missing_keys_of_present _ _ Hv Hp).
    cbn [Py.bind List.length Nat.ltb Nat.leb].
    destruct (IH (replace q (item g 0) (strip (item g 0)))
                 (vk ++ [key_of_groups g])%list) as [q' Hq'].
    { intros g' Hg'. apply Hall. now right. }
    exists q'. rewrite Hq'. cbn [map]. now rewrite <- List.app_assoc.
Qed.

Lemma validate_loop_first_missing tp : forall ms1 g ms2 q vk,
  (forall g', In g' ms1 -> key_of_groups g' <> "values"
                           /\ key_present tp (key_of_groups g') = true) ->
  key_present tp (key_of_groups g) = false ->
  validate_loop (ms1 ++ g :: ms2) tp q vk
  = Raise (ListTemplateException
             ("Missing template keys " ++ repr_list [key_of_groups g])).
Proof.
  induction ms1 as [|g1 ms1 IH]; intros g ms2 q vk Hall Hmiss.
  - cbn [List.app validate_loop]. rewrite (missing_keys_of_absent _ _ Hmiss). reflexivity.
  - destruct (Hall g1 (or_introl eq_refl)) as [Hv Hp].
    cbn [List.app validate_loop]. rewrite (missing_keys_of_present _ _ Hv Hp).
    cbn [Py.bind List.length Nat.ltb Nat.leb].
    apply IH; [| exact Hmiss]. intros g' Hg'. apply Hall. now right.
Qed.

Lemma validate_loop_ok_present tp : forall ms q vk r,
  validate_loop ms tp q vk = Ok r ->
  forall g, In g ms -> key_present tp (key_of_groups g) = true.
Proof.
  induction ms as [|g ms IH]; intros q vk r H g' Hg'; [destruct Hg' |].
  cbn [validate_loop] in H.
  destruct (key_present tp (key_of_groups g)) eqn:Hp.
  - destruct Hg' as [<- | Hg']; [exact Hp |].
    destruct (missing_keys_of tp (key_of_groups g)) as [mk|e]; [| discriminate].
    cbn [Py.bind] in H. destruct (0 <? List.length mk)%nat; [discriminate |].
    now apply (IH _ _ _ H).
  - rewrite (missing_keys_of_absent _ _ Hp) in H. discriminate.
Qed.


(** X1: validation accepts a query exactly when every placeholder key
    scanned from it has a value other than [None] in [template_params]; a
    query without placeholders is accepted whatever [template_params] is,
    [None] included. *)
Theorem validation_succeeds_iff (query : string) (tp : option (dict pyval)) :
  (exists q', __validate_keys_clean_query query tp = Ok (q', placeholder_keys query))
  <-> (forall key, In key (placeholder_keys query) -> key_present tp key = true).
Proof.
  split.
  - intros [q' H] key Hkey. unfold placeholder_keys in Hkey.
    apply in_map_iff in Hkey. destruct Hkey as (g & <- & Hg).
    exact (validate_loop_ok_present _ _ _ _ _ H g Hg).
  - intros Hall. unfold __validate_keys_clean_query.
    apply (validate_loop_present tp _ query []).
    intros g Hg.
    assert (Hin : In (key_of_groups g) (placeholder_keys query))
      by (unfold placeholder_keys; now apply in_map).
    split; [exact (placeholder_key_not_values _ _ Hin) | now apply Hall].
Qed.

(** X2: when some placeholder key has no value, validation raises at the
    first such key in the order of the text, and the message names that key
    alone. *)
Theorem validation_names_first_missing (query : string) (tp : option (dict pyval))
    (pre : list string) (key : string) (post : list string) :
  placeholder_keys query = (pre ++ key :: post)%list ->
  (forall k, In k pre -> key_present tp k = true) ->
  key_present tp key = false ->
  __validate_keys_clean_query query tp
  = Raise (ListTemplateException ("Missing template keys ['" ++ key ++ "']")).
Proof.
  intros Hkeys Hpre Hmiss. unfold __validate_keys_clean_query.
  assert (Hshape : forall k, In k (placeholder_keys query) -> k <> "values")
    by (intros k; apply placeholder_key_not_values).
  unfold placeholder_keys in Hkeys, Hshape.
  remember (Re.findall LIST_TEMPLATE_REGEX LIST_TEMPLATE_GROUPS query) as ms eqn:Ems.
  clear Ems.
  apply map_eq_app in Hkeys. destruct Hkeys as (ms1 & ms' & -> & <- & Hms').
  apply map_eq_cons in Hms'. destruct Hms' as (g & ms2 & -> & <- & <-).
  rewrite (validate_loop_first_missing tp ms1 g ms2 query []).
  - now rewrite repr_list_one.
  - intros g' Hg'. split.
    + apply Hshape. rewrite map_app. apply in_or_app. left. now apply in_map.
    + apply Hpre. now apply in_map.
  - exact Hmiss.
Qed.

Lemma validation_names_first_missing_witness :
  __validate_keys_clean_query two_missing.(query) two_missing.(template_params)
  = Raise (ListTemplateException "Missing template keys ['in__a']").
Proof.
  apply (validation_names_first_missing _ _ [] "in__a" ["in__b"]).
  - vm_compute. reflexivity.
  - intros k [].
  - reflexivity.
Defined.

(** ** The call made for a key *)

Lemma assemble_loop_calls tp : forall keys q p r,
  assemble_loop tp keys q p = Ok r ->
  forall k, In k keys -> exists r', template_call tp k = Ok r'.
Proof.
  induction keys as [|key keys IH]; intros q p r H k Hk; [destruct Hk |].
  rewrite assemble_loop_cons in H.
  destruct (template_call tp key) as [r'|e] eqn:Hcall; [| discriminate].
  cbn [Py.bind] in H. destruct Hk as [<- | Hk]; [now exists r' |].
  exact (IH _ _ _ H k Hk).
Qed.

Lemma get_query_data_inv d r :
  get_query_data (AQueryData d) = Ok r ->
  exists q' p0,
    __validate_keys_clean_query d.(query) d.(template_params)
    = Ok (q', placeholder_keys d.(query))
    /\ merge_query_params [] d.(query_params) = Ok p0
    /\ assemble_loop d.(template_params) (placeholder_keys d.(query)) q' p0 = Ok r.
Proof.
  unfold get_query_data. cbn [__validate_query_and_params Py.bind].
  destruct (__validate_keys_clean_query (query d) (template_params d))
    as [[q' keys]|e] eqn:Hval; [| discriminate].
  cbn [Py.bind].
  destruct (merge_query_params [] (query_params d)) as [p0|e] eqn:Hm; [| discriminate].
  cbn [Py.bind]. intros H.
  pose proof (validated_keys_are_placeholders _ _ _ _ Hval) as ->.
  now exists q', p0.
Qed.

(** X3: a placeholder whose text after the keyword holds a double
    underscore can never be assembled: the key splits into more than two
    parts, which the unpacking into keyword and column name rejects, so
    [get_query_data] raises whatever [template_params] holds. *)
Theorem double_underscore_never_assembles (d : QueryData) (kw rest : string) :
  keyword kw ->
  In (kw ++ "__" ++ rest) (placeholder_keys d.(query)) ->
  occurs "__" rest = true ->
  exists ex, get_query_data (AQueryData d) = Raise ex.
Proof.
  intros Hkw Hin Hocc.
  destruct (get_query_data (AQueryData d)) as [r|ex] eqn:H; [| now exists ex].
  exfalso.
  apply get_query_data_inv in H. destruct H as (q' & p0 & _ & _ & Hloop).
  destruct (assemble_loop_calls _ _ _ _ _ Hloop _ Hin) as [r' Hcall].
  apply template_call_inv in Hcall.
  destruct Hcall as (kw' & col & v & f & Hsplit & _).
  destruct (split_double_key kw rest Hkw Hocc) as (a & b & c & l & Hsplit').
  congruence.
Qed.

Lemma double_underscore_never_assembles_witness :
  exists ex, get_query_data (AQueryData double_underscore) = Raise ex.
Proof.
  apply (double_underscore_never_assembles double_underscore "in" "first__name").
  - now left.
  - vm_compute. now left.
  - reflexivity.
Defined.

(** What the call does there. *)
Example double_underscore_raises :
  get_query_data (AQueryData double_underscore) = Raise ValueError.
Proof. vm_compute. reflexivity. Qed.


(** ** The parameterization of a list *)

Lemma dict_set_absent {V : Type} (d : dict V) k (v : V) :
  ~ In k (dict_keys d) -> dict_set d k v = (d ++ [(k, v)])%list.
Proof.
  induction d as [|[k' v'] d IH]; intros Hk; [reflexivity |].
  cbn [dict_set List.app]. cbn [dict_keys map fst] in Hk.
  destruct (String.eqb_spec k' k) as [-> | _]; [exfalso; apply Hk; now left |].
  rewrite IH; [reflexivity |]. intros Hin. apply Hk. now right.
Qed.

Lemma dict_keys_app {V : Type} (d1 d2 : dict V) :
  dict_keys (d1 ++ d2)%list = (dict_keys d1 ++ dict_keys d2)%list.
Proof. apply map_app. Qed.

Lemma dict_update_disjoint (d other : dict pyval) :
  NoDup (dict_keys other) ->
  (forall k, In k (dict_keys other) -> ~ In k (dict_keys d)) ->
  dict_update d other = (d ++ other)%list.
Proof.
  revert d. induction other as [|[k v] other IH]; intros d Hnd Hdis.
  - unfold dict_update. cbn [fold_left]. now rewrite List.app_nil_r.
  - rewrite dict_update_cons.
    cbn [dict_keys map fst] in Hnd, Hdis. inversion Hnd as [|? ? Hk Hnd']; subst.
    rewrite dict_set_absent by (apply Hdis; now left).
    rewrite IH; [now rewrite <- List.app_assoc | exact Hnd' |].
    intros k' Hk' Hin. rewrite dict_keys_app in Hin. apply in_app_or in Hin.
    destruct Hin as [Hin | [<- | []]].
    + apply (Hdis k'); [now right | exact Hin].
    + apply Hk. exact Hk'.
Qed.

Lemma inner_loop_closed key : forall items index pv pk,
  (forall i, index <= i ->
             ~ In (replace key "." "_" ++ "_" ++ str i) (dict_keys pv)) ->
  Templates.inner_loop key items index pv pk
  = ((pv ++ combine (map (fun i => (replace key "." "_" ++ "_" ++ str i)%string)
                         (seq index (List.length items))) items)%list,
     (pk ++ map (fun i => (replace key "." "_" ++ "_" ++ str i)%string)
                (seq index (List.length items)))%list).
Proof.
  induction items as [|v items IH]; intros index pv pk Hfresh.
  - cbn [Templates.inner_loop List.length seq map combine]. now rewrite !List.app_nil_r.
  - cbn [Templates.inner_loop List.length seq map combine].
    rewrite dict_set_absent by (apply Hfresh; lia).
    rewrite IH.
    + now rewrite <- !List.app_assoc.
    + intros i Hi Hin. rewrite dict_keys_app in Hin. apply in_app_or in Hin.
      destruct Hin as [Hin | [E | []]].
      * apply (Hfresh i); [lia | exact Hin].
      * cbn [fst] in E. apply indexed_name_inj in E. lia.
Qed.

Lemma inner_locals_closed key items :
  Templates.inner_locals key (PList items)
  = (combine (indexed_names key (List.length items)) items,
     indexed_names key (List.length items))
  /\ Templates.inner_locals key (PTuple items)
     = (combine (indexed_names key (List.length items)) items,
        indexed_names key (List.length items)).
Proof.
  unfold Templates.inner_locals, indexed_names.
  rewrite (inner_loop_closed key items 0 [] []) by (intros i _ []).
  split; reflexivity.
Qed.

Lemma parameterize_inner_list_eq (key : string) (items : list pyval) :
  Templates._parameterize_inner_list key (PList items)
  = ("( :" ++ join ", :" (indexed_names key (List.length items)) ++ " )",
     combine (indexed_names key (List.length items)) items)
  /\ Templates._parameterize_inner_list key (PTuple items)
     = ("( :" ++ join ", :" (indexed_names key (List.length items)) ++ " )",
        combine (indexed_names key (List.length items)) items).
Proof.
  unfold Templates._parameterize_inner_list.
  destruct (inner_locals_closed key items) as [-> ->]. split; reflexivity.
Qed.

(** X4: expanding a list or a tuple of [n] values under [key] gives the
    names [key_0 .. key_(n-1)] (dots of the key turned into underscores),
    binds the i-th name to the i-th value, in that order and with nothing
    else, and lists the same names, each after a colon, between the
    parentheses of the fragment. *)
Theorem parameterize_inner_list_closed (key : string) (items : list pyval) :
  Templates._parameterize_inner_list key (PList items)
  = ("( :" ++ join ", :" (indexed_names key (List.length items)) ++ " )",
     combine (indexed_names key (List.length items)) items)
  /\ Templates._parameterize_inner_list key (PTuple items)
     = ("( :" ++ join ", :" (indexed_names key (List.length items)) ++ " )",
        combine (indexed_names key (List.length items)) items).
Proof.
  unfold Templates._parameterize_inner_list.
  destruct (inner_locals_closed key items) as [-> ->]. split; reflexivity.
Qed.

Lemma list_loop_flat key vals : forall items index pv pk,
  startswith key "values" = false ->
  existsb (fun v => negb (isinstance_tuple v)) items = true ->
  Templates.list_loop key vals items index pv pk
  = Templates._parameterize_inner_list key vals.
Proof.
  induction items as [|v items IH]; intros index pv pk Hkey Hex; [discriminate |].
  cbn [Templates.list_loop]. rewrite Hkey, orb_false_r.
  cbn [existsb] in Hex.
  destruct (isinstance_tuple v); [| reflexivity].
  cbn [negb orb] in Hex.
  destruct (Templates._parameterize_inner_list _ v) as [ps ipv].
  now apply IH.
Qed.

(** X5: under a key that does not start with [values], a list in which some
    element is not a tuple is expanded flat, whatever comes before that
    element: the groups built for earlier tuples are dropped and every
    element, tuples included, is bound whole under its own index. *)
Theorem parameterize_list_mixed_is_flat (key : string) (items : list pyval) :
  startswith key "values" = false ->
  existsb (fun v => negb (isinstance_tuple v)) items = true ->
  Templates._parameterize_list key (PList items)
  = Ok ("( :" ++ join ", :" (indexed_names key (List.length items)) ++ " )",
        combine (indexed_names key (List.length items)) items).
Proof.
  intros Hkey Hex. unfold Templates._parameterize_list.
  cbn [isinstance_str iter Py.bind].
  rewrite (list_loop_flat key (PList items) items 0 [] [] Hkey Hex).
  now rewrite (proj1 (parameterize_inner_list_eq key items)).
Qed.

Lemma parameterize_list_mixed_is_flat_witness :
  Templates._parameterize_list "in__x" (PList [PTuple [PInt 1; PInt 2]; PInt 3])
  = Ok ("( :in__x_0, :in__x_1 )",
        [("in__x_0", PTuple [PInt 1; PInt 2]); ("in__x_1", PInt 3)]).
Proof.
  apply (parameterize_list_mixed_is_flat "in__x" [PTuple [PInt 1; PInt 2]; PInt 3]);
    reflexivity.
Defined.


Lemma keyword_key_nonempty kw rest : keyword kw -> kw ++ "__" ++ rest <> "".
Proof. intros [-> | [-> | ->]]; discriminate. Qed.

Lemma existsb_nonempty {A : Type} (f : A -> bool) (l : list A) :
  existsb f l = true -> l <> [].
Proof. destruct l; [discriminate | discriminate]. Qed.

(** X6: a placeholder [{in__c}] or [{not_in__c}] whose value is a list with
    some element that is not a tuple is rendered as [c IN ( :k_0, .., :k_n )]
    (resp. [NOT IN]), [c] being the text after the double underscore, table
    and dot included, and [k] the whole key with its dots turned into
    underscores; the i-th name is bound to the i-th value. *)
Theorem in_placeholder_expansion (tp : option (dict pyval)) (kw word rest : string)
    (items : list pyval) :
  (kw = "in" /\ word = " IN ") \/ (kw = "not_in" /\ word = " NOT IN ") ->
  occurs "__" rest = false ->
  subscript tp (kw ++ "__" ++ rest) = Ok (PList items) ->
  existsb (fun v => negb (isinstance_tuple v)) items = true ->
  template_call tp (kw ++ "__" ++ rest)
  = Ok (rest ++ word ++ "( :"
          ++ join ", :" (indexed_names (kw ++ "__" ++ rest) (List.length items))
          ++ " )",
        Some (combine (indexed_names (kw ++ "__" ++ rest) (List.length items)) items)).
Proof.
  intros Hkw Hocc Hsub Hex.
  assert (Hk : keyword kw) by (destruct Hkw as [[-> _] | [-> _]]; [now left | right; now left]).
  assert (Hval : startswith (kw ++ "__" ++ rest) "values" = false)
    by (destruct Hkw as [[-> _] | [-> _]]; reflexivity).
  unfold template_call. rewrite (split_plain_key kw rest Hk Hocc).
  cbn [Py.bind]. rewrite Hsub. cbn [Py.bind].
  assert (Htruthy : truthy (PList items) = true).
  { pose proof (existsb_nonempty _ _ Hex). destruct items; [congruence | reflexivity]. }
  assert (Hpl : Templates._parameterize_list (kw ++ "__" ++ rest) (PList items)
                = Ok ("( :" ++ join ", :"
                                (indexed_names (kw ++ "__" ++ rest) (List.length items))
                        ++ " )",
                      combine (indexed_names (kw ++ "__" ++ rest) (List.length items))
                              items)).
  { unfold Templates._parameterize_list. cbn [isinstance_str iter Py.bind].
    rewrite (list_loop_flat _ (PList items) items 0 [] [] Hval Hex).
    now rewrite (proj1 (parameterize_inner_list_eq _ items)). }
  destruct Hkw as [[-> ->] | [-> ->]].
  - cbn [Templates.get_template String.eqb Ascii.eqb Bool.eqb].
    unfold Templates.in_column. rewrite Htruthy. cbn [negb].
    rewrite key_name_of_key by (apply keyword_key_nonempty; now left).
    rewrite Hpl. reflexivity.
  - cbn [Templates.get_template String.eqb Ascii.eqb Bool.eqb].
    unfold Templates.not_in_column. rewrite Htruthy. cbn [negb].
    rewrite key_name_of_key by (apply keyword_key_nonempty; right; now left).
    rewrite Hpl. reflexivity.
Qed.

Lemma in_placeholder_expansion_witness :
  template_call (Some [("not_in__t.c", PList [PStr "a"; PStr "b"])]) "not_in__t.c"
  = Ok ("t.c NOT IN ( :not_in__t_c_0, :not_in__t_c_1 )",
        Some [("not_in__t_c_0", PStr "a"); ("not_in__t_c_1", PStr "b")]).
Proof.
  apply (in_placeholder_expansion
           (Some [("not_in__t.c", PList [PStr "a"; PStr "b"])])
           "not_in" " NOT IN " "t.c" [PStr "a"; PStr "b"]).
  - right. split; reflexivity.
  - reflexivity.
  - reflexivity.
  - reflexivity.
Defined.

Lemma row_name_index key i j i' j' :
  (replace (key ++ "_" ++ str i) "." "_" ++ "_" ++ str j)
  = (replace (key ++ "_" ++ str i') "." "_" ++ "_" ++ str j') ->
  i = i' /\ j = j'.
Proof.
  intros E. rewrite !replace_dots, !undot_indexed in E.
  apply index_suffix_inj in E; try apply str_digits.
  destruct E as [E Ej]. apply index_suffix_inj in E; try apply str_digits.
  destruct E as [_ Ei]. split; now apply str_inj.
Qed.

Lemma row_bindings_keys key ir n :
  In n (dict_keys (row_bindings key ir)) ->
  exists j, n = replace (key ++ "_" ++ str (fst ir)) "." "_" ++ "_" ++ str j.
Proof.
  unfold row_bindings, dict_keys. intros Hin.
  apply in_map_iff in Hin. destruct Hin as ([n' v] & <- & Hin).
  apply in_combine_l in Hin. unfold row_names, indexed_names in Hin.
  apply in_map_iff in Hin. destruct Hin as (j & <- & _). now exists j.
Qed.

Lemma list_loop_rows key vals : forall rows index pv pk,
  (forall i j, index <= i ->
     ~ In (replace (key ++ "_" ++ str i) "." "_" ++ "_" ++ str j) (dict_keys pv)) ->
  Templates.list_loop key vals (map PTuple rows) index pv pk
  = (join ", " (pk ++ map (row_group key) (combine (seq index (List.length rows)) rows))%list,
     (pv ++ flat_map (row_bindings key) (combine (seq index (List.length rows)) rows))%list).
Proof.
  induction rows as [|row rows IH]; intros index pv pk Hfresh.
  - cbn [map Templates.list_loop List.length seq combine flat_map].
    now rewrite !List.app_nil_r.
  - cbn [map Templates.list_loop List.length seq combine flat_map isinstance_tuple orb].
    pose proof (parameterize_inner_list_nodup (key ++ "_" ++ str index) (PTuple row)) as Hnd.
    rewrite (proj2 (parameterize_inner_list_eq (key ++ "_" ++ str index) row)) in Hnd |- *.
    cbn [snd] in Hnd.
    change (combine (indexed_names (key ++ "_" ++ str index) (List.length row)) row)
      with (row_bindings key (index, row)) in Hnd |- *.
    change ("( :" ++ join ", :" (indexed_names (key ++ "_" ++ str index) (List.length row))
              ++ " )")
      with (row_group key (index, row)).
    rewrite dict_update_disjoint; [| exact Hnd |].
    + rewrite IH.
      * now rewrite <- !List.app_assoc.
      * intros i j Hi Hin. rewrite dict_keys_app in Hin. apply in_app_or in Hin.
        destruct Hin as [Hin | Hin]; [apply (Hfresh i j); [lia | exact Hin] |].
        apply row_bindings_keys in Hin. destruct Hin as [j' E]. cbn [fst] in E.
        apply row_name_index in E. lia.
    + intros k Hk. apply row_bindings_keys in Hk. destruct Hk as [j ->]. cbn [fst].
      apply Hfresh. lia.
Qed.

(** X7: a list of tuples is expanded tuple by tuple, under any key: the
    fragment is the groups of the tuples joined by commas, the element [j]
    of the tuple [i] is named [key_i_j] (dots turned into underscores), and
    the mapping holds these bindings in order, one per element and none
    lost, whatever the number and the lengths of the tuples. *)
Theorem parameterize_list_of_tuples (key : string) (rows : list (list pyval)) :
  Templates._parameterize_list key (PList (map PTuple rows))
  = Ok (join ", " (map (row_group key) (enumerated rows)),
        flat_map (row_bindings key) (enumerated rows)).
Proof.
  unfold Templates._parameterize_list. cbn [isinstance_str iter Py.bind].
  rewrite (list_loop_rows key _ rows 0 [] []) by (intros i j _ []).
  reflexivity.
Qed.


(** ** What [get_query_data] raises *)

Lemma validate_loop_raise_inv tp : forall ms q vk ex,
  (forall g, In g ms -> key_of_groups g <> "values") ->
  validate_loop ms tp q vk = Raise ex ->
  exists key, In key (map key_of_groups ms)
              /\ key_present tp key = false
              /\ ex = ListTemplateException ("Missing template keys ['" ++ key ++ "']").
Proof.
  induction ms as [|g ms IH]; intros q vk ex Hshape H; cbn [validate_loop] in H;
    [discriminate |].
  destruct (key_present tp (key_of_groups g)) eqn:Hp.
  - rewrite (missing_keys_of_present _ _ (Hshape g (or_introl eq_refl)) Hp) in H.
    cbn [Py.bind List.length Nat.ltb Nat.leb] in H.
    apply IH in H; [| intros g' Hg'; apply Hshape; now right].
    destruct H as (key & Hin & Hk & ->). exists key. repeat split; [now right | exact Hk].
  - rewrite (missing_keys_of_absent _ _ Hp) in H.
    cbn [Py.bind List.length Nat.ltb Nat.leb] in H. injection H as <-.
    exists (key_of_groups g). rewrite repr_list_one. repeat split; [now left | exact Hp].
Qed.

Lemma update_from_seq_raise : forall l p ex,
  update_from_seq p l = Raise ex -> ex = ValueError.
Proof.
  induction l as [|e l IH]; intros p ex H; cbn [update_from_seq] in H; [discriminate |].
  destruct (dict_keys e) as [|k [|v [|w ks]]]; try (now injection H as <-).
  now apply IH in H.
Qed.

Lemma merge_query_params_raise p qp ex :
  merge_query_params p qp = Raise ex -> ex = ValueError.
Proof.
  unfold merge_query_params. destruct qp as [[[|kv d] | [|e l]]|]; try discriminate.
  apply update_from_seq_raise.
Qed.

Lemma assemble_loop_raise tp : forall keys q p ex,
  assemble_loop tp keys q p = Raise ex ->
  exists k, In k keys /\ template_call tp k = Raise ex.
Proof.
  induction keys as [|key keys IH]; intros q p ex H; [discriminate |].
  rewrite assemble_loop_cons in H.
  destruct (template_call tp key) as [r|e] eqn:Hcall; cbn [Py.bind] in H.
  - apply IH in H. destruct H as (k & Hk & Hr). exists k. split; [now right | exact Hr].
  - injection H as <-. exists key. split; [now left | exact Hcall].
Qed.

Lemma key_present_subscript tp key :
  key_present tp key = true ->
  exists v, subscript tp key = Ok v /\ v <> PNone.
Proof.
  unfold key_present, get_is_none, subscript. destruct tp as [tp|]; [| discriminate].
  destruct (dict_get tp key) as [v|]; [| discriminate].
  destruct v; try discriminate; intros _; eexists; (split; [reflexivity | discriminate]).
Qed.

Lemma parameterize_list_raise key v ex :
  Templates._parameterize_list key v = Raise ex ->
  ex = TypeError /\ not_iterable v = true.
Proof.
  unfold Templates._parameterize_list.
  destruct v; cbn [isinstance_str iter Py.bind]; try discriminate;
    intros [= <-]; split; reflexivity.
Qed.

Lemma handler_raise (f : Templates.handler) name v legacy_key ex :
  f = Templates.in_column \/ f = Templates.not_in_column \/ f = Templates.values ->
  f name v legacy_key = Raise ex ->
  (f = Templates.values /\ truthy v = false
   /\ ex = ListTemplateException ("Must have values for " ++ name ++ " template"))
  \/ (ex = TypeError /\ truthy v = true /\ not_iterable v = true).
Proof.
  intros [-> | [-> | ->]];
    unfold Templates.in_column, Templates.not_in_column, Templates.values;
    destruct (truthy v) eqn:Ht; cbn [negb]; try discriminate.
  - destruct (Templates._parameterize_list _ v) as [[ks vs]|e] eqn:Hpl;
      cbn [Py.bind]; [discriminate |].
    intros [= <-]. right. apply parameterize_list_raise in Hpl. tauto.
  - destruct (Templates._parameterize_list _ v) as [[ks vs]|e] eqn:Hpl;
      cbn [Py.bind]; [discriminate |].
    intros [= <-]. right. apply parameterize_list_raise in Hpl. tauto.
  - destruct (Templates._parameterize_list _ v) as [[ks vs]|e] eqn:Hpl;
      cbn [Py.bind]; [discriminate |].
    intros [= <-]. right. apply parameterize_list_raise in Hpl. tauto.
  - intros [= <-]. left. auto.
Qed.

Lemma get_template_keyword kw :
  keyword kw ->
  exists f, Templates.get_template kw = Some f
            /\ (f = Templates.in_column \/ f = Templates.not_in_column
                \/ f = Templates.values)
            /\ (f = Templates.values -> kw = "values").
Proof.
  intros [-> | [-> | ->]]; eexists; (split; [reflexivity |]); split; auto;
    intros H; try reflexivity.
  - apply (f_equal (fun f => f "" PNone None)) in H. discriminate.
  - apply (f_equal (fun f => f "" PNone None)) in H. discriminate.
Qed.

Lemma template_call_raise tp kw rest ex :
  keyword kw ->
  key_present tp (kw ++ "__" ++ rest) = true ->
  template_call tp (kw ++ "__" ++ rest) = Raise ex ->
  ex = ValueError
  \/ (kw = "values"
      /\ ex = ListTemplateException ("Must have values for " ++ rest ++ " template"))
  \/ (ex = TypeError
      /\ exists v, subscript tp (kw ++ "__" ++ rest) = Ok v
                   /\ truthy v = true /\ not_iterable v = true).
Proof.
  intros Hkw Hp H. unfold template_call in H.
  destruct (occurs "__" rest) eqn:Hocc.
  - destruct (split_double_key kw rest Hkw Hocc) as (a & b & c & l & Hsplit).
    rewrite Hsplit in H. cbn [Py.bind] in H. injection H as <-. now left.
  - rewrite (split_plain_key kw rest Hkw Hocc) in H. cbn [Py.bind] in H.
    destruct (key_present_subscript _ _ Hp) as (v & Hsub & _).
    rewrite Hsub in H. cbn [Py.bind] in H.
    destruct (get_template_keyword kw Hkw) as (f & Hf & Hcases & Hvalues).
    rewrite Hf in H.
    destruct (handler_raise f rest v _ ex Hcases H) as [(Hfv & _ & ->) | (-> & Ht & Hn)].
    + right. left. split; [now apply Hvalues | reflexivity].
    + right. right. split; [reflexivity |]. now exists v.
Qed.

(** X8: on a QueryData, [get_query_data] raises nothing but: the
    ListTemplateException of validation, naming a placeholder key that has
    no value; the ListTemplateException of the values handler, for a
    [values] placeholder; ValueError; or TypeError, and then some
    placeholder key has a value that is true and is not iterable (a number
    or [True]). It never raises KeyError, AttributeError or
    QueryDataError. *)
Theorem get_query_data_exceptions (d : QueryData) (ex : exn) :
  get_query_data (AQueryData d) = Raise ex ->
  (exists key, In key (placeholder_keys d.(query))
               /\ key_present d.(template_params) key = false
               /\ ex = ListTemplateException ("Missing template keys ['" ++ key ++ "']"))
  \/ (exists rest, In ("values__" ++ rest) (placeholder_keys d.(query))
                   /\ ex = ListTemplateException
                            ("Must have values for " ++ rest ++ " template"))
  \/ ex = ValueError
  \/ (ex = TypeError
      /\ exists key v, In key (placeholder_keys d.(query))
                       /\ subscript d.(template_params) key = Ok v
                       /\ truthy v = true /\ not_iterable v = true).
Proof.
  unfold get_query_data. cbn [__validate_query_and_params Py.bind].
  destruct (__validate_keys_clean_query (query d) (template_params d))
    as [[q' keys]|e] eqn:Hval; cbn [Py.bind].
  - pose proof (validated_keys_are_placeholders _ _ _ _ Hval) as ->.
    assert (Hpresent : forall key, In key (placeholder_keys (query d)) ->
                                   key_present (template_params d) key = true).
    { intros key Hkey. unfold placeholder_keys in Hkey.
      apply in_map_iff in Hkey. destruct Hkey as (g & <- & Hg).
      exact (validate_loop_ok_present _ _ _ _ _ Hval g Hg). }
    destruct (merge_query_params [] (query_params d)) as [p0|e] eqn:Hm; cbn [Py.bind].
    + intros H. apply assemble_loop_raise in H. destruct H as (k & Hk & Hcall).
      destruct (placeholder_keys_shape _ _ Hk) as (kw & tbl & col & E & Hkw & _).
      subst k.
      destruct (template_call_raise _ kw (tbl ++ col) ex Hkw (Hpresent _ Hk) Hcall)
        as [-> | [(-> & ->) | (-> & v & Hsub & Ht & Hn)]].
      * right. right. now left.
      * right. left. now exists (tbl ++ col).
      * right. right. right. split; [reflexivity |].
        now exists ("" ++ kw ++ "__" ++ tbl ++ col), v.
    + intros [= <-]. apply merge_query_params_raise in Hm. subst e.
      right. right. now left.
  - intros [= <-]. unfold __validate_keys_clean_query in Hval.
    apply validate_loop_raise_inv in Hval.
    + left. exact Hval.
    + intros g Hg. apply (placeholder_key_not_values (query d)).
      unfold placeholder_keys. now apply in_map.
Qed.

Lemma get_query_data_exceptions_witness :
  (exists key, In key (placeholder_keys truthy_number.(query))
               /\ key_present truthy_number.(template_params) key = false
               /\ TypeError = ListTemplateException ("Missing template keys ['" ++ key ++ "']"))
  \/ (exists rest, In ("values__" ++ rest) (placeholder_keys truthy_number.(query))
                   /\ TypeError = ListTemplateException
                                    ("Must have values for " ++ rest ++ " template"))
  \/ TypeError = ValueError
  \/ (TypeError = TypeError
      /\ exists key v, In key (placeholder_keys truthy_number.(query))
                       /\ subscript truthy_number.(template_params) key = Ok v
                       /\ truthy v = true /\ not_iterable v = true).
Proof.
  apply (get_query_data_exceptions truthy_number TypeError). vm_compute. reflexivity.
Defined.

(** ** Where the returned bindings come from *)

Lemma update_from_seq_keys : forall l p p' n,
  update_from_seq p l = Ok p' ->
  In n (dict_keys p') <-> In n (dict_keys p) \/ In n (map (fun e => hd "" (dict_keys e)) l).
Proof.
  induction l as [|e l IH]; intros p p' n H; cbn [update_from_seq] in H.
  - injection H as <-. cbn [map In]. tauto.
  - destruct (dict_keys e) as [|k [|v [|w ks]]] eqn:He; try discriminate.
    rewrite (IH _ _ n H), dict_keys_set. cbn [map In]. rewrite He. cbn [hd].
    split; intros; intuition auto.
Qed.

Lemma merge_query_params_keys qp p0 n :
  merge_query_params [] qp = Ok p0 ->
  In n (dict_keys p0) <-> In n (direct_names qp).
Proof.
  unfold merge_query_params, direct_names.
  destruct qp as [[d | l]|].
  - destruct d as [|kv d]; intros [= <-]; [reflexivity |].
    rewrite dict_keys_update. cbn [dict_keys map In]. tauto.
  - destruct l as [|e l]; [intros [= <-]; reflexivity |].
    intros H. rewrite (update_from_seq_keys _ _ _ n H). cbn [dict_keys map In]. tauto.
  - intros [= <-]. reflexivity.
Qed.

Lemma call_names_of_result tp key frag pd n :
  template_call tp key = Ok (frag, pd) ->
  In n (dict_keys (merged [] pd)) <-> In n (call_names tp key).
Proof.
  intros Hcall. destruct pd as [binds|]; cbn [merged].
  - rewrite dict_keys_update. cbn [dict_keys map In].
    rewrite <- (call_names_are_keys _ _ _ _ n Hcall). unfold dict_keys. tauto.
  - cbn [dict_keys map In]. split; [tauto |].
    apply template_call_inv in Hcall.
    destruct Hcall as (kw & col & v & f & _ & Hsub & Hf & Hrun).
    apply get_template_inv in Hf.
    assert (Hcases : f = Templates.in_column \/ f = Templates.not_in_column
                     \/ f = Templates.values) by tauto.
    destruct (handler_none_inv f col v _ frag Hcases Hrun) as [Ht _].
    unfold call_names. now rewrite Hsub, Ht.
Qed.

Lemma merged_keys p pd n :
  In n (dict_keys (merged p pd)) <-> In n (dict_keys p) \/ In n (dict_keys (merged [] pd)).
Proof.
  destruct pd as [binds|]; cbn [merged].
  - rewrite !dict_keys_update. cbn [dict_keys map In]. tauto.
  - cbn [dict_keys map In]. tauto.
Qed.

Lemma assemble_loop_keys tp : forall keys q p sql params n,
  assemble_loop tp keys q p = Ok (sql, params) ->
  In n (dict_keys params)
  <-> In n (dict_keys p) \/ exists k, In k keys /\ In n (call_names tp k).
Proof.
  induction keys as [|key keys IH]; intros q p sql params n H.
  - injection H as _ <-. split; [tauto | intros [H | (k & [] & _)]; exact H].
  - rewrite assemble_loop_cons in H.
    destruct (template_call tp key) as [[frag pd]|e] eqn:Hcall; [| discriminate].
    cbn [Py.bind fst snd] in H.
    rewrite (IH _ _ _ _ n H), merged_keys, (call_names_of_result _ _ _ _ n Hcall).
    split.
    + intros [[Hp | Hc] | (k & Hk & Hn)]; [now left | |].
      * right. exists key. split; [now left | exact Hc].
      * right. exists k. split; [now right | exact Hn].
    + intros [Hp | (k & [<- | Hk] & Hn)]; [now left; left | now left; right |].
      right. now exists k.
Qed.

Lemma generated_names_in d n :
  In n (generated_names d)
  <-> exists k, In k (placeholder_keys d.(query)) /\ In n (call_names d.(template_params) k).
Proof.
  unfold generated_names. rewrite in_flat_map.
  split; intros (k & Hk & Hn); exists k; (split; [| exact Hn]).
  - now apply dedup_in.
  - now apply dedup_in.
Qed.

(** X9: the names bound in the mapping that [get_query_data] returns are
    exactly the names bound by [query_params] together with the names
    generated for the placeholders of the query: nothing else is added and
    none of them is dropped. *)
Theorem result_names (d : QueryData) (sql : string) (params : dict pyval) (n : string) :
  get_query_data (AQueryData d) = Ok (sql, params) ->
  In n (dict_keys params)
  <-> In n (direct_names d.(query_params)) \/ In n (generated_names d).
Proof.
  intros H. apply get_query_data_inv in H. destruct H as (q' & p0 & _ & Hm & Hloop).
  rewrite (assemble_loop_keys _ _ _ _ _ _ n Hloop).
  rewrite (merge_query_params_keys _ _ n Hm), generated_names_in. reflexivity.
Qed.

Lemma result_names_witness :
  In "in__x_0" (dict_keys [("in__x_0", PInt 1)])
  <-> In "in__x_0" (direct_names clash.(query_params)) \/ In "in__x_0" (generated_names clash).
Proof.
  apply (result_names clash "SELECT * FROM t WHERE x x IN ( :in__x_0 ) "
                      [("in__x_0", PInt 1)] "in__x_0").
  vm_compute. reflexivity.
Defined.

(** X10: a name of [query_params] that no placeholder generates reaches the
    result with the value [query_params] gives it ([query_params] being a
    mapping, one entry per key). *)
Theorem direct_parameter_passes_through (d : QueryData) (qp : dict pyval)
    (sql : string) (params : dict pyval) (n : string) :
  d.(query_params) = Some (inl qp) ->
  NoDup (dict_keys qp) ->
  get_query_data (AQueryData d) = Ok (sql, params) ->
  ~ In n (generated_names d) ->
  dict_get params n = dict_get qp n.
Proof.
  intros Hqp Hnd H Hgen.
  apply get_query_data_inv in H. destruct H as (q' & p0 & _ & Hm & Hloop).
  assert (Hp0 : dict_get p0 n = dict_get qp n).
  { assert (E : p0 = dict_update [] qp).
    { rewrite Hqp in Hm. unfold merge_query_params in Hm.
      destruct qp; injection Hm as <-; reflexivity. }
    rewrite E, (dict_get_update [] qp n Hnd). cbn [dict_get].
    now destruct (dict_get qp n). }
  destruct (assemble_loop_get _ _ _ _ _ _ n Hloop)
    as [(key & frag & binds & v & Hkey & Hcall & Hb & _) | [_ Hsame]].
  - exfalso. apply Hgen. apply generated_names_in. exists key. split; [exact Hkey |].
    apply (call_names_are_keys _ _ _ _ n Hcall).
    apply dict_get_in_keys. congruence.
  - congruence.
Qed.

Lemma direct_parameter_passes_through_witness :
  dict_get [("limit", PInt 10); ("in__x_0", PInt 1)] "limit"
  = dict_get [("limit", PInt 10)] "limit".
Proof.
  apply (direct_parameter_passes_through
           with_limit [("limit", PInt 10)]
           "SELECT * FROM t WHERE x x IN ( :in__x_0 ) LIMIT :limit"
           [("limit", PInt 10); ("in__x_0", PInt 1)] "limit").
  - reflexivity.
  - repeat constructor. intros [].
  - vm_compute. reflexivity.
  - vm_compute. intros [E | []]. discriminate.
Defined.


(** ** [query_params] given as a list of mappings *)

Lemma update_from_seq_bad : forall l p e,
  In e l -> List.length (dict_keys e) <> 2 ->
  update_from_seq p l = Raise ValueError.
Proof.
  induction l as [|e' l IH]; intros p e Hin Hlen; [destruct Hin |].
  cbn [update_from_seq].
  destruct (dict_keys e') as [|k [|v [|w ks]]] eqn:He'; try reflexivity.
  destruct Hin as [-> | Hin]; [rewrite He' in Hlen; cbn in Hlen; congruence |].
  exact (IH _ e Hin Hlen).
Qed.

(** X11: when [query_params] is a list of mappings, as the docstring of
    [QueryData] allows, and one of them does not have exactly two keys,
    [get_query_data] raises ValueError as soon as validation has passed:
    [params.update] reads every element of the list as a key/value pair. *)
Theorem list_query_params_need_pairs (d : QueryData) (l : list (dict pyval))
    (e : dict pyval) :
  d.(query_params) = Some (inr l) ->
  In e l -> List.length (dict_keys e) <> 2 ->
  (forall key, In key (placeholder_keys d.(query)) ->
               key_present d.(template_params) key = true) ->
  get_query_data (AQueryData d) = Raise ValueError.
Proof.
  intros Hqp Hin Hlen Hpresent.
  unfold get_query_data. cbn [__validate_query_and_params Py.bind].
  unfold __validate_keys_clean_query.
  destruct (validate_loop_present (template_params d)
              (Re.findall LIST_TEMPLATE_REGEX LIST_TEMPLATE_GROUPS (query d))
              (query d) []) as [q' Hq'].
  { intros g Hg.
    assert (Hk : In (key_of_groups g) (placeholder_keys (query d)))
      by (unfold placeholder_keys; now apply in_map).
    split; [exact (placeholder_key_not_values _ _ Hk) | now apply Hpresent]. }
  rewrite Hq'. cbn [Py.bind]. rewrite Hqp. unfold merge_query_params.
  destruct l as [|e' l]; [destruct Hin |].
  now rewrite (update_from_seq_bad (e' :: l) [] e Hin Hlen).
Qed.

Lemma list_query_params_need_pairs_witness :
  get_query_data (AQueryData list_of_singletons) = Raise ValueError.
Proof.
  apply (list_query_params_need_pairs list_of_singletons
           [[("value_a", PInt 1)]] [("value_a", PInt 1)]).
  - reflexivity.
  - now left.
  - cbn. lia.
  - vm_compute. intros key [].
Defined.

Lemma update_from_seq_get : forall l p p' n v,
  update_from_seq p l = Ok p' ->
  dict_get p' n = Some v ->
  dict_get p n = Some v
  \/ exists e k2, In e l /\ dict_keys e = [n; k2] /\ v = PStr k2.
Proof.
  induction l as [|e l IH]; intros p p' n v H Hget; cbn [update_from_seq] in H.
  - injection H as <-. now left.
  - destruct (dict_keys e) as [|k [|x [|w ks]]] eqn:He; try discriminate.
    destruct (IH _ _ _ _ H Hget) as [Hp | (e' & k2 & Hin & Hk & ->)].
    + destruct (String.eqb_spec k n) as [-> | Hne].
      * rewrite dict_get_set_eq in Hp. injection Hp as <-.
        right. exists e, x. repeat split; [now left | exact He].
      * rewrite dict_get_set_ne in Hp by exact Hne. now left.
    + right. exists e', k2. repeat split; [now right | exact Hk].
Qed.

(** X12: when [query_params] is a list of mappings and the call returns,
    every binding of the result that no placeholder generated comes from an
    element of the list with exactly two keys, and binds the first key to
    the second key, a string: the values held in the mappings are not
    looked at. *)
Theorem list_query_params_bind_key_names (d : QueryData) (l : list (dict pyval))
    (sql : string) (params : dict pyval) (n : string) (v : pyval) :
  d.(query_params) = Some (inr l) ->
  get_query_data (AQueryData d) = Ok (sql, params) ->
  ~ In n (generated_names d) ->
  dict_get params n = Some v ->
  exists e k2, In e l /\ dict_keys e = [n; k2] /\ v = PStr k2.
Proof.
  intros Hqp H Hgen Hget.
  apply get_query_data_inv in H. destruct H as (q' & p0 & _ & Hm & Hloop).
  assert (Hp0 : dict_get p0 n = Some v).
  { destruct (assemble_loop_get _ _ _ _ _ _ n Hloop)
      as [(key & frag & binds & v' & Hkey & Hcall & Hb & _) | [_ Hsame]].
    - exfalso. apply Hgen. apply generated_names_in. exists key. split; [exact Hkey |].
      apply (call_names_are_keys _ _ _ _ n Hcall).
      apply dict_get_in_keys. congruence.
    - congruence. }
  rewrite Hqp in Hm. unfold merge_query_params in Hm.
  destruct l as [|e l]; [injection Hm as <-; discriminate |].
  destruct (update_from_seq_get _ _ _ _ _ Hm Hp0) as [Hnil | Hex];
    [discriminate | exact Hex].
Qed.

Lemma list_query_params_bind_key_names_witness :
  exists e k2,
    In e [[("value_a", PInt 1); ("value_b", PStr "b")];
          [("value_a", PInt 1); ("value_b", PStr "b")]]
    /\ dict_keys e = ["value_a"; k2] /\ PStr "value_b" = PStr k2.
Proof.
  apply (list_query_params_bind_key_names list_of_objects _
           "SELECT * FROM table WHERE value_a=:value_a and value_b=:value_b"
           [("value_a", PStr "value_b")] "value_a" (PStr "value_b")).
  - reflexivity.
  - vm_compute. reflexivity.
  - vm_compute. intros [].
  - reflexivity.
Defined.


(** ** What the scan reports *)

Lemma findall_go_at r ngroups : forall s skip groups,
  In groups (Re.findall_go r ngroups skip s) ->
  exists k caps rest,
    Re.match_here r (Re.drop k s) = Some (caps, rest)
    /\ groups = map (fun i => Re.group caps (S i)) (seq 0 ngroups).
Proof.
  induction s as [|c s IH]; intros skip groups H; cbn [Re.findall_go] in H;
    [contradiction |].
  assert (Hnext : forall skip', In groups (Re.findall_go r ngroups skip' s) ->
                    exists k caps rest,
                      Re.match_here r (Re.drop k (String c s)) = Some (caps, rest)
                      /\ groups = map (fun i => Re.group caps (S i)) (seq 0 ngroups)).
  { intros skip' H'. destruct (IH _ _ H') as (k & caps & rest & Hm & Hg).
    now exists (S k), caps, rest. }
  destruct skip as [|k]; [| eauto].
  destruct (Re.match_here r (String c s)) as [[caps rest]|] eqn:Hm; [| eauto].
  destruct H as [<- | H]; [| eauto].
  now exists 0, caps, rest.
Qed.

Lemma occurs_prefix pat s : prefix pat s = true -> occurs pat s = true.
Proof. intros H. destruct s; cbn [occurs]; now rewrite H. Qed.

Lemma occurs_app pat : forall a b, occurs pat b = true -> occurs pat (a ++ b) = true.
Proof.
  induction a as [|c a IH]; intros b H; [exact H |].
  cbn [append]. rewrite occurs_cons, (IH b H). apply orb_true_r.
Qed.

Lemma occurs_inside pat a b : occurs pat (a ++ pat ++ b) = true.
Proof. apply occurs_app, occurs_prefix, prefix_app. Qed.

Lemma scanned_group g query :
  In g (Re.findall LIST_TEMPLATE_REGEX LIST_TEMPLATE_GROUPS query) ->
  exists k lead trail rest kw tbl col,
    Re.drop k query = (lead ++ "{" ++ key_of_groups g ++ "}" ++ trail) ++ rest
    /\ item g 0 = lead ++ "{" ++ key_of_groups g ++ "}" ++ trail
    /\ sall space_class lead = true /\ sall space_class trail = true
    /\ key_of_groups g = kw ++ "__" ++ tbl ++ col
    /\ keyword kw
    /\ (tbl = "" \/ exists t, tbl = t ++ "." /\ t <> "" /\ sall ident_class t = true)
    /\ col <> "" /\ sall ident_class col = true.
Proof.
  unfold Re.findall. intros H.
  apply findall_go_at in H. destruct H as (k & caps & rest & Hm & ->).
  apply match_here_sound in Hm.
  pose proof Hm as Hg. unfold LIST_TEMPLATE_REGEX in Hg.
  apply group_inv in Hg. destruct Hg as (whole & caps1 & Hdrop & Hcaps & _).
  apply list_template_match_inv in Hm.
  destruct Hm as (lead & kw & tbl & col & trail & H1 & H3 & H4 & H5 & Hl & Ht
                  & Hkw & Htbl & Hc1 & Hc2).
  assert (Hwhole : Re.group caps 1 = whole) by (rewrite Hcaps; reflexivity).
  assert (Hkey : key_of_groups (map (fun i => Re.group caps (S i))
                                    (seq 0 LIST_TEMPLATE_GROUPS))
                 = kw ++ "__" ++ tbl ++ col).
  { unfold key_of_groups, item. cbn [LIST_TEMPLATE_GROUPS seq map nth].
    rewrite H3, H4, H5. destruct (String.eqb_spec tbl "") as [-> | _]; reflexivity. }
  exists k, lead, trail, rest, kw, tbl, col.
  rewrite Hkey. unfold item. cbn [LIST_TEMPLATE_GROUPS seq map nth].
  assert (E : lead ++ "{" ++ (kw ++ "__" ++ tbl ++ col) ++ "}" ++ trail
              = Re.group caps 1).
  { rewrite H1. repeat (rewrite ?sapp_assoc; cbn [append]). reflexivity. }
  rewrite E, Hwhole. repeat split; auto.
Qed.

(** ** What validation does to the text *)

Lemma unspace_app : forall a b, unspace (a ++ b) = unspace a ++ unspace b.
Proof.
  induction a as [|c a IH]; intros b; [reflexivity |].
  cbn [append unspace]. rewrite IH. now destruct (Ascii.eqb c " ").
Qed.

Lemma unspace_spaces : forall t, sall space_class t = true -> unspace t = "".
Proof.
  induction t as [|c t IH]; [reflexivity |].
  cbn [sall unspace]. unfold space_class at 1. intros H.
  apply andb_true_iff in H as [Hc Ht]. rewrite Hc. now apply IH.
Qed.

Lemma lstrip_spaces : forall lead s,
  sall space_class lead = true -> lstrip (lead ++ s) = lstrip s.
Proof.
  induction lead as [|c lead IH]; intros s H; [reflexivity |].
  cbn [sall] in H. apply andb_true_iff in H as [Hc Hl].
  unfold space_class in Hc. apply Ascii.eqb_eq in Hc. subst c.
  cbn [append lstrip]. change (isspace " ") with true. cbn iota. now apply IH.
Qed.

Lemma rstrip_spaces_only : forall t, sall space_class t = true -> rstrip t = "".
Proof.
  induction t as [|c t IH]; [reflexivity |].
  cbn [sall]. intros H. apply andb_true_iff in H as [Hc Ht].
  unfold space_class in Hc. apply Ascii.eqb_eq in Hc. subst c.
  cbn [rstrip]. now rewrite (IH Ht).
Qed.

Lemma rstrip_spaces : forall s t,
  sall space_class t = true -> rstrip (s ++ t) = rstrip s.
Proof.
  induction s as [|c s IH]; intros t Ht.
  - now apply rstrip_spaces_only.
  - cbn [append rstrip]. now rewrite (IH t Ht).
Qed.

Lemma rstrip_closed : forall s, rstrip (s ++ "}") = s ++ "}".
Proof.
  induction s as [|c s IH]; [reflexivity |].
  cbn [append rstrip]. rewrite IH. now destruct s.
Qed.

Lemma strip_placeholder lead body trail :
  sall space_class lead = true -> sall space_class trail = true ->
  strip (lead ++ "{" ++ body ++ "}" ++ trail) = "{" ++ body ++ "}".
Proof.
  intros Hl Ht. unfold strip. rewrite (lstrip_spaces lead _ Hl).
  cbn [append lstrip]. change (isspace "{") with false. cbn iota.
  assert (E : String "{" (body ++ String "}" trail) = (String "{" body ++ "}") ++ trail)
    by (cbn [append]; rewrite sapp_assoc; reflexivity).
  rewrite E, (rstrip_spaces _ trail Ht). apply (rstrip_closed (String "{" body)).
Qed.

Lemma drop_prefix_tail old c s :
  old <> "" ->
  Re.drop (String.length old) (String c s) = Re.drop (String.length old - 1) s.
Proof.
  destruct old as [|a old]; [congruence |]. intros _.
  cbn [String.length]. replace (S (String.length old) - 1) with (String.length old) by lia.
  reflexivity.
Qed.

Lemma replace_go_unspace old new :
  old <> "" -> unspace new = unspace old ->
  forall s skip, unspace (replace_go old new skip s) = unspace (Re.drop skip s).
Proof.
  intros Hold Heq. induction s as [|c s IH]; intros skip.
  - now destruct skip.
  - cbn [replace_go]. destruct skip as [|k]; [| exact (IH k)].
    cbn [Re.drop]. destruct (prefix old (String c s)) eqn:Hp.
    + rewrite unspace_app, IH, Heq.
      rewrite <- (drop_prefix_tail old c s Hold), <- unspace_app.
      now rewrite <- (prefix_inv _ _ Hp).
    + cbn [unspace]. rewrite (IH 0). cbn [Re.drop]. reflexivity.
Qed.

Lemma replace_unspace s old new :
  old <> "" -> unspace new = unspace old -> unspace (replace s old new) = unspace s.
Proof.
  intros Hold Heq. unfold replace. destruct old as [|a old]; [congruence |].
  exact (replace_go_unspace _ _ Hold Heq s 0).
Qed.

Lemma validate_loop_unspace tp : forall ms q vk q' keys,
  (forall g, In g ms -> item g 0 <> ""
                        /\ unspace (strip (item g 0)) = unspace (item g 0)) ->
  validate_loop ms tp q vk = Ok (q', keys) ->
  unspace q' = unspace q.
Proof.
  induction ms as [|g ms IH]; intros q vk q' keys Hall H; cbn [validate_loop] in H.
  - now injection H as <- _.
  - destruct (missing_keys_of tp (key_of_groups g)) as [mk|e]; [| discriminate].
    cbn [Py.bind] in H. destruct (0 <? List.length mk)%nat; [discriminate |].
    apply IH in H; [| intros g' Hg'; apply Hall; now right].
    destruct (Hall g (or_introl eq_refl)) as [Hne Hstrip].
    now rewrite H, (replace_unspace _ _ _ Hne Hstrip).
Qed.

(** X13: validation touches nothing but spaces: the text it hands on is
    the query with some spaces removed, every other character kept and in
    place. *)
Theorem validation_changes_only_spaces (query : string) (tp : option (dict pyval))
    (q' : string) (keys : list string) :
  __validate_keys_clean_query query tp = Ok (q', keys) ->
  unspace q' = unspace query.
Proof.
  unfold __validate_keys_clean_query.
  apply validate_loop_unspace. intros g Hg.
  apply scanned_group in Hg.
  destruct Hg as (k & lead & trail & rest & kw & tbl & col & _ & -> & Hl & Ht & _).
  split; [destruct lead; discriminate |].
  rewrite (strip_placeholder lead _ trail Hl Ht).
  rewrite !unspace_app, (unspace_spaces _ Hl), (unspace_spaces _ Ht).
  cbn [append]. now rewrite !sapp_nil_r.
Qed.

Lemma validation_changes_only_spaces_witness :
  unspace "SELECT * FROM t WHERE x{in__x}AND y = :y" = unspace spaced.
Proof.
  apply (validation_changes_only_spaces spaced (Some [("in__x", PList [PInt 1])])
           "SELECT * FROM t WHERE x{in__x}AND y = :y" ["in__x"]).
  vm_compute. reflexivity.
Defined.

(** ** The mapping that is returned *)

(** X14: on the store, the mapping [get_query_data] returns is an object
    the call itself allocated: its reference is the first free location of
    the store the call started from, so it is none of the objects the caller
    holds, [query_params] included; the store the call leaves is the
    initial one followed by that mapping and the other objects allocated on
    the way, and the mapping holds the bindings of the result. *)
Theorem returned_mapping_is_new (h : Store.store) (data : Store.value) (arg : argument)
    (sql : string) (v : Store.value) (s : Store.store) :
  Refinement.rep_argument h data arg ->
  Store.get_query_data data h = (Ok (sql, v), s) ->
  exists e fresh params,
    v = Store.VRef (List.length h)
    /\ nth_error h (List.length h) = None
    /\ s = (h ++ Store.ODict e :: fresh)%list
    /\ get_query_data arg = Ok (sql, params)
    /\ Refinement.rep_dict h e params.
Proof.
  intros Hrep Hrun.
  pose proof (RefinementFacts.store_rendition_agrees h data arg Hrep) as Hagree.
  destruct (get_query_data arg) as [[sql' params]|ex].
  - destruct Hagree as (e & fresh & Hrun' & He).
    rewrite Hrun' in Hrun. injection Hrun as <- <- <-.
    exists e, fresh, params. repeat split; [| exact He].
    apply nth_error_None. lia.
  - destruct Hagree as (fresh & Hrun'). rewrite Hrun' in Hrun. discriminate.
Qed.

Lemma returned_mapping_is_new_witness :
  exists e fresh params,
    Store.VRef 3 = Store.VRef (List.length Store.example_store)
    /\ nth_error Store.example_store (List.length Store.example_store) = None
    /\ snd (Store.get_query_data (Store.VRef 2) Store.example_store)
       = (Store.example_store ++ Store.ODict e :: fresh)%list
    /\ get_query_data (AQueryData example_in_x)
       = Ok ("SELECT * FROM t WHERE x x IN ( :in__x_0, :in__x_1 ) ", params)
    /\ Refinement.rep_dict Store.example_store e params.
Proof.
  apply (returned_mapping_is_new Store.example_store (Store.VRef 2)
           (AQueryData example_in_x)).
  - exact RefinementFacts.example_store_represents.
  - vm_compute. reflexivity.
Defined.


(** ** The scan finds every placeholder *)

Lemma drop_app_length : forall l rest, Re.drop (String.length l) (l ++ rest) = rest.
Proof.
  induction l as [|c l IH]; intros rest; [now destruct rest |].
  cbn [String.length append Re.drop]. apply IH.
Qed.

Lemma plus_ways_complete cls : forall t c rest,
  sall cls (String c t) = true -> In rest (Re.plus_ways cls (String c t ++ rest)).
Proof.
  induction t as [|c' t IH]; intros c rest H; cbn [sall] in H;
    apply andb_true_iff in H as [Hc Ht]; cbn [append Re.plus_ways]; rewrite Hc;
    apply in_or_app.
  - right. now left.
  - left. apply (IH c' rest). exact Ht.
Qed.

Lemma run_complete r caps s caps' rest :
  matches_at r caps s caps' rest -> In (caps', rest) (Re.run r caps s).
Proof.
  induction 1 as [l caps rest | cls caps c t rest Hc
                 | r1 r2 caps s caps1 s1 caps2 s2 _ IH1 _ IH2
                 | r1 r2 caps s caps' rest _ IH | r1 r2 caps s caps' rest _ IH
                 | r caps s caps' rest _ IH | r caps s
                 | n r caps t rest caps' _ IH]; cbn [Re.run].
  - rewrite prefix_app, drop_app_length. now left.
  - apply in_map_iff. exists rest. split; [reflexivity |].
    now apply plus_ways_complete.
  - apply in_flat_map. exists (caps1, s1). split; [exact IH1 | exact IH2].
  - apply in_or_app. now left.
  - apply in_or_app. now right.
  - apply in_or_app. now left.
  - apply in_or_app. right. now left.
  - apply in_map_iff. exists (caps', rest). cbn [fst snd].
    now rewrite take_app_length.
Qed.

Lemma matches_keyword kw caps rest :
  keyword kw ->
  matches_at
    (Re.Group 3 (Re.Alt (Re.Lit "in") (Re.Alt (Re.Lit "not_in") (Re.Lit "values"))))
    caps (kw ++ rest) ((3, kw) :: caps) rest.
Proof.
  intros [-> | [-> | ->]]; constructor.
  - apply M_AltL. constructor.
  - apply M_AltR, M_AltL. constructor.
  - apply M_AltR, M_AltR. constructor.
Qed.

Lemma matches_name n caps name rest :
  name <> "" -> sall ident_class name = true ->
  matches_at (Re.Group n (Re.Plus ident_class)) caps (name ++ rest) ((n, name) :: caps) rest.
Proof.
  intros Hne Hall. constructor. destruct name as [|c t]; [congruence |].
  now constructor.
Qed.

Lemma matches_table caps tbl rest :
  (tbl = "" \/ exists t, tbl = t ++ "." /\ t <> "" /\ sall ident_class t = true) ->
  exists caps',
    matches_at (Re.Opt (Re.Group 4 (Re.Plus ident_class +> Re.Lit ".")%regex))
      caps (tbl ++ rest) caps' rest.
Proof.
  intros [-> | (t & -> & Hne & Hall)].
  - exists caps. apply M_OptNone.
  - exists ((4, t ++ ".") :: caps). apply M_OptSome. constructor.
    apply (M_Seq _ _ _ _ caps ("." ++ rest)).
    + rewrite sapp_assoc. destruct t as [|c t]; [congruence |]. now constructor.
    + constructor.
Qed.

Lemma matches_token kw tbl col post :
  keyword kw ->
  (tbl = "" \/ exists t, tbl = t ++ "." /\ t <> "" /\ sall ident_class t = true) ->
  col <> "" -> sall ident_class col = true ->
  exists caps,
    matches_at LIST_TEMPLATE_REGEX []
      ("{" ++ (kw ++ "__" ++ tbl ++ col) ++ "}" ++ post) caps post.
Proof.
  intros Hkw Htbl Hne Hcol.
  destruct (matches_table [(3, kw)] tbl (col ++ "}" ++ post) Htbl) as [caps4 H4].
  exists ((1, "{" ++ (kw ++ "__" ++ tbl ++ col) ++ "}") :: (5, col) :: caps4).
  unfold LIST_TEMPLATE_REGEX.
  assert (E : "{" ++ (kw ++ "__" ++ tbl ++ col) ++ "}" ++ post
              = ("{" ++ (kw ++ "__" ++ tbl ++ col) ++ "}") ++ post)
    by (repeat (rewrite ?sapp_assoc; cbn [append]); reflexivity).
  rewrite E. constructor. rewrite <- E.
  apply (M_Seq _ _ _ _ [] ("{" ++ (kw ++ "__" ++ tbl ++ col) ++ "}" ++ post));
    [apply M_OptNone |].
  apply (M_Seq _ _ _ _ [] ((kw ++ "__" ++ tbl ++ col) ++ "}" ++ post));
    [apply (M_Lit "{") |].
  assert (E1 : (kw ++ "__" ++ tbl ++ col) ++ "}" ++ post
               = kw ++ "__" ++ tbl ++ col ++ "}" ++ post)
    by (repeat (rewrite ?sapp_assoc; cbn [append]); reflexivity).
  rewrite E1.
  apply (M_Seq _ _ _ _ [(3, kw)] ("__" ++ tbl ++ col ++ "}" ++ post));
    [now apply matches_keyword |].
  apply (M_Seq _ _ _ _ [(3, kw)] (tbl ++ col ++ "}" ++ post));
    [apply (M_Lit "__") |].
  apply (M_Seq _ _ _ _ caps4 (col ++ "}" ++ post)); [exact H4 |].
  apply (M_Seq _ _ _ _ ((5, col) :: caps4) ("}" ++ post));
    [now apply matches_name |].
  apply (M_Seq _ _ _ _ ((5, col) :: caps4) post); [apply (M_Lit "}") | apply M_OptNone].
Qed.

Lemma match_here_token kw tbl col post :
  keyword kw ->
  (tbl = "" \/ exists t, tbl = t ++ "." /\ t <> "" /\ sall ident_class t = true) ->
  col <> "" -> sall ident_class col = true ->
  exists caps rest,
    Re.match_here LIST_TEMPLATE_REGEX ("{" ++ (kw ++ "__" ++ tbl ++ col) ++ "}" ++ post)
    = Some (caps, rest).
Proof.
  intros Hkw Htbl Hne Hcol.
  destruct (matches_token kw tbl col post Hkw Htbl Hne Hcol) as [caps H].
  apply run_complete in H. unfold Re.match_here.
  destruct (Re.run LIST_TEMPLATE_REGEX [] _) as [|[caps' rest'] l]; [destruct H |].
  now exists caps', rest'.
Qed.

Lemma well_formed_class key : well_formed_key key -> sall key_class key = true.
Proof.
  intros (kw & tbl & col & -> & Hkw & Htbl & _ & Hcol).
  assert (Hid : forall x, sall ident_class x = true -> sall key_class x = true).
  { intros x. apply sall_impl. intros c Hc. unfold key_class. now rewrite Hc. }
  assert (Hk : sall key_class kw = true)
    by (destruct Hkw as [-> | [-> | ->]]; reflexivity).
  assert (Ht : sall key_class tbl = true).
  { destruct Htbl as [-> | (t & -> & _ & Ht)]; [reflexivity |].
    rewrite sall_app, (Hid t Ht). reflexivity. }
  rewrite !sall_app, Hk, Ht, (Hid col Hcol). reflexivity.
Qed.

Lemma key_class_no_brace key :
  sall key_class key = true ->
  sall not_open_brace key = true /\ sall not_close_brace key = true.
Proof.
  intros H. split; revert H; apply sall_impl; intros c Hc;
    unfold not_open_brace, not_close_brace.
  - destruct (Ascii.eqb_spec c "{") as [-> | _]; [discriminate | reflexivity].
  - destruct (Ascii.eqb_spec c "}") as [-> | _]; [discriminate | reflexivity].
Qed.

Lemma spaces_no_brace t : sall space_class t = true -> sall not_open_brace t = true.
Proof.
  apply sall_impl. intros c Hc. unfold space_class in Hc. apply Ascii.eqb_eq in Hc.
  now subst c.
Qed.

(** Where two readings of a text agree on the first occurrence of a
    character, they agree on what comes before it. *)
Lemma first_char_unique (x : ascii) (a b u v : string) :
  sall (fun c => negb (Ascii.eqb c x)) a = true ->
  sall (fun c => negb (Ascii.eqb c x)) b = true ->
  a ++ String x u = b ++ String x v -> a = b /\ u = v.
Proof.
  revert b. induction a as [|c a IH]; intros b Ha Hb E.
  - destruct b as [|d b]; [now injection E as -> |].
    cbn [append] in E. injection E as <- _. cbn [sall] in Hb.
    now rewrite Ascii.eqb_refl in Hb.
  - destruct b as [|d b].
    + cbn [append] in E. injection E as -> _. cbn [sall] in Ha.
      now rewrite Ascii.eqb_refl in Ha.
    + cbn [append] in E. injection E as -> E. cbn [sall] in Ha, Hb.
      apply andb_true_iff in Ha as [_ Ha]. apply andb_true_iff in Hb as [_ Hb].
      destruct (IH b Ha Hb E) as [-> ->]. now split.
Qed.

Lemma only_char_unique (x : ascii) (a b u v : string) :
  sall (fun c => negb (Ascii.eqb c x)) a = true ->
  sall (fun c => negb (Ascii.eqb c x)) u = true ->
  a ++ String x u = b ++ String x v -> a = b /\ u = v.
Proof.
  revert b. induction a as [|c a IH]; intros b Ha Hu E.
  - destruct b as [|d b]; [now injection E as -> |].
    cbn [append] in E. injection E as <- E. rewrite E, sall_app in Hu.
    cbn [sall] in Hu. rewrite Ascii.eqb_refl in Hu. cbn [negb andb] in Hu.
    now rewrite andb_false_r in Hu.
  - cbn [sall] in Ha. apply andb_true_iff in Ha as [Hc Ha].
    destruct b as [|d b].
    + cbn [append] in E. injection E as -> _. now rewrite Ascii.eqb_refl in Hc.
    + cbn [append] in E. injection E as -> E.
      destruct (IH b Ha Hu E) as [-> ->]. now split.
Qed.

(** The shape of a match at the head of a text. *)
Lemma match_here_shape s caps rest :
  Re.match_here LIST_TEMPLATE_REGEX s = Some (caps, rest) ->
  exists lead trail key,
    s = lead ++ String "{" (key ++ String "}" (trail ++ rest))
    /\ key = key_of_groups (map (fun i => Re.group caps (S i)) (seq 0 LIST_TEMPLATE_GROUPS))
    /\ well_formed_key key
    /\ sall space_class lead = true /\ sall space_class trail = true.
Proof.
  intros Hm. apply match_here_sound in Hm.
  pose proof Hm as Hg. unfold LIST_TEMPLATE_REGEX in Hg.
  apply group_inv in Hg. destruct Hg as (whole & caps1 & Hs & Hcaps & _).
  apply list_template_match_inv in Hm.
  destruct Hm as (lead & kw & tbl & col & trail & H1 & H3 & H4 & H5 & Hl & Ht
                  & Hkw & Htbl & Hc1 & Hc2).
  assert (Hwhole : Re.group caps 1 = whole) by (rewrite Hcaps; reflexivity).
  exists lead, trail, (kw ++ "__" ++ tbl ++ col). repeat split; auto.
  - rewrite Hs, <- Hwhole, H1.
    repeat (rewrite ?sapp_assoc; cbn [append]). reflexivity.
  - unfold key_of_groups, item. cbn [LIST_TEMPLATE_GROUPS seq map nth].
    rewrite H3, H4, H5. destruct (String.eqb_spec tbl "") as [-> | _]; reflexivity.
  - now exists kw, tbl, col.
Qed.

Lemma findall_go_complete key post : 
  well_formed_key key ->
  forall s skip a,
    Re.drop skip s = a ++ String "{" (key ++ String "}" post) ->
    exists groups,
      In groups (Re.findall_go LIST_TEMPLATE_REGEX LIST_TEMPLATE_GROUPS skip s)
      /\ key_of_groups groups = key.
Proof.
  intros Hwf.
  pose proof (key_class_no_brace _ (well_formed_class _ Hwf)) as [Hko Hkc].
  induction s as [|c s IH]; intros skip a Hdrop.
  - exfalso. destruct skip; cbn [Re.drop] in Hdrop; destruct a; discriminate.
  - cbn [Re.findall_go]. destruct skip as [|k].
    + cbn [Re.drop] in Hdrop.
      destruct (Re.match_here LIST_TEMPLATE_REGEX (String c s)) as [[caps rest]|] eqn:Hm.
      * destruct (match_here_shape _ _ _ Hm)
          as (lead & trail & key' & Hs & Hkey' & Hwf' & Hlead & Htrail).
        pose proof (key_class_no_brace _ (well_formed_class _ Hwf')) as [Hko' Hkc'].
        set (M := lead ++ String "{" (key' ++ String "}" trail)).
        assert (HsM : String c s = M ++ rest).
        { rewrite Hs. unfold M. repeat (rewrite ?sapp_assoc; cbn [append]). reflexivity. }
        assert (Hlen : String.length (String c s) - String.length rest - 1
                       = String.length M - 1).
        { rewrite HsM, slength_app. lia. }
        assert (Hnext : forall l, rest = l ++ String "{" (key ++ String "}" post) ->
                  exists groups,
                    In groups (Re.findall_go LIST_TEMPLATE_REGEX LIST_TEMPLATE_GROUPS
                                 (String.length (String c s) - String.length rest - 1) s)
                    /\ key_of_groups groups = key).
        { intros l Hrest. apply (IH _ l). rewrite Hlen, <- Hrest.
          assert (HM : M <> "") by (unfold M; destruct lead; discriminate).
          rewrite <- (drop_prefix_tail M c s HM), HsM. apply drop_app_length. }
        assert (Hsplit : M ++ rest = a ++ String "{" (key ++ String "}" post))
          by (rewrite <- HsM; exact Hdrop).
        apply sapp_eq_app in Hsplit.
        destruct Hsplit as [l [[HM HT] | [Ha Hrest]]].
        -- destruct l as [|x l].
           ++ destruct (Hnext "" (eq_sym HT)) as (groups & Hin & Hk).
              exists groups. split; [now right | exact Hk].
           ++ cbn [append] in HT. injection HT as <- HT.
              unfold M in HM.
              apply only_char_unique in HM.
              ** destruct HM as [_ <-].
                 assert (E : key ++ String "}" post
                             = key' ++ String "}" (trail ++ rest))
                   by (rewrite HT; repeat (rewrite ?sapp_assoc; cbn [append]);
                       reflexivity).
                 apply first_char_unique in E; [| exact Hkc | exact Hkc'].
                 destruct E as [E _].
                 eexists. split; [left; reflexivity |]. now rewrite <- Hkey'.
              ** exact (spaces_no_brace _ Hlead).
              ** change (sall not_open_brace (key' ++ String "}" trail) = true).
                 rewrite sall_app. cbn [sall]. rewrite Hko'.
                 now rewrite (spaces_no_brace _ Htrail).
        -- destruct (Hnext l Hrest) as (groups & Hin & Hk).
           exists groups. split; [now right | exact Hk].
      * destruct a as [|x a].
        -- exfalso. cbn [append] in Hdrop. rewrite Hdrop in Hm.
           destruct Hwf as (kw & tbl & col & -> & Hkw & Htbl & Hc1 & Hc2).
           destruct (match_here_token kw tbl col post Hkw Htbl Hc1 Hc2)
             as (caps & rest & Hm').
           change ("{" ++ (kw ++ "__" ++ tbl ++ col) ++ "}" ++ post)
             with (String "{" ((kw ++ "__" ++ tbl ++ col) ++ String "}" post)) in Hm'.
           congruence.
        -- cbn [append] in Hdrop. injection Hdrop as -> ->.
           apply (IH 0 a). now destruct (a ++ _).
    + cbn [Re.drop] in Hdrop. exact (IH k a Hdrop).
Qed.


Lemma occurs_split pat : forall s,
  occurs pat s = true -> exists a b, s = a ++ pat ++ b.
Proof.
  induction s as [|c s IH]; intros H.
  - cbn [occurs] in H. rewrite orb_false_r in H. apply prefix_iff in H.
    destruct H as [r ->]. now exists "", r.
  - rewrite occurs_cons in H. apply orb_true_iff in H. destruct H as [H | H].
    + apply prefix_iff in H. destruct H as [r ->]. now exists "", r.
    + destruct (IH H) as (a & b & ->). now exists (String c a), b.
Qed.

Lemma placeholder_keys_sound (query key : string) :
  In key (placeholder_keys query) ->
  well_formed_key key /\ occurs (token key) query = true.
Proof.
  unfold placeholder_keys. intros H.
  apply in_map_iff in H. destruct H as (g & <- & Hg).
  apply scanned_group in Hg.
  destruct Hg as (k & lead & trail & rest & kw & tbl & col & Hdrop & _ & _ & _
                  & Hkey & Hkw & Htbl & Hc1 & Hc2).
  split.
  - rewrite Hkey. now exists kw, tbl, col.
  - apply (occurs_drop _ k). rewrite Hdrop.
    rewrite sapp_assoc.
    replace ("{" ++ key_of_groups g ++ "}" ++ trail)
      with (token (key_of_groups g) ++ trail)
      by (unfold token; repeat (rewrite ?sapp_assoc; cbn [append]); reflexivity).
    rewrite sapp_assoc. apply occurs_inside.
Qed.

Lemma placeholder_keys_complete (query key : string) :
  well_formed_key key -> occurs (token key) query = true ->
  In key (placeholder_keys query).
Proof.
  intros Hwf Hocc. apply occurs_split in Hocc. destruct Hocc as (a & b & ->).
  destruct (findall_go_complete key b Hwf (a ++ token key ++ b) 0 a)
    as (groups & Hin & <-).
  - cbn [Re.drop]. unfold token. repeat (rewrite ?sapp_assoc; cbn [append]). reflexivity.
  - unfold placeholder_keys, Re.findall. now apply in_map.
Qed.

(** X15: the scan reports exactly the well-formed keys that stand between
    braces in the text: a key is reported if and only if it is a keyword
    ([in], [not_in], [values]), the double underscore, an optional table
    name followed by a dot, and a column name (names made of letters and
    underscores only), and the key between braces occurs in the query. No
    placeholder is missed, wherever it stands and whatever surrounds it, and
    nothing else is taken for one: a name with a digit never is. *)
Theorem placeholder_keys_exact (query key : string) :
  In key (placeholder_keys query)
  <-> well_formed_key key /\ occurs ("{" ++ key ++ "}") query = true.
Proof.
  split.
  - apply placeholder_keys_sound.
  - intros [Hwf Hocc]. now apply placeholder_keys_complete.
Qed.

(** ** No placeholder is left in the result *)

Section Cleaning.
Variables (lead trail key k' : string).
Hypothesis key_class_key : sall key_class key = true.
Hypothesis key_class_k' : sall key_class k' = true.

#[local] Abbreviation old := (padded_token lead key trail).
#[local] Abbreviation new := (bare_token key).
#[local] Abbreviation pat := (bare_token k').

Lemma tail_no_open_brace : sall not_open_brace (k' ++ "}") = true.
Proof.
  rewrite sall_app. now rewrite (proj1 (key_class_no_brace _ key_class_k')).
Qed.

(** A text without opening brace that starts the cleaned text started the
    original one. *)
Lemma prefix_clean_go : forall s p,
  sall not_open_brace p = true ->
  prefix p (replace_go old new 0 s) = true -> prefix p s = true.
Proof.
  induction s as [|c s IH]; intros p Hp H; [exact H |].
  cbn [replace_go] in H.
  destruct p as [|x p]; [apply prefix_nil |].
  cbn [sall] in Hp. apply andb_true_iff in Hp as [Hx Hp].
  destruct (prefix old (String c s)).
  - unfold bare_token in H. cbn [append] in H. rewrite prefix_cons in H.
    apply andb_true_iff in H as [H _]. apply Ascii.eqb_eq in H. subst x. discriminate.
  - rewrite prefix_cons in *. apply andb_true_iff in H as [-> H].
    cbn [andb]. now apply IH.
Qed.

Lemma pat_in_new r : prefix pat (new ++ r) = true -> k' = key.
Proof.
  intros H. apply prefix_iff in H. destruct H as [r' H].
  unfold bare_token in H. cbn [append] in H. injection H as H.
  rewrite !sapp_assoc in H. cbn [append] in H.
  symmetry in H.
  apply first_char_unique in H;
    [tauto | exact (proj2 (key_class_no_brace _ key_class_k'))
     | exact (proj2 (key_class_no_brace _ key_class_key))].
Qed.

Lemma pat_in_old s : prefix old s = true -> occurs (String "{" (key ++ "}")) s = true.
Proof.
  intros H. apply prefix_iff in H. destruct H as [r ->]. unfold padded_token.
  rewrite sapp_assoc. apply occurs_app.
  replace (String "{" (key ++ String "}" trail) ++ r)
    with (String "{" (key ++ "}") ++ trail ++ r)
    by (cbn [append]; rewrite !sapp_assoc; reflexivity).
  apply occurs_prefix, prefix_app.
Qed.

(** Cleaning the spaces around a placeholder creates no token. *)
Lemma occurs_clean_go : forall s skip,
  occurs pat (replace_go old new skip s) = true ->
  occurs pat (Re.drop skip s) = true.
Proof.
  induction s as [|c s IH]; intros skip H.
  - destruct skip; exact H.
  - destruct skip as [|k]; cbn [replace_go] in H.
    + cbn [Re.drop].
      destruct (prefix old (String c s)) eqn:Hold.
      * destruct (prefix pat (new ++ replace_go old new (String.length old - 1) s))
          eqn:Hp.
        -- apply pat_in_new in Hp. unfold bare_token. rewrite Hp. now apply pat_in_old.
        -- unfold bare_token in H, Hp. cbn [append] in H, Hp. rewrite occurs_cons, Hp in H.
           cbn [orb] in H.
           change (String "{" (key ++ "}") ++ replace_go old new (String.length old - 1) s)
             with (String "{" ((key ++ "}") ++ replace_go old new (String.length old - 1) s))
             in H.
           apply (occurs_after_new pat) in H.
           ++ apply IH, occurs_drop in H. rewrite occurs_cons, H. apply orb_true_r.
           ++ eexists. reflexivity.
           ++ rewrite sall_app. now rewrite (proj1 (key_class_no_brace _ key_class_key)).
      * rewrite occurs_cons in H. apply orb_true_iff in H. destruct H as [H | H].
        -- unfold bare_token in H. rewrite prefix_cons in H. apply andb_true_iff in H as [Hc H].
           apply prefix_clean_go in H; [| exact tail_no_open_brace].
           rewrite occurs_cons. unfold bare_token. now rewrite prefix_cons, Hc, H.
        -- apply (IH 0) in H. cbn [Re.drop] in H. rewrite occurs_cons, H.
           apply orb_true_r.
    + cbn [Re.drop]. apply IH, H.
Qed.

End Cleaning.

Lemma validate_loop_no_new_token tp k' : forall ms q vk q' keys,
  sall key_class k' = true ->
  (forall g, In g ms ->
     exists lead trail,
       item g 0 = lead ++ String "{" (key_of_groups g ++ String "}" trail)
       /\ sall space_class lead = true /\ sall space_class trail = true
       /\ sall key_class (key_of_groups g) = true) ->
  validate_loop ms tp q vk = Ok (q', keys) ->
  occurs (token k') q' = true -> occurs (token k') q = true.
Proof.
  induction ms as [|g ms IH]; intros q vk q' keys Hk' Hall H Hocc;
    cbn [validate_loop] in H.
  - now injection H as <- _.
  - destruct (missing_keys_of tp (key_of_groups g)) as [mk|e]; [| discriminate].
    cbn [Py.bind] in H. destruct (0 <? List.length mk)%nat; [discriminate |].
    apply (IH _ _ _ _ Hk') in H; [| intros g' Hg'; apply Hall; now right | exact Hocc].
    destruct (Hall g (or_introl eq_refl)) as (lead & trail & Hitem & Hl & Ht & Hkey).
    assert (Hstrip : strip (item g 0) = String "{" (key_of_groups g ++ "}")).
    { rewrite Hitem. exact (strip_placeholder lead (key_of_groups g) trail Hl Ht). }
    rewrite Hstrip, Hitem in H.
    assert (Hrep : forall s old new, old <> "" -> replace s old new = replace_go old new 0 s).
    { intros s old new Hne. unfold replace. destruct old; [congruence | reflexivity]. }
    rewrite Hrep in H by (destruct lead; discriminate).
    apply (occurs_clean_go lead trail (key_of_groups g) k' Hkey Hk' q 0) in H.
    exact H.
Qed.

(** X16: the text [get_query_data] returns holds no placeholder any more:
    scanning it again reports no key, so that a second pass would find
    nothing to validate or to expand. *)
Theorem no_placeholder_left (d : QueryData) (sql : string) (params : dict pyval) :
  get_query_data (AQueryData d) = Ok (sql, params) ->
  placeholder_keys sql = [].
Proof.
  intros H. apply get_query_data_inv in H. destruct H as (q' & p0 & Hval & _ & Hloop).
  destruct (placeholder_keys sql) as [|k' ks] eqn:Hks; [reflexivity |].
  exfalso.
  assert (Hin : In k' (placeholder_keys sql)) by (rewrite Hks; now left).
  pose proof (placeholder_keys_class _ _ Hin) as Hk'.
  assert (Hkeys : forall k, In k (placeholder_keys (query d)) -> sall key_class k = true)
    by (intros k; apply placeholder_keys_class).
  destruct (placeholder_keys_sound _ _ Hin) as [Hwf Hsql].
  assert (Hq' : occurs (token k') q' = true).
  { destruct (occurs (token k') q') eqn:E; [reflexivity |].
    rewrite (assemble_loop_absent _ k' _ _ _ _ _ Hk' Hkeys E Hloop) in Hsql.
    discriminate. }
  assert (Hq : occurs (token k') (query d) = true).
  { unfold __validate_keys_clean_query in Hval.
    apply (validate_loop_no_new_token _ k' _ _ _ _ _ Hk') in Hval; [exact Hval | | exact Hq'].
    intros g Hg.
    assert (Hgk : In (key_of_groups g) (placeholder_keys (query d)))
      by (unfold placeholder_keys; now apply in_map).
    apply scanned_group in Hg.
    destruct Hg as (k & lead & trail & rest & _ & _ & _ & _ & Hitem & Hl & Ht & _).
    exists lead, trail. repeat split; auto. }
  assert (Hmem : In k' (placeholder_keys (query d)))
    by (apply placeholder_keys_complete; [exact Hwf | exact Hq]).
  rewrite (assemble_loop_clears _ _ _ _ _ _ k' Hkeys Hloop Hmem) in Hsql.
  discriminate.
Qed.

Lemma no_placeholder_left_witness :
  placeholder_keys "SELECT * FROM t WHERE x x IN ( :in__x_0, :in__x_1 ) " = [].
Proof.
  apply (no_placeholder_left example_in_x _ [("in__x_0", PInt 1); ("in__x_1", PInt 2)]).
  vm_compute. reflexivity.
Defined.


(** ** A values template over plain elements *)

Lemma list_loop_values_scalars key vals :
  startswith key "values" = true ->
  forall items index pv pk,
    forallb (fun v => negb (isinstance_list_or_tuple v)) items = true ->
    (forall i, index <= i -> ~ In (key ++ "_" ++ str i) (dict_keys pv)) ->
    Templates.list_loop key vals items index pv pk
    = (join ", " (pk ++ map (fun i => ("( :" ++ (key ++ "_" ++ str i) ++ " )")%string)
                            (seq index (List.length items)))%list,
       (pv ++ combine (map (fun i => (key ++ "_" ++ str i)%string)
                           (seq index (List.length items))) items)%list).
Proof.
  intros Hkey. induction items as [|v items IH]; intros index pv pk Hall Hfresh.
  - cbn [Templates.list_loop List.length seq map combine]. now rewrite !List.app_nil_r.
  - cbn [forallb] in Hall. apply andb_true_iff in Hall as [Hv Hall].
    cbn [Templates.list_loop List.length seq map combine]. rewrite Hkey, orb_true_r.
    assert (Hinner : Templates._parameterize_inner_list (key ++ "_" ++ str index) v
                     = ("( :" ++ (key ++ "_" ++ str index) ++ " )",
                        [(key ++ "_" ++ str index, v)])).
    { unfold Templates._parameterize_inner_list, Templates.inner_locals.
      destruct v; try discriminate; reflexivity. }
    rewrite Hinner. unfold dict_update. cbn [fold_left fst snd].
    rewrite dict_set_absent by (apply Hfresh; lia).
    rewrite IH; [now rewrite <- !List.app_assoc | exact Hall |].
    intros i Hi Hin. rewrite dict_keys_app in Hin. apply in_app_or in Hin.
    destruct Hin as [Hin | [E | []]].
    + apply (Hfresh i); [lia | exact Hin].
    + cbn [fst] in E. apply indexed_name_inj in E. lia.
Qed.

(** X17: under a key that starts with [values], a list of elements none of
    which is a list or a tuple gives one group per element, and the element
    at index [i] is bound under the key followed by [_i] with the key taken
    as it is: unlike the names of the elements of a list or tuple, these
    keep the dot of a table-qualified key. *)
Theorem values_of_plain_elements (key : string) (items : list pyval) :
  startswith key "values" = true ->
  forallb (fun v => negb (isinstance_list_or_tuple v)) items = true ->
  Templates._parameterize_list key (PList items)
  = Ok (join ", " (map (fun n => "( :" ++ n ++ " )") (plain_names key (List.length items))),
        combine (plain_names key (List.length items)) items).
Proof.
  intros Hkey Hall. unfold Templates._parameterize_list.
  cbn [isinstance_str iter Py.bind].
  rewrite (list_loop_values_scalars key _ Hkey items 0 [] [] Hall) by (intros i _ []).
  unfold plain_names. now rewrite map_map.
Qed.

Lemma values_of_plain_elements_witness :
  Templates._parameterize_list "values__t.c" (PList [PInt 1; PInt 2])
  = Ok ("( :values__t.c_0 ), ( :values__t.c_1 )",
        [("values__t.c_0", PInt 1); ("values__t.c_1", PInt 2)]).
Proof.
  apply (values_of_plain_elements "values__t.c" [PInt 1; PInt 2]); reflexivity.
Defined.

(** ** What the result depends on *)

Lemma missing_keys_of_lookup tp1 tp2 key :
  key <> "values" -> lookup tp1 key = lookup tp2 key ->
  missing_keys_of tp1 key = missing_keys_of tp2 key.
Proof.
  intros Hkey Hl. unfold missing_keys_of, get_is_none.
  apply String.eqb_neq in Hkey. rewrite Hkey.
  destruct tp1 as [tp1|], tp2 as [tp2|]; cbn [lookup] in Hl.
  - rewrite Hl. reflexivity.
  - rewrite Hl. reflexivity.
  - rewrite <- Hl. reflexivity.
  - reflexivity.
Qed.

Lemma validate_loop_lookup tp1 tp2 : forall ms q vk,
  (forall g, In g ms -> key_of_groups g <> "values"
                        /\ lookup tp1 (key_of_groups g) = lookup tp2 (key_of_groups g)) ->
  validate_loop ms tp1 q vk = validate_loop ms tp2 q vk.
Proof.
  induction ms as [|g ms IH]; intros q vk Hall; [reflexivity |].
  cbn [validate_loop].
  destruct (Hall g (or_introl eq_refl)) as [Hv Hl].
  rewrite (missing_keys_of_lookup tp1 tp2 _ Hv Hl).
  destruct (missing_keys_of tp2 (key_of_groups g)) as [mk|e]; [| reflexivity].
  cbn [Py.bind]. destruct (0 <? List.length mk)%nat; [reflexivity |].
  apply IH. intros g' Hg'. apply Hall. now right.
Qed.

Lemma template_call_lookup tp1 tp2 key :
  key_present tp1 key = true -> lookup tp1 key = lookup tp2 key ->
  template_call tp1 key = template_call tp2 key.
Proof.
  intros Hp Hl. unfold template_call.
  assert (Hsub : subscript tp1 key = subscript tp2 key).
  { unfold subscript. unfold key_present, get_is_none in Hp.
    destruct tp1 as [tp1|]; [| discriminate]. cbn [lookup] in Hl.
    destruct (dict_get tp1 key) as [v|] eqn:Hg; [| discriminate].
    destruct tp2 as [tp2|]; cbn [lookup] in Hl; [| discriminate].
    now rewrite <- Hl. }
  now rewrite Hsub.
Qed.

Lemma assemble_loop_lookup tp1 tp2 : forall keys q p,
  (forall k, In k keys -> key_present tp1 k = true /\ lookup tp1 k = lookup tp2 k) ->
  assemble_loop tp1 keys q p = assemble_loop tp2 keys q p.
Proof.
  induction keys as [|key keys IH]; intros q p Hall; [reflexivity |].
  rewrite !assemble_loop_cons.
  destruct (Hall key (or_introl eq_refl)) as [Hp Hl].
  rewrite (template_call_lookup tp1 tp2 key Hp Hl).
  destruct (template_call tp2 key) as [r|e]; [| reflexivity].
  cbn [Py.bind]. apply IH. intros k Hk. apply Hall. now right.
Qed.

(** X18: [get_query_data] looks at [template_params] only under the keys
    of the placeholders of the query: two QueryData with the same query and
    the same [query_params], whose [template_params] agree under these keys,
    give the same result or raise the same exception, whatever else the
    mappings hold; and no [template_params] at all is the same as an empty
    mapping. *)
Theorem template_params_matter_at_keys_only (d1 d2 : QueryData) :
  d1.(query) = d2.(query) ->
  d1.(query_params) = d2.(query_params) ->
  (forall key, In key (placeholder_keys d1.(query)) ->
               lookup d1.(template_params) key = lookup d2.(template_params) key) ->
  get_query_data (AQueryData d1) = get_query_data (AQueryData d2).
Proof.
  intros Hq Hqp Hsame. unfold get_query_data.
  cbn [__validate_query_and_params Py.bind].
  rewrite <- Hq, <- Hqp. unfold __validate_keys_clean_query.
  rewrite (validate_loop_lookup (template_params d1) (template_params d2)).
  - destruct (validate_loop _ (template_params d2) (query d1) []) as [[q' keys]|e] eqn:Hval;
      [| reflexivity].
    cbn [Py.bind].
    destruct (merge_query_params [] (query_params d1)) as [p0|e]; [| reflexivity].
    cbn [Py.bind].
    pose proof (validate_loop_keys _ _ _ _ _ _ Hval) as Hkeys. cbn [List.app] in Hkeys.
    apply assemble_loop_lookup. intros k Hk. subst keys.
    fold (placeholder_keys (query d1)) in Hk.
    split; [| now apply Hsame].
    assert (Hp2 : key_present (template_params d2) k = true).
    { apply in_map_iff in Hk. destruct Hk as (g & <- & Hg).
      exact (validate_loop_ok_present _ _ _ _ _ Hval g Hg). }
    specialize (Hsame k Hk). unfold key_present, get_is_none in *.
    destruct (template_params d1) as [tp1|], (template_params d2) as [tp2|];
      cbn [lookup] in Hsame; try discriminate.
    + now rewrite Hsame.
    + rewrite <- Hsame in Hp2. discriminate.
  - intros g Hg.
    assert (Hk : In (key_of_groups g) (placeholder_keys (query d1)))
      by (unfold placeholder_keys; now apply in_map).
    split; [exact (placeholder_key_not_values _ _ Hk) | now apply Hsame].
Qed.

Lemma template_params_matter_at_keys_only_witness :
  get_query_data (AQueryData example_in_x)
  = get_query_data (AQueryData example_in_x_and_more).
Proof.
  apply (template_params_matter_at_keys_only example_in_x example_in_x_and_more).
  - reflexivity.
  - reflexivity.
  - vm_compute. intros key [<- | []]. reflexivity.
Defined.
